(** * mathemage.mage.image: the pixel buffer [Image] and the container
    [LayeredImage], embedded from [src/mathemage/mage/image.py].

    The Python classes are thin layers over NumPy arrays.  The part of NumPy
    the module relies on is modelled in [Module Np]: arrays with their
    dtype, shape, strides and elements in row-major order; basic indexing
    with integers, slices and [Ellipsis]; assignment with broadcasting of a
    colour tuple; [np.full], elementwise [+], [np.vectorize], in-place
    reshape and [np.append] along an axis.  Of the dtypes, [uint8], which
    the module uses for the arrays it creates, and [int64], NumPy's default
    for integers, are modelled: [Image] takes any array of a fitting shape.

    Python objects are mutable and compared by identity: [Image] objects live
    in a store indexed by locations, and every method is a function from the
    store to an outcome (a value or a raised exception) and the store it
    leaves behind.  A user-supplied function (a domain, mask or colour
    function) returns a value or raises any exception.  An array holds its
    elements by value, with the strides of the view it is: a read returns
    the elements as they are at the time of the read, and what a later
    write through a view does to its base is not modelled.

    Floats are binary64 numbers, with the arithmetic and the comparisons of
    IEEE 754.  An integer outside 0..255 stored into a [uint8] array wraps
    around, as in NumPy 1; the properties below only store values in
    0..255. *)

From Stdlib Require Import ZArith QArith Qabs Lia Floats.
From stdpp Require Import base strings list gmap.

Local Close Scope Q_scope.
Local Open Scope Z_scope.
Local Open Scope nat_scope.

(** ** Python outcomes *)

Module Py.

(** The exceptions the module raises itself or receives from Python and
    NumPy.  [NoSuchObject] is the model's answer to a location the store
    does not hold, which Python cannot produce. *)
Inductive exn : Set :=
| RuntimeError | ValueError | TypeError | IndexError
| AttributeError | OverflowError | NoSuchObject.

Inductive result (A : Type) : Type :=
| Ok (a : A)
| Raise (e : exn).
Arguments Ok {A} a.
Arguments Raise {A} e.

Definition bind {A B} (r : result A) (k : A -> result B) : result B :=
  match r with
  | Ok a => k a
  | Raise e => Raise e
  end.

Definition of_option {A} (e : exn) (o : option A) : result A :=
  match o with
  | Some a => Ok a
  | None => Raise e
  end.

Fixpoint mapM {A B} (f : A -> result B) (l : list A) : result (list B) :=
  match l with
  | [] => Ok []
  | x :: l' => bind (f x) (fun y => bind (mapM f l') (fun ys => Ok (y :: ys)))
  end.

(** A slice bound or step: [None], an [int] or a [float]. *)
Inductive bound : Type :=
| BNone
| BInt (z : Z)
| BFloat (q : float).

(** One component of an index: an [int], a [float], a [slice], or
    [Ellipsis], the representative of the objects that are none of the
    three. *)
Inductive component : Type :=
| CInt (z : Z)
| CFloat (q : float)
| CSlice (start stop step : bound)
| CEllipsis.

(** What is written between the brackets: a tuple of components, or one
    component that is not a tuple. *)
Inductive index : Type :=
| ITuple (cs : list component)
| IScalar (c : component).

(** [slice(None)] *)
Definition full_slice : component := CSlice BNone BNone BNone.

(** The float an [int] becomes in arithmetic with a float: the nearest
    binary64 number, ties to even; an [int] beyond the largest float raises
    [OverflowError]. *)
Definition float_of_int (z : Z) : result float :=
  let f := SF2Prim (binary_normalize prec emax z 0 false) in
  if is_infinity f then Raise OverflowError else Ok f.

(** Stable ascending sort by [<], as [sorted] on a list whose elements [<]
    orders.  The order Python gives to elements that [<] does not order
    (a NaN among the keys) depends on its merge strategy and is not
    modelled. *)
Section Sorted.
Context {A : Type} (lt : A -> A -> bool).

Fixpoint insert_sorted (x : A) (l : list A) : list A :=
  match l with
  | [] => [x]
  | y :: l' => if lt y x then y :: insert_sorted x l' else x :: y :: l'
  end.

Fixpoint sorted (l : list A) : list A :=
  match l with
  | [] => []
  | x :: l' => insert_sorted x (sorted l')
  end.
End Sorted.

End Py.
Export Py.

Notation "x <- c1 ;; c2" := (Py.bind c1 (fun x => c2))
  (at level 100, c1 at next level, right associativity).

(** ** The NumPy arrays of the module *)

Module Np.

(** The scalar types an array can have as its dtype. *)
Inductive scalar : Set := uint8 | int64.

(** An array: its dtype, its shape, its strides, counted in elements, and
    its elements in row-major order. *)
Record ndarray : Type := mkNd {
  dtype : scalar;
  shape : list nat;
  strides : list Z;
  flat : list Z
}.

Definition size_of (sh : list nat) : nat := foldr Nat.mul 1 sh.

(** The strides of a new array of shape [sh], in C order; an axis of length
    0 counts as one of length 1. *)
Fixpoint c_strides (sh : list nat) : list Z :=
  match sh with
  | [] => []
  | _ :: sh' =>
      Z.of_nat (foldr (fun d acc => Nat.max d 1 * acc) 1 sh') :: c_strides sh'
  end.

(** A new [uint8] array in C order. *)
Abbreviation mkArr sh fl := (mkNd uint8 sh (c_strides sh) fl).

(** Conversion of an integer to [uint8] wraps around. *)
Definition to_uint8 (v : Z) : Z := (v mod 256)%Z.

(** The value [v] as an element of dtype [dt]: integer arithmetic wraps
    around. *)
Definition wrap (dt : scalar) (v : Z) : Z :=
  match dt with
  | uint8 => to_uint8 v
  | int64 => ((v + 2 ^ 63) mod 2 ^ 64 - 2 ^ 63)%Z
  end.

(** Whether a Python [int] fits a C [long], of 64 bits. *)
Definition fits_long (v : Z) : bool :=
  ((- 2 ^ 63 <=? v) && (v <? 2 ^ 63))%Z.

(** A Python [int] converted to an element of dtype [dt]: an [int] that
    does not fit a C [long] raises [OverflowError]; one that does wraps
    around. *)
Definition of_int (dt : scalar) (v : Z) : result Z :=
  if fits_long v then Ok (wrap dt v) else Raise OverflowError.

(** The dtype of the result of an operation on two arrays. *)
Definition promote (a b : scalar) : scalar :=
  match a, b with
  | uint8, uint8 => uint8
  | _, _ => int64
  end.

(** *** Basic indexing *)

(** [slice.indices]: the positions a slice selects on an axis of length
    [len]. *)
Definition clamp_bound (n lo hi : Z) (b : Z) : Z :=
  if (b <? 0)%Z then Z.max (b + n) lo else Z.min b hi.

Definition slice_indices (len : nat) (start stop step : bound)
  : result (list nat) :=
  let n := Z.of_nat len in
  st <- match step with
        | BNone => Ok 1%Z
        | BInt 0 => Raise ValueError
        | BInt s => Ok s
        | BFloat _ => Raise TypeError
        end ;;
  let lo_min := if (st <? 0)%Z then (-1)%Z else 0%Z in
  let hi_max := if (st <? 0)%Z then (n - 1)%Z else n in
  b <- match start with
       | BNone => Ok (if (st <? 0)%Z then hi_max else lo_min)
       | BInt z => Ok (clamp_bound n lo_min hi_max z)
       | BFloat _ => Raise TypeError
       end ;;
  e <- match stop with
       | BNone => Ok (if (st <? 0)%Z then lo_min else hi_max)
       | BInt z => Ok (clamp_bound n lo_min hi_max z)
       | BFloat _ => Raise TypeError
       end ;;
  let count :=
    if (st <? 0)%Z
    then (if (e <? b)%Z then (b - e - 1) / (- st) + 1 else 0)%Z
    else (if (b <? e)%Z then (e - b - 1) / st + 1 else 0)%Z in
  Ok (map (fun k => Z.to_nat (b + Z.of_nat k * st)) (seq 0 (Z.to_nat count))).

(** An integer on an axis of length [len]: negative values count from the
    end, anything outside raises. *)
Definition int_index (len : nat) (z : Z) : result nat :=
  let n := Z.of_nat len in
  if ((- n <=? z) && (z <? n))%Z
  then Ok (Z.to_nat (if (z <? 0)%Z then z + n else z))
  else Raise IndexError.

Definition is_ellipsis (c : component) : bool :=
  match c with CEllipsis => true | _ => false end.

Definition is_float (c : component) : bool :=
  match c with CFloat _ => true | _ => false end.

(** The index completed to one component per axis: [Ellipsis] stands for
    as many full slices as are missing, and so does the end of a short
    index. *)
Fixpoint expand (missing : nat) (cs : list component) : list component :=
  match cs with
  | [] => []
  | CEllipsis :: cs' => replicate missing full_slice ++ cs'
  | c :: cs' => c :: expand missing cs'
  end.

Definition complete (ndim : nat) (cs : list component)
  : result (list component) :=
  let dots := length (List.filter is_ellipsis cs) in
  let given := length cs - dots in
  if existsb is_float cs then Raise IndexError
  else if 1 <? dots then Raise IndexError
  else if ndim <? given then Raise IndexError
  else if dots =? 0 then Ok (cs ++ replicate (ndim - given) full_slice)
  else Ok (expand (ndim - given) cs).

(** What one component selects on its axis, and whether the axis stays in
    the result. *)
Definition select (len : nat) (c : component) : result (list nat * bool) :=
  match c with
  | CInt z => i <- int_index len z ;; Ok ([i], false)
  | CSlice start stop step =>
      l <- slice_indices len start stop step ;; Ok (l, true)
  | CFloat _ | CEllipsis => Raise IndexError
  end.

Fixpoint select_all (dims : list nat) (cs : list component)
  : result (list (list nat * bool)) :=
  match dims, cs with
  | d :: dims', c :: cs' =>
      s <- select d c ;; ss <- select_all dims' cs' ;; Ok (s :: ss)
  | _, _ => Ok []
  end.

(** Row-major offsets of the selected elements. *)
Fixpoint positions (dims : list nat) (sels : list (list nat)) (base : nat)
  : list nat :=
  match dims, sels with
  | d :: dims', s :: sels' =>
      flat_map (fun i => positions dims' sels' (base * d + i)) s
  | _, _ => [base]
  end.

Definition kept_shape (sels : list (list nat * bool)) : list nat :=
  map (fun s => length (fst s)) (List.filter snd sels).

(** The shape of [a[cs]] and the offsets of its elements in [a]. *)
Definition resolve (a : ndarray) (cs : list component)
  : result (list nat * list nat) :=
  full <- complete (length (shape a)) cs ;;
  sels <- select_all (shape a) full ;;
  Ok (kept_shape sels, positions (shape a) (map fst sels) 0).

(** The step of a slice that selects [sel]; a slice that selects nothing
    counts as one of step 1. *)
Definition axis_step (c : component) (sel : list nat) : Z :=
  match c, sel with
  | CSlice _ _ (BInt st), _ :: _ => st
  | _, _ => 1%Z
  end.

(** The strides of the view [a[cs]]: those of the axes that stay, each
    multiplied by the step of its slice. *)
Fixpoint kept_strides (st : list Z) (cs : list component)
    (sels : list (list nat * bool)) {struct cs} : list Z :=
  match cs, sels, st with
  | c :: cs', sel :: sels', s :: st' =>
      (if snd sel then [(s * axis_step c (fst sel))%Z] else [])
      ++ kept_strides st' cs' sels'
  | _, _, _ => []
  end.

Definition view_strides (a : ndarray) (cs : list component) : list Z :=
  match complete (length (shape a)) cs with
  | Ok full =>
      match select_all (shape a) full with
      | Ok sels => kept_strides (strides a) full sels
      | Raise _ => []
      end
  | Raise _ => []
  end.

(** [a[cs]]: a view of [a] *)
Definition getitem (a : ndarray) (cs : list component) : result ndarray :=
  r <- resolve a cs ;;
  Ok (mkNd (dtype a) (fst r) (view_strides a cs)
           (map (fun p => nth p (flat a) 0%Z) (snd r))).

(** *** Assignment *)

(** A value on the right of an assignment: a tuple of integers, or rows of
    them. *)
Inductive pyvalue : Type :=
| VTuple (v : list Z)
| VRows (vs : list (list Z)).

(** The value converted to the dtype of the array it is assigned to. *)
Definition of_ints (dt : scalar) (v : pyvalue) : result pyvalue :=
  match v with
  | VTuple t => t' <- mapM (of_int dt) t ;; Ok (VTuple t')
  | VRows rows => rows' <- mapM (mapM (of_int dt)) rows ;; Ok (VRows rows')
  end.

(** A row of length [k] stretched to length [n]. *)
Definition stretch (n : nat) (v : list Z) : result (list Z) :=
  if length v =? n then Ok v
  else match v with
       | [x] => Ok (replicate n x)
       | _ => Raise ValueError
       end.

(** Broadcasting of a value to a target shape; the result lists one
    element per target position. *)
Definition broadcast (target : list nat) (v : pyvalue) : result (list Z) :=
  match v with
  | VTuple t =>
      match last target with
      | None => Raise ValueError
      | Some n =>
          row <- stretch n t ;;
          Ok (concat (replicate (size_of (removelast target)) row))
      end
  | VRows rows =>
      match target with
      | [m; n] =>
          rows' <- mapM (stretch n) rows ;;
          if length rows' =? m then Ok (concat rows')
          else match rows' with
               | [r] => Ok (concat (replicate m r))
               | _ => Raise ValueError
               end
      | _ => Raise ValueError
      end
  end.

(** Stores [vals] at [ps], one after the other. *)
Definition scatter (fl : list Z) (ps : list nat) (vals : list Z) : list Z :=
  fold_left (fun acc pv => <[fst pv := snd pv]> acc) (zip ps vals) fl.

(** [a[cs] = v] *)
Definition setitem (a : ndarray) (cs : list component) (v : pyvalue)
  : result ndarray :=
  r <- resolve a cs ;;
  v' <- of_ints (dtype a) v ;;
  vals <- broadcast (fst r) v' ;;
  Ok (mkNd (dtype a) (shape a) (strides a) (scatter (flat a) (snd r) vals)).

(** *** Boolean masks over the first two axes *)

Definition mask := list (list bool).

Definition mask_fits (rows cols : nat) (m : mask) : bool :=
  (length m =? rows) && forallb (fun r => length r =? cols) m.

(** Offsets, in row-major order, of the cells a mask selects. *)
Definition mask_cells (m : mask) : list nat :=
  map fst (List.filter snd (imap (fun i b => (i, b)) (concat m))).

(** [a[m] = v] for a three-dimensional [a] *)
Definition setitem_mask (a : ndarray) (m : mask) (v : pyvalue)
  : result ndarray :=
  match shape a with
  | [h; w; c] =>
      if mask_fits h w m then
        let cells := mask_cells m in
        let ps := flat_map (fun p => map (fun k => p * c + k) (seq 0 c)) cells in
        v' <- of_ints (dtype a) v ;;
        vals <- broadcast [length cells; c] v' ;;
        Ok (mkNd (dtype a) (shape a) (strides a) (scatter (flat a) ps vals))
      else Raise IndexError
  | _ => Raise IndexError
  end.

(** [g[m]] for a two-dimensional grid of floats *)
Definition grid_select (g : list (list float)) (m : mask)
  : result (list float) :=
  if (length g =? length m)
     && forallb (fun rm => length (fst rm) =? length (snd rm)) (zip g m)
  then Ok (map fst (List.filter snd (zip (concat g) (concat m))))
  else Raise IndexError.

(** *** Whole-array operations *)

(** [np.full(sh, fill, dtype=np.uint8)] *)
Definition full (sh : list Z) (fill : list Z) : result ndarray :=
  if forallb (fun d => (0 <=? d)%Z) sh then
    let sh' := map Z.to_nat sh in
    vals <- broadcast sh' (VTuple fill) ;;
    Ok (mkArr sh' (map to_uint8 vals))
  else Raise ValueError.

(** [a + b] for arrays of one shape: a new array of the dtype the two
    promote to, in which the sums wrap around. *)
Definition add (a b : ndarray) : ndarray :=
  let dt := promote (dtype a) (dtype b) in
  mkNd dt (shape a) (c_strides (shape a))
       (zip_with (fun x y => wrap dt (x + y)) (flat a) (flat b)).

(** [np.vectorize(f, otypes=(np.uint8,))(a)]: [f] is applied to the
    elements as Python integers, and what it returns is converted to
    [uint8]. *)
Definition vectorize (f : Z -> Z) (a : ndarray) : result ndarray :=
  vals <- mapM (fun v => of_int uint8 (f v)) (flat a) ;;
  Ok (mkArr (shape a) vals).

(** *** Reshaping in place *)

(** Whether an array is laid out in C order without gaps, as NumPy
    computes the flag: axes of length 1 do not count, and an array with no
    element is contiguous. *)
Fixpoint contiguous_from (axes : list (nat * Z)) (sd : Z) : bool :=
  match axes with
  | [] => true
  | (d, s) :: axes' =>
      if d =? 1 then contiguous_from axes' sd
      else (s =? sd)%Z && contiguous_from axes' (sd * Z.of_nat d)
  end.

Definition c_contiguous (sh : list nat) (st : list Z) : bool :=
  existsb (fun d => d =? 0) sh || contiguous_from (reverse (zip sh st)) 1.

(** The axes of length other than 1, each with its stride. *)
Definition squeeze (sh : list nat) (st : list Z) : list (nat * Z) :=
  List.filter (fun ds => negb (fst ds =? 1)) (zip sh st).

(** New dimensions and old axes are taken up until their products [np] and
    [op] agree; the old axes taken together must lie in memory as one axis.
    [grp] is the new dimensions taken so far and [last] the stride of the
    last old axis taken. *)
Fixpoint balance (fuel np op : nat) (grp : list nat) (last : Z)
    (news : list nat) (olds : list (nat * Z))
  : option (list nat * Z * list nat * list (nat * Z)) :=
  match fuel with
  | O => None
  | S fuel' =>
      if np =? op then Some (grp, last, news, olds)
      else if np <? op then
        match news with
        | n :: news' => balance fuel' (np * n) op (grp ++ [n]) last news' olds
        | [] => None
        end
      else
        match olds with
        | (d, s) :: olds' =>
            if (last =? Z.of_nat d * s)%Z
            then balance fuel' np (op * d) grp s news olds'
            else None
        | [] => None
        end
  end.

(** The strides of the new dimensions [grp] over one old axis of stride
    [last]. *)
Fixpoint group_strides (grp : list nat) (last : Z) : list Z :=
  match grp with
  | [] => []
  | _ :: grp' => (last * Z.of_nat (size_of grp'))%Z :: group_strides grp' last
  end.

(** The strides of the shape [news] over the axes [olds], when the
    elements can stay where they are. *)
Fixpoint regroup (fuel : nat) (news : list nat) (olds : list (nat * Z))
    (last : Z) : option (list Z) :=
  match fuel with
  | O => None
  | S fuel' =>
      match news, olds with
      | n :: news', (d, s) :: olds' =>
          match balance (length news + length olds) n d [n] s news' olds' with
          | Some (grp, last', news'', olds'') =>
              match regroup fuel' news'' olds'' last' with
              | Some rest => Some (group_strides grp last' ++ rest)
              | None => None
              end
          | None => None
          end
      | _, _ => Some (map (fun _ => last) news)
      end
  end.

(** [a.shape = sh]: the array is reshaped in place; a shape of another size
    raises [ValueError], and a shape that the elements, where they are, can
    only take after a copy raises [AttributeError]. *)
Definition set_shape (a : ndarray) (sh : list nat) : result ndarray :=
  if negb (size_of sh =? size_of (shape a)) then Raise ValueError
  else if bool_decide (sh = shape a) then Ok a
  else if c_contiguous (shape a) (strides a)
  then Ok (mkNd (dtype a) sh (c_strides sh) (flat a))
  else match regroup (S (length sh)) sh (squeeze (shape a) (strides a)) 1 with
       | Some st => Ok (mkNd (dtype a) sh st (flat a))
       | None => Raise AttributeError
       end.

(** Rows of [ka] elements of [a] followed by rows of [kb] elements of
    [b], [n] times. *)
Fixpoint interleave (n ka kb : nat) (a b : list Z) : list Z :=
  match n with
  | O => []
  | S n' => take ka a ++ take kb b
            ++ interleave n' ka kb (drop ka a) (drop kb b)
  end.

(** [np.append(a, b, axis=2)]: a new array *)
Definition append_axis2 (a b : ndarray) : result ndarray :=
  match shape a, shape b with
  | [a0; a1; a2], [b0; b1; b2] =>
      if (a0 =? b0) && (a1 =? b1)
      then Ok (mkNd (promote (dtype a) (dtype b)) [a0; a1; a2 + b2]
                    (c_strides [a0; a1; a2 + b2])
                    (interleave (a0 * a1) a2 b2 (flat a) (flat b)))
      else Raise ValueError
  | _, _ => Raise ValueError
  end.

End Np.

(** ** [class Image] *)

Definition grid : Type := list (list float).

(** A domain function: from a width and a height to the grids of the x and y
    coordinates of every pixel, or to the exception the call raises. *)
Definition domainfn : Type := nat -> nat -> result (grid * grid).

(** The attributes of an [Image] object. *)
Record Image : Type := mkImage { pixels : Np.ndarray; _domain : option domainfn }.

Definition loc : Type := positive.

Abbreviation store := (gmap loc Image).

(** A method: from the store to what it returns or raises, and the store
    afterwards. *)
Definition M (A : Type) : Type := store -> result A * store.

Definition ret {A} (a : A) : M A := fun s => (Ok a, s).

Definition lift {A} (r : result A) : M A := fun s => (r, s).

Definition mbind {A B} (m : M A) (k : A -> M B) : M B :=
  fun s =>
    match m s with
    | (Ok a, s') => k a s'
    | (Raise e, s') => (Raise e, s')
    end.

Notation "x <~ c1 ;; c2" := (mbind c1 (fun x => c2))
  (at level 100, c1 at next level, right associativity).

Definition load (l : loc) : M Image :=
  fun s => (of_option NoSuchObject (s !! l), s).

Definition save (l : loc) (img : Image) : M unit :=
  fun s => (Ok tt, <[l := img]> s).

(** A new object gets a location no object has. *)
Definition alloc (img : Image) : M loc :=
  fun s => let l := fresh (dom s) in (Ok l, <[l := img]> s).

(** What an indexed read returns: a new [Image], or the array itself. *)
Inductive value : Type :=
| VImage (l : loc)
| VArray (a : Np.ndarray).

(** The right operand of a binary operator. *)
Inductive pyobj : Type :=
| PImage (l : loc)
| PArray (a : Np.ndarray)
| PInt (z : Z).

(** The colour of a drawable: a tuple, or a function of the selected
    coordinates. *)
Inductive colorspec : Type :=
| ColorTuple (c : list Z)
| ColorFunc (g : list float -> list float -> result Np.pyvalue).

Record Drawable : Type := mkDrawable {
  domainfunc : domainfn;
  maskfunc : grid -> grid -> result Np.mask;
  colorfunc : colorspec
}.

Module Image.

Definition default_background : list Z := [255; 255; 255; 255]%Z.

(** If given an RGB lookalike, convert it to RGBA. *)
Definition rgba (c : list Z) : list Z :=
  if length c =? 3 then c ++ [255%Z] else c.

Definition __init__ (width height : option Z) (domain : option domainfn)
    (background : list Z) (px : option Np.ndarray) : M loc :=
  match px with
  | Some p =>
      let shape := Np.shape p in
      if negb (length shape =? 3) || negb (bool_decide (last shape = Some 4))
      then lift (Raise ValueError)
      else alloc (mkImage p domain)
  | None =>
      match width, height with
      | Some w, Some h =>
          p <~ lift (Np.full [h; w; 4%Z] (rgba background)) ;;
          alloc (mkImage p domain)
      | _, _ => lift (Raise ValueError)
      end
  end.

Definition width (img : Image) : result nat :=
  of_option IndexError (Np.shape (pixels img) !! 1).

Definition height (img : Image) : result nat :=
  of_option IndexError (Np.shape (pixels img) !! 0).

(** [self.pixels[:, :, 0:3]] *)
Definition color (img : Image) : result Np.ndarray :=
  Np.getitem (pixels img)
    [full_slice; full_slice; CSlice (BInt 0) (BInt 3) BNone].

(** [self.pixels[:, :, 3]] *)
Definition alpha (img : Image) : result Np.ndarray :=
  Np.getitem (pixels img) [full_slice; full_slice; CInt 3].

Definition fromarray (px : Np.ndarray) : M loc :=
  __init__ None None None default_background (Some px).

Definition _flip_index (index : index) : result (list component) :=
  match index with
  | ITuple cs =>
      if length cs =? 2 then
        match cs with
        | [i0; i1] => Ok [i1; i0]
        | _ => Raise IndexError
        end
      else
        match cs with
        | i0 :: i1 :: rest => Ok (i1 :: i0 :: rest)
        | _ => Raise IndexError
        end
  | IScalar c => Ok [full_slice; c]
  end.

(** The array read is a view of [self.pixels]: it has the strides of one. *)
Definition _get_by_pixels (self : loc) (idx : list component) : M value :=
  img <~ load self ;;
  px <~ lift (Np.getitem (pixels img) idx) ;;
  if length (Np.shape px) =? 3
  then l <~ fromarray px ;; ret (VImage l)
  else ret (VArray px).

Definition is_float_bound (b : bound) : bool :=
  match b with BFloat _ => true | _ => false end.

Fixpoint _is_pixel_addr (index : list component) : bool :=
  match index with
  | [] => true
  | CInt _ :: rest => _is_pixel_addr rest
  | CFloat _ :: _ => false
  | CSlice start stop _ :: rest =>
      if is_float_bound start || is_float_bound stop then false
      else _is_pixel_addr rest
  | CEllipsis :: rest => _is_pixel_addr rest
  end.

(** [abs(x - bound)], in binary64 arithmetic; an [int] bound is converted to
    a float first, and [None] cannot be subtracted. *)
Definition distance (x : float) (b : bound) : result float :=
  match b with
  | BNone => Raise TypeError
  | BInt z => v <- float_of_int z ;; Ok (abs (x - v))
  | BFloat v => Ok (abs (x - v))
  end.

(** [a < b] on the pairs [(distance, i)]: the distances decide, unless they
    are equal, and then the indices do. *)
Definition pair_lt (a b : float * nat) : bool :=
  if (fst a =? fst b)%float then snd a <? snd b
  else (fst a <? fst b)%float.

(** [[(None, None)] if bound is None else
     sorted([(abs(x - bound), i) for i, x in enumerate(coords)])] *)
Definition by_distance (coords : list float) (b : bound)
  : result (list (option float * option nat)) :=
  match b with
  | BNone => Ok [(None, None)]
  | _ =>
      ds <- mapM (fun ix => d <- distance (snd ix) b ;; Ok (d, fst ix))
                 (imap (fun i x => (i, x)) coords) ;;
      Ok (map (fun di => (Some (fst di), Some (snd di))) (sorted pair_lt ds))
  end.

(** [d[0][1]], as a slice bound *)
Definition first_index (d : list (option float * option nat))
  : result bound :=
  match d with
  | [] => Raise IndexError
  | (_, None) :: _ => Ok BNone
  | (_, Some i) :: _ => Ok (BInt (Z.of_nat i))
  end.

(** Steps 1 to 3 of the read by mathematical points: the pixel slices
    [(slice_y, slice_x)] for the bounds of [yslice] and [xslice]. *)
Definition math_slices (img : Image) (d : domainfn)
    (xstart xstop ystart ystop : bound) : result (component * component) :=
  w <- width img ;;
  h <- height img ;;
  g <- d w h ;;
  xs <- of_option ValueError (head (fst g)) ;;
  ys <- mapM (fun it => of_option IndexError (head it)) (snd g) ;;
  xstart_d <- by_distance xs xstart ;;
  xstop_d <- by_distance xs xstop ;;
  ystart_d <- by_distance ys ystart ;;
  ystop_d <- by_distance ys ystop ;;
  x0 <- first_index xstart_d ;;
  x1 <- first_index xstop_d ;;
  y1 <- first_index ystop_d ;;
  y0 <- first_index ystart_d ;;
  Ok (CSlice y1 y0 BNone, CSlice x0 x1 BNone).

Definition __getitem__ (self : loc) (index : index) : M value :=
  idx <~ lift (_flip_index index) ;;
  if _is_pixel_addr idx then _get_by_pixels self idx
  else
    img <~ load self ;;
    match _domain img with
    | None => lift (Raise RuntimeError)
    | Some d =>
        match idx with
        | CSlice ystart ystop _ :: CSlice xstart xstop _ :: _ =>
            sl <~ lift (math_slices img d xstart xstop ystart ystop) ;;
            _get_by_pixels self [fst sl; snd sl]
        | _ => lift (Raise ValueError)
        end
    end.

Definition __setitem__ (self : loc) (index : index) (value : list Z)
  : M unit :=
  let value := rgba value in
  idx <~ lift (_flip_index index) ;;
  img <~ load self ;;
  px <~ lift (Np.setitem (pixels img) idx (Np.VTuple value)) ;;
  save self (mkImage px (_domain img)).

(** [lambda v: abs(v - 255)] *)
Definition neg (v : Z) : Z := Z.abs (v - 255).

Definition __neg__ (self : loc) : M loc :=
  img <~ load self ;;
  alphas <~ lift (alpha img) ;;
  w <~ lift (width img) ;;
  h <~ lift (height img) ;;
  alphas <~ lift (Np.set_shape alphas [w; h; 1]) ;;
  colors <~ lift (color img) ;;
  colors <~ lift (Np.vectorize neg colors) ;;
  px <~ lift (Np.append_axis2 colors alphas) ;;
  __init__ None None None default_background (Some px).

Definition __and__ (self : loc) (other : pyobj) : M loc :=
  match other with
  | PImage o =>
      a <~ load self ;;
      b <~ load o ;;
      if negb (bool_decide (Np.shape (pixels a) = Np.shape (pixels b)))
      then lift (Raise ValueError)
      else
        let ax := pixels a in
        let bx := pixels b in
        __init__ None None None default_background (Some (Np.add ax bx))
  | _ => lift (Raise TypeError)
  end.

Definition __call__ (self : loc) (f : Drawable)
    (overwrite_domain use_host_domain : bool) : M unit :=
  img <~ load self ;;
  if use_host_domain && bool_decide (_domain img = None)
  then lift (Raise RuntimeError)
  else
    w <~ lift (width img) ;;
    h <~ lift (height img) ;;
    g <~ lift (if use_host_domain
               then match _domain img with
                    | Some d => d w h
                    | None => Raise TypeError
                    end
               else domainfunc f w h) ;;
    let XS := fst g in
    let YS := snd g in
    mask <~ lift (maskfunc f XS YS) ;;
    col <~ lift (match colorfunc f with
                 | ColorTuple c => Ok (Np.VTuple c)
                 | ColorFunc cf =>
                     xm <- Np.grid_select XS mask ;;
                     ym <- Np.grid_select YS mask ;;
                     cf xm ym
                 end) ;;
    px <~ lift (Np.setitem_mask (pixels img) mask col) ;;
    _ <~ save self (mkImage px (_domain img)) ;;
    if overwrite_domain && negb use_host_domain
    then img' <~ load self ;;
         save self (mkImage (pixels img') (Some (domainfunc f)))
    else ret tt.

(** [color.setter]: [self.pixels[:, :, 0:3] = value] *)
Definition color_setter (self : loc) (value : Np.pyvalue) : M unit :=
  img <~ load self ;;
  px <~ lift (Np.setitem (pixels img)
                [full_slice; full_slice; CSlice (BInt 0) (BInt 3) BNone]
                value) ;;
  save self (mkImage px (_domain img)).

(** [alpha.setter]: [self.pixels[:, :, 3] = value] *)
Definition alpha_setter (self : loc) (value : Np.pyvalue) : M unit :=
  img <~ load self ;;
  px <~ lift (Np.setitem (pixels img) [full_slice; full_slice; CInt 3]
                value) ;;
  save self (mkImage px (_domain img)).

(** The property [domain] and its setter. *)
Definition domain (self : loc) : M (option domainfn) :=
  img <~ load self ;; ret (_domain img).

Definition domain_setter (self : loc) (value : option domainfn) : M unit :=
  img <~ load self ;; save self (mkImage (pixels img) value).

End Image.

(** ** [class LayeredImage] *)

Record LayeredImage : Type := mkLayered {
  _layers : list loc;
  _width : option Z;
  _height : option Z
}.

(** The key of an indexed read of the layers, and what the read returns. *)
Inductive key : Type :=
| KInt (z : Z)
| KOther.

Inductive item : Type :=
| Layer (l : loc)
| Message (m : string).

Module LayeredImage.

(** [[Image(width, height, background=(0, 0, 0, 0)) for _ in range(n)]] *)
Fixpoint new_layers (n : nat) (width height : option Z) : M (list loc) :=
  match n with
  | O => ret []
  | S n' =>
      l <~ Image.__init__ width height None [0; 0; 0; 0]%Z None ;;
      ls <~ new_layers n' width height ;;
      ret (l :: ls)
  end.

Definition __init__ (width height : option Z) (num_layers : Z)
    (imgs : option (list loc)) : M LayeredImage :=
  match imgs with
  | Some imgs =>
      first <~ lift (of_option IndexError (head imgs)) ;;
      img <~ load first ;;
      w <~ lift (Image.width img) ;;
      h <~ lift (Image.height img) ;;
      ret (mkLayered imgs (Some (Z.of_nat w)) (Some (Z.of_nat h)))
  | None =>
      ls <~ new_layers (Z.to_nat num_layers) width height ;;
      ret (mkLayered ls width height)
  end.

Definition __getitem__ (self : LayeredImage) (key : key) : M item :=
  match key with
  | KInt z =>
      i <~ lift (Np.int_index (length (_layers self)) z) ;;
      l <~ lift (of_option IndexError (_layers self !! i)) ;;
      ret (Layer l)
  | KOther => ret (Message "Other methods coming soon")
  end.

Definition width (self : LayeredImage) : option Z := _width self.

Definition height (self : LayeredImage) : option Z := _height self.

Definition nlayers (self : LayeredImage) : nat := length (_layers self).

(** [cls(imgs=imgs)], the other arguments at their defaults *)
Definition fromlist (imgs : list loc) : M LayeredImage :=
  __init__ None None 4 (Some imgs).

End LayeredImage.

(** * Vocabulary of the properties *)

(** A component that carries a float: a float itself, or a slice that starts
    or stops at one. *)
Definition float_bearing (c : component) : bool :=
  match c with
  | CFloat _ => true
  | CSlice start stop _ =>
      Image.is_float_bound start || Image.is_float_bound stop
  | _ => false
  end.

(** A component that is an integer, or a slice whose start and stop are not
    floats. *)
Definition int_or_plain_slice (c : component) : bool :=
  match c with
  | CInt _ => true
  | CSlice start stop _ =>
      negb (Image.is_float_bound start || Image.is_float_bound stop)
  | _ => false
  end.

(** The invariant [Image.__init__] establishes: three dimensions, the last
    of length 4. *)
Definition image_shape (img : Image) (h w : nat) : Prop :=
  Np.shape (pixels img) = [h; w; 4].

(** Offset of channel [c] of the pixel in row [row] and column [col] of an
    array of width [w]. *)
Definition cell (w row col c : nat) : nat := (row * w + col) * 4 + c.

Definition pixel_at (a : Np.ndarray) (w row col : nat) : list Z :=
  map (fun c => nth (cell w row col c) (Np.flat a) 0%Z) [0; 1; 2; 3].

(** The array [a[y, x]] of the four channels [vals] of a pixel of [a]: a
    view of the last axis of [a]. *)
Definition pixel_view (a : Np.ndarray) (vals : list Z) : Np.ndarray :=
  Np.mkNd (Np.dtype a) [4] (take 1 (drop 2 (Np.strides a))) vals.

(** A colour: three or four channels, each in 0..255. *)
Definition is_color (c : list Z) : Prop :=
  (length c = 3 \/ length c = 4) /\ Forall (fun v => (0 <= v < 256)%Z) c.

(** The position an in-range integer denotes on an axis. *)
Definition axis_pos (len : nat) (z : Z) : nat :=
  Z.to_nat (if (z <? 0)%Z then z + Z.of_nat len else z).

(** A [w] by [h] buffer of transparent black, with no domain. *)
Definition blank (w h : Z) : Image :=
  mkImage (Np.mkArr [Z.to_nat h; Z.to_nat w; 4]
             (concat (replicate (Z.to_nat h * Z.to_nat w) [0; 0; 0; 0]%Z)))
          None.

(** The float a bound is in [x - bound]: itself, or the float an [int] is
    converted to. *)
Definition bound_value (b : bound) : option float :=
  match b with
  | BNone => None
  | BInt z => match float_of_int z with Ok v => Some v | Raise _ => None end
  | BFloat v => Some v
  end.

(** The distance of every coordinate to the bound [b] is computed and is a
    number: no [int] bound is too large for a float, and no difference is
    NaN, as none is between finite numbers. *)
Definition comparable (coords : list float) (b : bound) : Prop :=
  b = BNone \/
  Forall (fun x => exists d, Image.distance x b = Ok d /\ is_nan d = false)
         coords.

(** [i] is the index of a coordinate nearest to the bound [b], by the
    distances as the program computes them: no coordinate has a lower
    [abs(x - b)], and none with an equal one has a lower index. *)
Definition nearest (coords : list float) (b : bound) (i : nat) : Prop :=
  exists x d, coords !! i = Some x /\ Image.distance x b = Ok d /\
    forall j y e, coords !! j = Some y -> Image.distance y b = Ok e ->
      (d <=? e)%float = true /\ ((e =? d)%float = true -> i <= j).

(** The pixel bound [r] a bound [b] is snapped to. *)
Definition snapped (coords : list float) (b r : bound) : Prop :=
  match b with
  | BNone => r = BNone
  | _ => exists i, r = BInt (Z.of_nat i) /\ nearest coords b i
  end.

(** The number a finite float is, exactly. *)
Definition exact (x : float) : option Q :=
  match Prim2SF x with
  | S754_zero _ => Some 0%Q
  | S754_finite s m e =>
      Some ((if s then -1 else 1) * inject_Z (Zpos m) * 2 ^ e)%Q
  | _ => None
  end.

(** [i] is the index of a coordinate nearest to [v] by the differences of
    the numbers themselves, before any rounding: no coordinate is nearer,
    and none as near has a lower index. *)
Definition nearest_exact (coords : list float) (v : float) (i : nat) : Prop :=
  exists x qx qv, coords !! i = Some x /\ exact x = Some qx /\
    exact v = Some qv /\
    forall j y qy, coords !! j = Some y -> exact y = Some qy ->
      (Qabs (qx - qv) <= Qabs (qy - qv))%Q /\
      ((Qabs (qy - qv) == Qabs (qx - qv))%Q -> i <= j).

Definition is_slice (c : component) : bool :=
  match c with CSlice _ _ _ => true | _ => false end.

(** The elements of the negative: the three colours of a pixel inverted, its
    alpha kept. *)
Definition negated (fl : list Z) (n : nat) : list Z :=
  flat_map (fun b => [Np.to_uint8 (Image.neg (nth (b * 4 + 0) fl 0%Z));
                      Np.to_uint8 (Image.neg (nth (b * 4 + 1) fl 0%Z));
                      Np.to_uint8 (Image.neg (nth (b * 4 + 2) fl 0%Z));
                      nth (b * 4 + 3) fl 0%Z])
           (seq 0 n).

(** Whether the alpha channel of an [h] by [w] buffer, a view whose rows
    are [s0] elements apart and whose columns [s1], can take the shape
    (w, h, 1) where it lies: it can when it has no element, one row, one
    column or as many rows as columns, and otherwise when its rows follow
    one another without a gap. *)
Definition alpha_reshapes (h w : nat) (s0 s1 : Z) : bool :=
  (h * w =? 0) || (h =? 1) || (w =? 1) || (h =? w)
  || (s0 =? Z.of_nat w * s1)%Z.

Definition no_runtime_error {A} (r : result A) : Prop :=
  r <> Raise RuntimeError.

(** What every [Image] of the store is: an array of three dimensions, the
    last of length 4, with as many elements as its shape says. *)
Definition image_ok (img : Image) : Prop :=
  exists h w, Np.shape (pixels img) = [h; w; 4] /\
              length (Np.flat (pixels img)) = h * w * 4.

Definition store_ok (s : store) : Prop :=
  forall l img, s !! l = Some img -> image_ok img.

(** The entry of a mask for a pixel, [False] outside the mask. *)
Definition mask_at (m : Np.mask) (row col : nat) : bool :=
  default false (m !! row ≫= (fun r => r !! col)).

(** The store [s'] is [s], or [s] and one new object. *)
Definition only_adds (s s' : store) : Prop :=
  s' = s \/ exists img, s' = <[fresh (dom s) := img]> s.

(** An array has as many elements as its shape says. *)
Definition array_ok (a : Np.ndarray) : Prop :=
  length (Np.flat a) = Np.size_of (Np.shape a).

(** The number of elements a selection per axis selects. *)
Definition prod_len (sels : list (list nat)) : nat :=
  foldr (fun s acc => length s * acc) 1 sels.

(** * Properties *)

(** ** Classification of an index *)

Lemma is_pixel_addr_cons c idx :
  Image._is_pixel_addr (c :: idx)
  = negb (float_bearing c) && Image._is_pixel_addr idx.
Proof.
  destruct c as [z|q|start stop step|]; simpl; try reflexivity.
  destruct (Image.is_float_bound start || Image.is_float_bound stop);
    reflexivity.
Qed.

Lemma is_pixel_addr_forallb idx :
  Image._is_pixel_addr idx = forallb (fun c => negb (float_bearing c)) idx.
Proof.
  induction idx as [|c idx IH]; [reflexivity|].
  rewrite is_pixel_addr_cons, IH. reflexivity.
Qed.

(** C2, as stated, fails: the index [(Ellipsis, 0)] has a component that is
    neither an integer nor a slice, and is a pixel address all the same. *)
Lemma is_pixel_addr_ellipsis_counterexample :
  Image._is_pixel_addr [CEllipsis; CInt 0] = true /\
  forallb int_or_plain_slice [CEllipsis; CInt 0] = false.
Proof. split; reflexivity. Qed.

(** C2, amended: an index is a pixel address if and only if no component is a
    float and no slice component starts or stops at a float, whatever else
    the components are; one float-bearing component makes the whole index a
    mathematical address. *)
Theorem is_pixel_addr_iff_no_float idx :
  (Image._is_pixel_addr idx = true <->
   Forall (fun c => float_bearing c = false) idx) /\
  (Image._is_pixel_addr idx = false <->
   Exists (fun c => float_bearing c = true) idx).
Proof.
  rewrite is_pixel_addr_forallb. split.
  - rewrite forallb_forall, Forall_forall. split; intros H c Hc.
    + apply list_elem_of_In, H in Hc. by destruct (float_bearing c).
    + apply list_elem_of_In, H in Hc. by rewrite Hc.
  - rewrite Exists_exists. induction idx as [|c idx IH]; simpl.
    + split; [discriminate|]. intros (c & Hc & _). by apply elem_of_nil in Hc.
    + destruct (float_bearing c) eqn:Hf; simpl.
      * split; [|done]. intros _. exists c. split; [left|done].
      * rewrite IH. split; intros (c' & Hc' & Hf').
        -- exists c'. split; [by right|done].
        -- apply elem_of_cons in Hc' as [->|Hc']; [congruence|]. by exists c'.
Qed.

(** On indices made of integers, floats and slices only, the classification
    is the one C2 states. *)
Lemma is_pixel_addr_without_other idx :
  Forall (fun c => c <> CEllipsis) idx ->
  Image._is_pixel_addr idx = forallb int_or_plain_slice idx.
Proof.
  induction 1 as [|c idx Hc _ IH]; [reflexivity|].
  rewrite is_pixel_addr_cons, IH. simpl.
  destruct c as [z|q|start stop step|]; simpl; try reflexivity.
  contradiction.
Qed.

(** Swapping the first two components does not change the classification. *)
Lemma is_pixel_addr_flip index idx :
  Image._flip_index (ITuple index) = Ok idx ->
  Image._is_pixel_addr idx = Image._is_pixel_addr index.
Proof.
  destruct index as [|i0 [|i1 rest]]; simpl; try discriminate.
  assert (Himg : Image._is_pixel_addr (i1 :: i0 :: rest)
                 = Image._is_pixel_addr (i0 :: i1 :: rest)).
  { rewrite !is_pixel_addr_cons.
    destruct (float_bearing i0), (float_bearing i1); reflexivity. }
  destruct rest; simpl; intros [= <-]; exact Himg.
Qed.

(** ** Objects and the store *)

Lemma fresh_loc_unused (s : store) : s !! fresh (dom s) = None.
Proof. apply not_elem_of_dom, is_fresh. Qed.

Lemma alloc_keeps (s : store) img l x :
  s !! l = Some x -> <[fresh (dom s) := img]> s !! l = Some x.
Proof.
  intros Hl. rewrite lookup_insert_ne; [done|].
  intros <-. rewrite fresh_loc_unused in Hl. discriminate.
Qed.

Lemma init_from_array (s : store) wd ht dm bg p h w :
  Np.shape p = [h; w; 4] ->
  Image.__init__ wd ht dm bg (Some p) s
  = (Ok (fresh (dom s)), <[fresh (dom s) := mkImage p dm]> s).
Proof. intros Hp. unfold Image.__init__. rewrite Hp. reflexivity. Qed.

Lemma init_bad_array (s : store) wd ht dm bg p :
  length (Np.shape p) <> 3 \/ last (Np.shape p) <> Some 4 ->
  Image.__init__ wd ht dm bg (Some p) s = (Raise ValueError, s).
Proof.
  intros Hp. unfold Image.__init__.
  destruct (length (Np.shape p) =? 3) eqn:Hlen; simpl; [|reflexivity].
  apply Nat.eqb_eq in Hlen. destruct Hp as [Hp|Hp]; [done|].
  rewrite bool_decide_eq_false_2; done.
Qed.

(** ** Binary AND *)

Lemma add_lookup a b i x y :
  Np.flat a !! i = Some x -> Np.flat b !! i = Some y ->
  Np.flat (Np.add a b) !! i
  = Some (Np.wrap (Np.promote (Np.dtype a) (Np.dtype b)) (x + y)).
Proof.
  intros Hx Hy. unfold Np.add. simpl.
  rewrite lookup_zip_with, Hx. simpl. rewrite Hy. reflexivity.
Qed.


Lemma and_same_shape (s : store) self o a b h w :
  s !! self = Some a -> s !! o = Some b ->
  image_shape a h w -> Np.shape (pixels b) = Np.shape (pixels a) ->
  Image.__and__ self (PImage o) s
  = (Ok (fresh (dom s)),
     <[fresh (dom s) := mkImage (Np.add (pixels a) (pixels b)) None]> s).
Proof.
  intros Ha Hb Hsh Heq. unfold Image.__and__, mbind, load.
  rewrite Ha, Hb. simpl. rewrite bool_decide_eq_true_2 by done. simpl.
  apply (init_from_array s None None None Image.default_background
           (Np.add (pixels a) (pixels b)) h w).
  exact Hsh.
Qed.

Lemma and_other_shape (s : store) self o a b :
  s !! self = Some a -> s !! o = Some b ->
  Np.shape (pixels a) <> Np.shape (pixels b) ->
  Image.__and__ self (PImage o) s = (Raise ValueError, s).
Proof.
  intros Ha Hb Hne. unfold Image.__and__, mbind, load.
  rewrite Ha, Hb. simpl. rewrite bool_decide_eq_false_2 by done. reflexivity.
Qed.

(** C5: [self & other] raises [TypeError] exactly when [other] is not an
    [Image], raises [ValueError] exactly when it is one whose pixel array has
    another shape, and otherwise returns a new object holding the elementwise
    sum of the two arrays; no object of the store is modified in any case. *)
Theorem and_outcome (s : store) self other a h w :
  s !! self = Some a -> image_shape a h w ->
  (forall o, other = PImage o -> is_Some (s !! o)) ->
  let r := Image.__and__ self other s in
  (fst r = Raise TypeError <-> forall o, other <> PImage o) /\
  (fst r = Raise ValueError <->
   exists o b, other = PImage o /\ s !! o = Some b /\
               Np.shape (pixels a) <> Np.shape (pixels b)) /\
  (forall o b, other = PImage o -> s !! o = Some b ->
     Np.shape (pixels a) = Np.shape (pixels b) ->
     exists l, s !! l = None /\
       r = (Ok l, <[l := mkImage (Np.add (pixels a) (pixels b)) None]> s) /\
       forall i x y, Np.flat (pixels a) !! i = Some x ->
                     Np.flat (pixels b) !! i = Some y ->
         Np.flat (Np.add (pixels a) (pixels b)) !! i
         = Some (Np.wrap (Np.promote (Np.dtype (pixels a))
                                     (Np.dtype (pixels b))) (x + y))) /\
  (forall l img, s !! l = Some img -> snd r !! l = Some img).
Proof.
  intros Ha Hsh Hother r. subst r.
  destruct other as [o|arr|z].
  - destruct (Hother o eq_refl) as [b Hb].
    destruct (decide (Np.shape (pixels a) = Np.shape (pixels b))) as [Heq|Hne].
    + rewrite (and_same_shape s self o a b h w) by done. simpl.
      split; [split; [discriminate|intros H; by destruct (H o)]|].
      split; [split; [discriminate|]|].
      { intros (o' & b' & [= <-] & Hb' & Hne). congruence. }
      split; [|intros l img; apply alloc_keeps].
      intros o' b' [= <-] Hb' _. assert (b' = b) as -> by congruence.
      exists (fresh (dom s)). split; [apply fresh_loc_unused|].
      split; [reflexivity|]. intros i x y. apply add_lookup.
    + rewrite (and_other_shape s self o a b) by done. simpl.
      split; [split; [discriminate|intros H; by destruct (H o)]|].
      split; [split; [intros _; by exists o, b|done]|].
      split; [|done].
      intros o' b' [= <-] Hb'. assert (b' = b) as -> by congruence. done.
  - simpl. split; [done|]. split; [|split; [discriminate|done]].
    split; [discriminate|]. intros (o & b & Ho & _). discriminate.
  - simpl. split; [done|]. split; [|split; [discriminate|done]].
    split; [discriminate|]. intros (o & b & Ho & _). discriminate.
Qed.

Lemma and_outcome_witness :
  let white := mkImage (Np.mkArr [1; 1; 4] [255; 255; 255; 255]%Z) None in
  let s : store := {[ 1%positive := white ]} in
  exists l,
    s !! l = None /\
    Image.__and__ 1%positive (PImage 1%positive) s
    = (Ok l, <[l := mkImage (Np.add (pixels white) (pixels white)) None]> s).
Proof.
  intros white s.
  destruct (and_outcome s 1%positive (PImage 1%positive) white 1 1)
    as (_ & _ & Hsum & _).
  - apply lookup_singleton_eq.
  - reflexivity.
  - intros o [= <-]. exists white. apply lookup_singleton_eq.
  - destruct (Hsum 1%positive white) as (l & Hl & Hr & _).
    + reflexivity.
    + apply lookup_singleton_eq.
    + reflexivity.
    + exists l. split; [exact Hl|exact Hr].
Defined.




(** ** Reading and writing one pixel *)

Lemma int_index_in_range len z :
  (- Z.of_nat len <= z < Z.of_nat len)%Z ->
  Np.int_index len z = Ok (axis_pos len z) /\ axis_pos len z < len.
Proof.
  intros Hz. unfold Np.int_index, axis_pos.
  replace (- Z.of_nat len <=? z)%Z with true by (symmetry; apply Z.leb_le; lia).
  replace (z <? Z.of_nat len)%Z with true by (symmetry; apply Z.ltb_lt; lia).
  split; [reflexivity|]. destruct (Z.ltb_spec z 0); lia.
Qed.

Lemma axis_pos_nonneg len z : (0 <= z)%Z -> axis_pos len z = Z.to_nat z.
Proof. intros Hz. unfold axis_pos. destruct (Z.ltb_spec z 0); [lia|done]. Qed.

Lemma resolve_pixel a h w y x :
  Np.shape a = [h; w; 4] ->
  (- Z.of_nat h <= y < Z.of_nat h)%Z -> (- Z.of_nat w <= x < Z.of_nat w)%Z ->
  Np.resolve a [CInt y; CInt x]
  = Ok ([4], map (cell w (axis_pos h y) (axis_pos w x)) [0; 1; 2; 3]).
Proof.
  intros Hsh Hy Hx. unfold Np.resolve. rewrite Hsh.
  destruct (int_index_in_range h y Hy) as [Ey _].
  destruct (int_index_in_range w x Hx) as [Ex _].
  assert (Np.complete (length [h; w; 4]) [CInt y; CInt x]
          = Ok [CInt y; CInt x; full_slice]) as -> by reflexivity.
  assert (Hall : Np.slice_indices 4 BNone BNone BNone = Ok [0; 1; 2; 3])
    by reflexivity.
  unfold full_slice.
  cbn [bind Np.select_all Np.select]. rewrite Ey, Ex, Hall. cbn.
  unfold cell. rewrite !Nat.add_0_r. reflexivity.
Qed.

Lemma view_strides_pixel a h w y x :
  Np.shape a = [h; w; 4] ->
  (- Z.of_nat h <= y < Z.of_nat h)%Z -> (- Z.of_nat w <= x < Z.of_nat w)%Z ->
  Np.view_strides a [CInt y; CInt x] = take 1 (drop 2 (Np.strides a)).
Proof.
  intros Hsh Hy Hx. unfold Np.view_strides. rewrite Hsh.
  destruct (int_index_in_range h y Hy) as [Ey _].
  destruct (int_index_in_range w x Hx) as [Ex _].
  assert (Np.complete (length [h; w; 4]) [CInt y; CInt x]
          = Ok [CInt y; CInt x; full_slice]) as -> by reflexivity.
  assert (Hall : Np.slice_indices 4 BNone BNone BNone = Ok [0; 1; 2; 3])
    by reflexivity.
  unfold full_slice.
  cbn [bind Np.select_all Np.select]. rewrite Ey, Ex, Hall.
  cbn [bind]. destruct (Np.strides a) as [|s0 [|s1 [|s2 st]]]; try reflexivity.
  cbn [Np.kept_strides snd fst Np.axis_step app take drop].
  by rewrite Z.mul_1_r.
Qed.

Lemma getitem_pixel a h w y x :
  Np.shape a = [h; w; 4] ->
  (- Z.of_nat h <= y < Z.of_nat h)%Z -> (- Z.of_nat w <= x < Z.of_nat w)%Z ->
  Np.getitem a [CInt y; CInt x]
  = Ok (pixel_view a (pixel_at a w (axis_pos h y) (axis_pos w x))).
Proof.
  intros Hsh Hy Hx. unfold Np.getitem.
  rewrite (resolve_pixel a h w y x) by done.
  rewrite (view_strides_pixel a h w y x) by done. reflexivity.
Qed.

(** Reading [img[x, y]]: the index is flipped to row [y], column [x]. *)
Lemma image_getitem_pixel (s : store) self img h w x y :
  s !! self = Some img -> image_shape img h w ->
  (- Z.of_nat w <= x < Z.of_nat w)%Z -> (- Z.of_nat h <= y < Z.of_nat h)%Z ->
  Image.__getitem__ self (ITuple [CInt x; CInt y]) s
  = (Ok (VArray (pixel_view (pixels img)
                   (pixel_at (pixels img) w (axis_pos h y) (axis_pos w x)))),
     s).
Proof.
  intros Hs Hsh Hx Hy.
  unfold Image.__getitem__, Image._get_by_pixels, mbind, lift, load. simpl.
  rewrite Hs. simpl. rewrite (getitem_pixel _ h w y x) by done. reflexivity.
Qed.

Lemma lookup_concat_replicate (row : list Z) n b c :
  b < n -> c < length row ->
  concat (replicate n row) !! (b * length row + c) = row !! c.
Proof.
  revert n. induction b as [|b IH]; intros [|n] Hb Hc; try lia; simpl.
  - by rewrite lookup_app_l.
  - rewrite lookup_app_r by lia.
    replace (length row + b * length row + c - length row)
      with (b * length row + c) by lia.
    apply IH; lia.
Qed.

Lemma to_uint8_id v : (0 <= v < 256)%Z -> Np.to_uint8 v = v.
Proof. intros Hv. unfold Np.to_uint8. by apply Z.mod_small. Qed.

Lemma map_to_uint8_id l :
  Forall (fun v => (0 <= v < 256)%Z) l -> map Np.to_uint8 l = l.
Proof.
  induction 1 as [|v l Hv _ IH]; simpl; [done|].
  by rewrite to_uint8_id, IH.
Qed.

Lemma rgba_color c :
  is_color c ->
  length (Image.rgba c) = 4 /\
  Forall (fun v => (0 <= v < 256)%Z) (Image.rgba c) /\
  (length c = 3 -> Image.rgba c = c ++ [255%Z]) /\
  (length c = 4 -> Image.rgba c = c).
Proof.
  intros [[Hl|Hl] Hc]; unfold Image.rgba; rewrite Hl; simpl.
  - split; [rewrite length_app; simpl; lia|].
    split; [|done]. apply Forall_app. split; [done|].
    apply Forall_singleton. lia.
  - repeat split; try done; lia.
Qed.

(** ** Construction *)

Lemma full_filled h w fill :
  (0 <= h)%Z -> (0 <= w)%Z -> length fill = 4 ->
  Np.full [h; w; 4%Z] fill
  = Ok (Np.mkArr [Z.to_nat h; Z.to_nat w; 4]
          (map Np.to_uint8
               (concat (replicate (Z.to_nat h * Z.to_nat w) fill)))).
Proof.
  intros Hh Hw Hl. unfold Np.full. simpl.
  replace (0 <=? h)%Z with true by (symmetry; apply Z.leb_le; lia).
  replace (0 <=? w)%Z with true by (symmetry; apply Z.leb_le; lia).
  simpl. unfold Np.stretch. rewrite Hl. simpl.
  rewrite Nat.mul_1_r. reflexivity.
Qed.

Lemma pixel_at_filled a h w fill row col :
  Np.flat a = concat (replicate (h * w) fill) ->
  length fill = 4 -> row < h -> col < w ->
  pixel_at a w row col = fill.
Proof.
  intros Hfl Hl Hr Hc. unfold pixel_at, cell. rewrite Hfl.
  assert (Hb : row * w + col < h * w) by nia.
  assert (Hget : forall c, c < 4 ->
            nth ((row * w + col) * 4 + c)
                (concat (replicate (h * w) fill)) 0%Z
            = nth c fill 0%Z).
  { intros c Hc4. rewrite !nth_lookup. rewrite <- Hl.
    rewrite lookup_concat_replicate by lia. reflexivity. }
  destruct fill as [|v0 [|v1 [|v2 [|v3 [|]]]]]; try discriminate.
  simpl map at 1. rewrite !Hget by lia. reflexivity.
Qed.

(** A pixel of a new [uint8] array is itself a [uint8] array in C order. *)
Lemma pixel_view_new sh fl vals :
  length sh = 3 -> pixel_view (Np.mkArr sh fl) vals = Np.mkArr [4] vals.
Proof. destruct sh as [|h [|w [|c [|]]]]; try discriminate. reflexivity. Qed.

Lemma init_filled (s : store) w h dm color :
  (0 <= w)%Z -> (0 <= h)%Z -> is_color color ->
  Image.__init__ (Some w) (Some h) dm color None s
  = (Ok (fresh (dom s)),
     <[fresh (dom s) :=
         mkImage (Np.mkArr [Z.to_nat h; Z.to_nat w; 4]
                    (concat (replicate (Z.to_nat h * Z.to_nat w)
                                       (Image.rgba color)))) dm]> s).
Proof.
  intros Hw Hh Hc. destruct (rgba_color color Hc) as (Hl & Hr & _).
  unfold Image.__init__, mbind, lift, alloc.
  rewrite full_filled by done. do 4 f_equal.
  apply map_to_uint8_id, Forall_concat, Forall_replicate. exact Hr.
Qed.

Lemma shape_of_image (sh : list nat) :
  length sh = 3 -> last sh = Some 4 -> exists h w, sh = [h; w; 4].
Proof.
  destruct sh as [|h [|w [|c [|]]]]; try discriminate.
  intros _ [= ->]. by exists h, w.
Qed.

(** C8: for a width and a height that are not negative and a colour,
    [Image(w, h, background=colour)] is a new object of width [w] and height
    [h] each of whose pixels reads as the colour, an RGB colour being
    followed by 255; without a pixel array, a missing width or height raises
    [ValueError]; a pixel array is taken if it has three dimensions, the
    last of length 4, and raises [ValueError] if not. *)
Theorem init_outcome (s : store) w h color dm wd ht p :
  (0 <= w)%Z -> (0 <= h)%Z -> is_color color ->
  (exists l img,
     Image.__init__ (Some w) (Some h) dm color None s
     = (Ok l, <[l := img]> s) /\
     s !! l = None /\
     Image.width img = Ok (Z.to_nat w) /\
     Image.height img = Ok (Z.to_nat h) /\
     Np.shape (pixels img) = [Z.to_nat h; Z.to_nat w; 4] /\
     Np.flat (pixels img)
     = concat (replicate (Z.to_nat h * Z.to_nat w) (Image.rgba color)) /\
     (forall x y, (0 <= x < w)%Z -> (0 <= y < h)%Z ->
        Image.__getitem__ l (ITuple [CInt x; CInt y]) (<[l := img]> s)
        = (Ok (VArray (Np.mkArr [4] (Image.rgba color))), <[l := img]> s))) /\
  (length color = 3 -> Image.rgba color = color ++ [255%Z]) /\
  (length color = 4 -> Image.rgba color = color) /\
  Image.__init__ None ht dm color None s = (Raise ValueError, s) /\
  Image.__init__ wd None dm color None s = (Raise ValueError, s) /\
  (length (Np.shape p) <> 3 \/ last (Np.shape p) <> Some 4 ->
   Image.__init__ wd ht dm color (Some p) s = (Raise ValueError, s)) /\
  (length (Np.shape p) = 3 -> last (Np.shape p) = Some 4 ->
   Image.__init__ wd ht dm color (Some p) s
   = (Ok (fresh (dom s)), <[fresh (dom s) := mkImage p dm]> s)).
Proof.
  intros Hw Hh Hc. destruct (rgba_color color Hc) as (Hl & Hr & H3 & H4).
  split; [|split; [done|split; [done|]]].
  - exists (fresh (dom s)).
    exists (mkImage (Np.mkArr [Z.to_nat h; Z.to_nat w; 4]
                       (concat (replicate (Z.to_nat h * Z.to_nat w)
                                          (Image.rgba color)))) dm).
    split; [by apply init_filled|].
    split; [apply fresh_loc_unused|]. do 4 (split; [reflexivity|]).
    intros x y Hx Hy.
    erewrite (image_getitem_pixel _ _ _ (Z.to_nat h) (Z.to_nat w) x y);
      [|apply lookup_insert_eq|reflexivity|lia|lia].
    rewrite !axis_pos_nonneg by lia. simpl pixels.
    rewrite (pixel_at_filled _ (Z.to_nat h) (Z.to_nat w) (Image.rgba color))
      by (done || lia).
    by rewrite pixel_view_new.
  - split; [reflexivity|]. split; [by destruct wd|].
    split; [apply init_bad_array|].
    intros H1 H2. destruct (shape_of_image _ H1 H2) as (hh & ww & Hsh).
    by apply init_from_array with (h := hh) (w := ww).
Qed.

Lemma init_outcome_witness :
  exists l img,
    Image.__init__ (Some 3%Z) (Some 2%Z) None [10; 20; 30]%Z None ∅
    = (Ok l, <[l := img]> ∅) /\
    Image.width img = Ok 3 /\ Image.height img = Ok 2 /\
    Image.__getitem__ l (ITuple [CInt 2; CInt 1]) (<[l := img]> ∅)
    = (Ok (VArray (Np.mkArr [4] [10; 20; 30; 255]%Z)), <[l := img]> ∅).
Proof.
  destruct (init_outcome ∅ 3 2 [10; 20; 30]%Z None None None
              (Np.mkArr [] [])) as [(l & img & Hi & _ & Hw & Hh & _ & _ & Hp) _].
  - lia.
  - lia.
  - split; [left; reflexivity|]. repeat constructor; lia.
  - exists l, img. split; [exact Hi|]. split; [exact Hw|]. split; [exact Hh|].
    apply Hp; lia.
Defined.

(** ** Assignment *)

Lemma scatter_cons fl p ps v vals :
  Np.scatter fl (p :: ps) (v :: vals)
  = Np.scatter (<[p := v]> fl) ps vals.
Proof. reflexivity. Qed.

Lemma scatter_length fl ps vals : length (Np.scatter fl ps vals) = length fl.
Proof.
  revert fl vals. induction ps as [|p ps IH]; intros fl [|v vals]; try done.
  rewrite scatter_cons, IH. apply length_insert.
Qed.

Lemma scatter_lookup_other fl ps vals (p : nat) :
  p ∉ ps -> Np.scatter fl ps vals !! p = fl !! p.
Proof.
  revert fl vals. induction ps as [|q ps IH]; intros fl [|v vals] Hp; try done.
  apply not_elem_of_cons in Hp as [Hq Hp].
  rewrite scatter_cons, IH by done. by apply list_lookup_insert_ne.
Qed.

Lemma scatter_lookup fl ps vals i (p : nat) v :
  NoDup ps -> ps !! i = Some p -> vals !! i = Some v -> p < length fl ->
  Np.scatter fl ps vals !! p = Some v.
Proof.
  revert fl vals i.
  induction ps as [|q ps IH]; intros fl [|u vals] i Hnd Hp Hv Hlt; try done.
  apply NoDup_cons in Hnd as [Hq Hnd]. rewrite scatter_cons.
  destruct i as [|i]; simpl in Hp, Hv.
  - injection Hp as ->. injection Hv as ->.
    rewrite scatter_lookup_other by done. by apply list_lookup_insert_eq.
  - apply (IH _ _ i); try done. by rewrite length_insert.
Qed.

Lemma cell_bound h w row col c :
  row < h -> col < w -> c < 4 -> cell w row col c < h * w * 4.
Proof. intros Hr Hc H4. unfold cell. nia. Qed.

Lemma cells_NoDup w row col : NoDup (map (cell w row col) [0; 1; 2; 3]).
Proof.
  change [0; 1; 2; 3] with (seq 0 4).
  assert (Hinj : Inj (=) (=) (cell w row col))
    by (intros c1 c2; unfold cell; lia).
  apply (NoDup_fmap_2 (cell w row col)), NoDup_seq.
Qed.

(** Integers in 0..255 are stored as they are, whatever the dtype. *)
Lemma of_int_small dt v : (0 <= v < 256)%Z -> Np.of_int dt v = Ok v.
Proof.
  intros Hv. unfold Np.of_int, Np.fits_long.
  replace (- 2 ^ 63 <=? v)%Z with true by (symmetry; apply Z.leb_le; lia).
  replace (v <? 2 ^ 63)%Z with true by (symmetry; apply Z.ltb_lt; lia).
  simpl. f_equal. destruct dt; unfold Np.wrap, Np.to_uint8.
  - by apply Z.mod_small.
  - rewrite Z.mod_small; lia.
Qed.

Lemma mapM_of_int_small dt l :
  Forall (fun v => (0 <= v < 256)%Z) l -> mapM (Np.of_int dt) l = Ok l.
Proof.
  induction 1 as [|v l Hv _ IH]; simpl; [done|].
  by rewrite of_int_small, IH.
Qed.

Lemma of_ints_small dt l :
  Forall (fun v => (0 <= v < 256)%Z) l ->
  Np.of_ints dt (Np.VTuple l) = Ok (Np.VTuple l).
Proof. intros Hl. unfold Np.of_ints. by rewrite mapM_of_int_small. Qed.

Lemma setitem_pixel a h w y x v :
  Np.shape a = [h; w; 4] -> length v = 4 ->
  Forall (fun v => (0 <= v < 256)%Z) v ->
  (- Z.of_nat h <= y < Z.of_nat h)%Z -> (- Z.of_nat w <= x < Z.of_nat w)%Z ->
  Np.setitem a [CInt y; CInt x] (Np.VTuple v)
  = Ok (Np.mkNd (Np.dtype a) [h; w; 4] (Np.strides a)
          (Np.scatter (Np.flat a)
             (map (cell w (axis_pos h y) (axis_pos w x)) [0; 1; 2; 3]) v)).
Proof.
  intros Hsh Hv Hr Hy Hx. unfold Np.setitem.
  rewrite (resolve_pixel a h w y x) by done.
  rewrite of_ints_small by done.
  cbn [bind fst snd Np.broadcast last]. unfold Np.stretch. rewrite Hv. simpl.
  by rewrite app_nil_r, Hsh.
Qed.

Lemma pixel_at_scatter a fl h w row col v :
  Np.flat a = Np.scatter fl (map (cell w row col) [0; 1; 2; 3]) v ->
  length fl = h * w * 4 -> row < h -> col < w -> length v = 4 ->
  pixel_at a w row col = v.
Proof.
  intros Ha Hfl Hr Hc Hv.
  destruct v as [|v0 [|v1 [|v2 [|v3 [|]]]]]; try discriminate.
  unfold pixel_at. rewrite Ha.
  pose proof (cells_NoDup w row col) as Hnd.
  assert (Hps : forall c, c < 4 ->
            map (cell w row col) [0; 1; 2; 3] !! c = Some (cell w row col c)).
  { intros c Hc4. rewrite list_lookup_fmap.
    by destruct c as [|[|[|[|]]]]; try lia. }
  set (ps := map (cell w row col) [0; 1; 2; 3]) in *.
  assert (Hget : forall c u, c < 4 -> [v0; v1; v2; v3] !! c = Some u ->
            nth (cell w row col c)
                (Np.scatter fl ps [v0; v1; v2; v3]) 0%Z
            = u).
  { intros c u Hc4 Hu. rewrite nth_lookup.
    rewrite (scatter_lookup _ _ _ c _ u); [done|done|by apply Hps|done|].
    rewrite Hfl. by apply cell_bound. }
  subst ps. simpl map in *.
  rewrite (Hget 0 v0), (Hget 1 v1), (Hget 2 v2), (Hget 3 v3) by (lia || done).
  reflexivity.
Qed.

(** C4: writing a colour at an in-bounds pixel address [(x, y)] and reading
    the same address returns that colour, an RGB colour being followed by
    255; both the write and the read go to row [y], column [x] of the
    array, and the write changes no other element. *)
Theorem setitem_then_getitem (s : store) self img h w x y v :
  s !! self = Some img -> image_shape img h w ->
  length (Np.flat (pixels img)) = h * w * 4 ->
  (- Z.of_nat w <= x < Z.of_nat w)%Z -> (- Z.of_nat h <= y < Z.of_nat h)%Z ->
  is_color v ->
  exists px,
    let s' := <[self := mkImage px (_domain img)]> s in
    Image.__setitem__ self (ITuple [CInt x; CInt y]) v s = (Ok tt, s') /\
    Image.__getitem__ self (ITuple [CInt x; CInt y]) s'
    = (Ok (VArray (pixel_view (pixels img) (Image.rgba v))), s') /\
    Np.shape px = [h; w; 4] /\
    Np.getitem px [CInt y; CInt x]
    = Ok (pixel_view (pixels img) (Image.rgba v)) /\
    pixel_at px w (axis_pos h y) (axis_pos w x) = Image.rgba v /\
    (forall p, (forall c, c < 4 -> p <> cell w (axis_pos h y) (axis_pos w x) c) ->
       Np.flat px !! p = Np.flat (pixels img) !! p) /\
    (length v = 3 -> Image.rgba v = v ++ [255%Z]) /\
    (length v = 4 -> Image.rgba v = v).
Proof.
  intros Hs Hsh Hfl Hx Hy Hv.
  destruct (rgba_color v Hv) as (Hl & Hr & H3 & H4).
  destruct (int_index_in_range h y Hy) as [_ Hrow].
  destruct (int_index_in_range w x Hx) as [_ Hcol].
  set (row := axis_pos h y) in *. set (col := axis_pos w x) in *.
  set (px := Np.mkNd (Np.dtype (pixels img)) [h; w; 4]
               (Np.strides (pixels img))
               (Np.scatter (Np.flat (pixels img))
                  (map (cell w row col) [0; 1; 2; 3]) (Image.rgba v))).
  assert (Hpx : pixel_at px w row col = Image.rgba v).
  { by apply (pixel_at_scatter px (Np.flat (pixels img)) h). }
  exists px. cbv zeta.
  split; [|split; [|split; [done|split; [|split; [done|split; [|done]]]]]].
  - unfold Image.__setitem__, mbind, lift, load, save. simpl.
    rewrite Hs. simpl.
    by rewrite (setitem_pixel _ h w y x) by done.
  - rewrite (image_getitem_pixel _ self (mkImage px (_domain img)) h w x y);
      [|apply lookup_insert_eq|done..].
    simpl pixels. fold row col. by rewrite Hpx.
  - rewrite (getitem_pixel px h w y x) by done. fold row col. by rewrite Hpx.
  - intros p Hp. unfold px. simpl Np.flat. apply scatter_lookup_other.
    simpl. rewrite !elem_of_cons, elem_of_nil.
    intros [Hin|[Hin|[Hin|[Hin|[]]]]]; revert Hin; apply Hp; lia.
Qed.

Lemma setitem_then_getitem_witness :
  exists px,
    let s := {[ 1%positive := mkImage (Np.mkArr [2; 2; 4] (replicate 16 0%Z)) None ]} in
    let s' := <[1%positive := mkImage px None]> s in
    Image.__setitem__ 1%positive (ITuple [CInt 1; CInt 0]) [10; 20; 30]%Z s
    = (Ok tt, s') /\
    Image.__getitem__ 1%positive (ITuple [CInt 1; CInt 0]) s'
    = (Ok (VArray (Np.mkArr [4] [10; 20; 30; 255]%Z)), s').
Proof.
  destruct (setitem_then_getitem
              {[ 1%positive := mkImage (Np.mkArr [2; 2; 4] (replicate 16 0%Z)) None ]}
              1%positive (mkImage (Np.mkArr [2; 2; 4] (replicate 16 0%Z)) None)
              2 2 1%Z 0%Z [10; 20; 30]%Z) as (px & Hset & Hget & _).
  - apply lookup_singleton_eq.
  - reflexivity.
  - reflexivity.
  - lia.
  - lia.
  - split; [left; reflexivity|]. repeat constructor; lia.
  - exists px. split; [exact Hset|exact Hget].
Defined.

(** ** Layers *)

Lemma transparent_black_color : is_color [0; 0; 0; 0]%Z.
Proof. split; [by right|]. repeat constructor; lia. Qed.

Lemma blank_flat w h :
  Forall (fun v => v = 0%Z) (Np.flat (pixels (blank w h))).
Proof. apply Forall_concat, Forall_replicate. by repeat constructor. Qed.

Lemma blank_pixel (s : store) l w h x y :
  s !! l = Some (blank w h) -> (0 <= x < w)%Z -> (0 <= y < h)%Z ->
  Image.__getitem__ l (ITuple [CInt x; CInt y]) s
  = (Ok (VArray (Np.mkArr [4] [0; 0; 0; 0]%Z)), s).
Proof.
  intros Hl Hx Hy.
  rewrite (image_getitem_pixel s l (blank w h) (Z.to_nat h) (Z.to_nat w) x y);
    [|done|reflexivity|lia|lia].
  rewrite !axis_pos_nonneg by lia. unfold blank. simpl pixels.
  rewrite (pixel_at_filled _ (Z.to_nat h) (Z.to_nat w) [0; 0; 0; 0]%Z)
    by (done || lia).
  by rewrite pixel_view_new.
Qed.

Lemma new_layers_fresh n w h : forall s : store,
  (0 <= w)%Z -> (0 <= h)%Z ->
  exists ls (s' : store),
    LayeredImage.new_layers n (Some w) (Some h) s = (Ok ls, s') /\
    length ls = n /\ NoDup ls /\
    (forall l, l ∈ ls -> s !! l = None /\ s' !! l = Some (blank w h)) /\
    (forall l x, s !! l = Some x -> s' !! l = Some x).
Proof.
  induction n as [|n IH]; intros s Hw Hh.
  - exists [], s. simpl. unfold ret. split; [done|]. split; [done|].
    split; [apply NoDup_nil_2|]. split; [|done].
    intros l Hl. by apply elem_of_nil in Hl.
  - set (l0 := fresh (dom s)). set (s1 := <[l0 := blank w h]> s).
    destruct (IH s1 Hw Hh) as (ls & s' & Hrun & Hlen & Hnd & Hnew & Hext).
    assert (Hl0 : s !! l0 = None) by apply fresh_loc_unused.
    assert (Hs1 : s1 !! l0 = Some (blank w h)) by apply lookup_insert_eq.
    exists (l0 :: ls), s'. split; [|split; [|split; [|split]]].
    + cbn [LayeredImage.new_layers]. unfold mbind at 1.
      rewrite (init_filled s w h None _ Hw Hh transparent_black_color).
      fold l0. change (Image.rgba [0; 0; 0; 0]%Z) with [0; 0; 0; 0]%Z.
      fold (blank w h). fold s1. unfold mbind. rewrite Hrun. reflexivity.
    + simpl. by rewrite Hlen.
    + apply NoDup_cons. split; [|done].
      intros Hin. destruct (Hnew l0 Hin) as [Hnone _]. congruence.
    + intros l Hl. apply elem_of_cons in Hl as [->|Hl].
      * split; [done|]. by apply Hext.
      * destruct (Hnew l Hl) as [Hnone Hsome]. split; [|done].
        destruct (decide (l = l0)) as [->|Hne]; [done|].
        unfold s1 in Hnone. by rewrite lookup_insert_ne in Hnone.
    + intros l x Hl. apply Hext. unfold s1.
      rewrite lookup_insert_ne; [done|]. intros <-. congruence.
Qed.

(** C9: [LayeredImage(w, h, n)] has [n] layers, width [w] and height [h];
    its layers are [n] distinct new [w] by [h] buffers every element of which
    is 0, that is transparent black; indexing by an integer [i] returns the
    very object that is the [i]-th layer and creates none. *)
Theorem layered_init_outcome (s : store) w h n :
  (0 <= w)%Z -> (0 <= h)%Z -> (0 <= n)%Z ->
  exists li (s' : store),
    LayeredImage.__init__ (Some w) (Some h) n None s = (Ok li, s') /\
    Z.of_nat (LayeredImage.nlayers li) = n /\
    LayeredImage.width li = Some w /\
    LayeredImage.height li = Some h /\
    NoDup (_layers li) /\
    (forall l, l ∈ _layers li ->
       s !! l = None /\
       exists img, s' !! l = Some img /\
         Image.width img = Ok (Z.to_nat w) /\
         Image.height img = Ok (Z.to_nat h) /\
         Np.shape (pixels img) = [Z.to_nat h; Z.to_nat w; 4] /\
         length (Np.flat (pixels img)) = Z.to_nat h * Z.to_nat w * 4 /\
         Forall (fun v => v = 0%Z) (Np.flat (pixels img)) /\
         (forall x y, (0 <= x < w)%Z -> (0 <= y < h)%Z ->
            Image.__getitem__ l (ITuple [CInt x; CInt y]) s'
            = (Ok (VArray (Np.mkArr [4] [0; 0; 0; 0]%Z)), s'))) /\
    (forall i, (0 <= i < n)%Z ->
       exists l, _layers li !! Z.to_nat i = Some l /\
         LayeredImage.__getitem__ li (KInt i) s' = (Ok (Layer l), s')) /\
    (forall l x, s !! l = Some x -> s' !! l = Some x).
Proof.
  intros Hw Hh Hn.
  destruct (new_layers_fresh (Z.to_nat n) w h s Hw Hh)
    as (ls & s' & Hrun & Hlen & Hnd & Hnew & Hext).
  exists (mkLayered ls (Some w) (Some h)), s'.
  split; [|split; [|split; [done|split; [done|split; [done|split; [|split]]]]]].
  - unfold LayeredImage.__init__, mbind. rewrite Hrun. reflexivity.
  - unfold LayeredImage.nlayers. simpl. lia.
  - intros l Hl. destruct (Hnew l Hl) as [Hnone Hsome]. split; [done|].
    exists (blank w h). split; [done|]. do 3 (split; [reflexivity|]).
    split; [|split; [apply blank_flat|]].
    + unfold blank. simpl. rewrite length_concat.
      rewrite (sum_list_fmap_same 4) by (apply Forall_replicate; reflexivity).
      rewrite length_replicate. lia.
    + intros x y. by apply blank_pixel.
  - intros i Hi. simpl.
    destruct (lookup_lt_is_Some_2 ls (Z.to_nat i)) as [l Hl]; [lia|].
    exists l. split; [done|].
    unfold LayeredImage.__getitem__, mbind, lift, ret. simpl.
    destruct (int_index_in_range (length ls) i) as [-> _]; [lia|].
    rewrite axis_pos_nonneg by lia. simpl. rewrite Hl. reflexivity.
  - done.
Qed.

Lemma layered_init_outcome_witness :
  exists li (s' : store),
    LayeredImage.__init__ (Some 8%Z) (Some 8%Z) 3 None ∅ = (Ok li, s') /\
    LayeredImage.nlayers li = 3 /\
    LayeredImage.width li = Some 8%Z /\
    LayeredImage.height li = Some 8%Z.
Proof.
  destruct (layered_init_outcome ∅ 8 8 3)
    as (li & s' & Hrun & Hn & Hw & Hh & _); [lia..|].
  exists li, s'. split; [exact Hrun|]. split; [lia|]. split; [exact Hw|exact Hh].
Defined.

(** ** Drawing *)

Lemma load_saved (s : store) l img :
  load l (<[l := img]> s) = (Ok img, <[l := img]> s).
Proof. unfold load. by rewrite lookup_insert_eq. Qed.

(** A call either raises and leaves the store as it was, or returns after
    storing new pixels and, last, the domain. *)
Lemma call_cases (s : store) self img f overwrite_domain use_host_domain r :
  s !! self = Some img ->
  Image.__call__ self f overwrite_domain use_host_domain s = r ->
  (exists e, r = (Raise e, s) /\
     (use_host_domain = true -> _domain img = None -> e = RuntimeError)) \/
  (exists px,
     r = (Ok tt, <[self := mkImage px
                     (if overwrite_domain && negb use_host_domain
                      then Some (domainfunc f) else _domain img)]> s)).
Proof.
  intros Hs. unfold Image.__call__.
  unfold mbind at 1. unfold load at 1. rewrite Hs. cbn [of_option].
  destruct (use_host_domain && bool_decide (_domain img = None)) eqn:Hguard.
  { intros <-. left. by exists RuntimeError. }
  assert (Hno : use_host_domain = true -> _domain img = None -> False).
  { intros -> Hnone. rewrite bool_decide_eq_true_2 in Hguard by done.
    discriminate. }
  unfold mbind, lift.
  destruct (Image.width img) as [w|e];
    [|intros <-; left; exists e; split; [done|tauto]].
  destruct (Image.height img) as [h|e];
    [|intros <-; left; exists e; split; [done|tauto]].
  match goal with
  | |- context [match (if use_host_domain then ?a else ?b) with _ => _ end] =>
      destruct (if use_host_domain then a else b) as [g|e]
  end; [|intros <-; left; exists e; split; [done|tauto]].
  destruct (maskfunc f (fst g) (snd g)) as [mask|e];
    [|intros <-; left; exists e; split; [done|tauto]].
  match goal with
  | |- context [match ?c with Ok _ => _ | Raise _ => _ end] =>
      destruct c as [col|e]
  end; [|intros <-; left; exists e; split; [done|tauto]].
  destruct (Np.setitem_mask (pixels img) mask col) as [px|e];
    [|intros <-; left; exists e; split; [done|tauto]].
  unfold save at 1.
  intros <-. right. exists px.
  destruct (overwrite_domain && negb use_host_domain).
  - rewrite load_saved. unfold save. cbn [pixels]. by rewrite insert_insert_eq.
  - reflexivity.
Qed.

(** C6: [img(f, overwrite_domain, use_host_domain)] with [use_host_domain]
    and no domain attached raises [RuntimeError] and modifies nothing; any
    call that raises leaves the store, and so the domain, as it was; a call
    that returns has stored the new pixels and left the domain as it was,
    except when [overwrite_domain] is true and [use_host_domain] is false,
    where the domain is the drawable's domain function. *)
Theorem call_outcome (s : store) self img f overwrite_domain use_host_domain :
  s !! self = Some img ->
  let r := Image.__call__ self f overwrite_domain use_host_domain s in
  (use_host_domain = true -> _domain img = None ->
   r = (Raise RuntimeError, s)) /\
  (forall e, fst r = Raise e -> snd r = s) /\
  (fst r = Ok tt ->
   exists px,
     snd r = <[self := mkImage px
                 (if overwrite_domain && negb use_host_domain
                  then Some (domainfunc f) else _domain img)]> s) /\
  (forall img', snd r !! self = Some img' ->
     _domain img' = (if overwrite_domain && negb use_host_domain
                     then match fst r with
                          | Ok _ => Some (domainfunc f)
                          | Raise _ => _domain img
                          end
                     else _domain img)).
Proof.
  intros Hs r.
  destruct (call_cases s self img f overwrite_domain use_host_domain r Hs
              eq_refl) as [(e & Hr & He)|(px & Hr)]; rewrite Hr; cbn [fst snd].
  - split; [intros Hu Hd; by rewrite (He Hu Hd)|].
    split; [done|]. split; [discriminate|].
    intros img' Himg'. assert (img' = img) as -> by congruence.
    by destruct (overwrite_domain && negb use_host_domain).
  - split.
    { intros Hu Hd.
      destruct (call_cases s self img f overwrite_domain use_host_domain r Hs
                  eq_refl) as [(e & Hr' & He)|(px' & Hr')].
      - rewrite Hr in Hr'. discriminate.
      - exfalso. clear Hr'. subst r. revert Hr. unfold Image.__call__.
        unfold mbind at 1. unfold load at 1. rewrite Hs. cbn [of_option].
        rewrite Hu, bool_decide_eq_true_2 by done. discriminate. }
    split; [discriminate|]. split; [intros _; by exists px|].
    intros img'. rewrite lookup_insert_eq. intros [= <-]. simpl.
    by destruct (overwrite_domain && negb use_host_domain).
Qed.

Lemma call_outcome_witness :
  let s : store := {[ 1%positive := blank 1 1 ]} in
  let f := mkDrawable (fun _ _ => Ok ([[0%float]], [[0%float]]))
                      (fun _ _ => Raise TypeError)
                      (ColorTuple [1; 2; 3; 4]%Z) in
  snd (Image.__call__ 1%positive f true false s) = s.
Proof.
  intros s f.
  destruct (call_outcome s 1%positive (blank 1 1) f true false) as (_ & H & _).
  - apply lookup_singleton_eq.
  - apply (H TypeError). reflexivity.
Defined.

(** ** The order of floats *)

(** The comparison of binary64 numbers, as IEEE 754 specifies it, orders
    the numbers that are not NaN. *)
Lemma SFcompare_opp x y c :
  SFcompare x y = Some c -> SFcompare y x = Some (CompOpp c).
Proof.
  destruct x as [sx|sx| |sx mx ex], y as [sy|sy| |sy my ey]; simpl;
    try discriminate;
    repeat match goal with s : bool |- _ => destruct s end; simpl;
    try (intros [= <-]; reflexivity).
  all: change (Pos.compare_cont Eq ?a ?b) with (Pos.compare a b).
  all: rewrite (Z.compare_antisym ex ey), (Pos.compare_antisym mx my).
  all: destruct (ex ?= ey)%Z, (mx ?= my)%positive; simpl;
    intros [= <-]; reflexivity.
Qed.

Lemma SFcompare_refl x : x <> S754_nan -> SFcompare x x = Some Eq.
Proof.
  destruct x as [sx|sx| |sx mx ex]; simpl; try done.
  - by destruct sx.
  - intros _. destruct sx; rewrite Z.compare_refl;
      change (Pos.compare_cont Eq mx mx) with (Pos.compare mx mx);
      by rewrite Pos.compare_refl.
Qed.

Lemma SFcompare_trans x y z c1 c2 :
  SFcompare x y = Some c1 -> SFcompare y z = Some c2 ->
  c1 <> Gt -> c2 <> Gt ->
  exists c3, SFcompare x z = Some c3 /\ c3 <> Gt /\
             (c3 = Eq -> c1 = Eq /\ c2 = Eq).
Proof.
  destruct x as [sx|sx| |sx mx ex], y as [sy|sy| |sy my ey],
           z as [sz|sz| |sz mz ez]; simpl; try discriminate;
    repeat match goal with s : bool |- _ => destruct s end; simpl;
    intros [= <-] [= <-] H1 H2; try done;
    try (eexists; split; [reflexivity|]; split; [done|]; intros; done).
  all: change (Pos.compare_cont Eq ?a ?b) with (Pos.compare a b) in *.
  all: destruct (Z.compare_spec ex ey), (Z.compare_spec ey ez),
         (Z.compare_spec ex ez); try lia; try done;
       try (eexists; split; [reflexivity|]; split; [done|]; intros; done).
  all: destruct (Pos.compare_spec mx my), (Pos.compare_spec my mz),
         (Pos.compare_spec mx mz); simpl in *; try lia; try done;
       try (eexists; split; [reflexivity|]; split; [done|]; intros; done).
Qed.

Lemma is_nan_spec x : is_nan x = false <-> Prim2SF x <> S754_nan.
Proof.
  unfold is_nan. rewrite FloatAxioms.eqb_spec. unfold SFeqb. split.
  - intros H Hn. rewrite Hn in H. discriminate.
  - intros Hn. by rewrite SFcompare_refl.
Qed.

(** Two numbers compare one way, and the other way round. *)
Lemma float_compare x y :
  is_nan x = false -> is_nan y = false ->
  exists c, SFcompare (Prim2SF x) (Prim2SF y) = Some c /\
            SFcompare (Prim2SF y) (Prim2SF x) = Some (CompOpp c).
Proof.
  rewrite !is_nan_spec. intros Hx Hy.
  destruct (SFcompare (Prim2SF x) (Prim2SF y)) as [c|] eqn:Hc.
  - exists c. split; [done|]. by apply SFcompare_opp.
  - exfalso. revert Hc.
    by destruct (Prim2SF x) as [| | |], (Prim2SF y) as [| | |].
Qed.

(** [<] on the pairs [(distance, i)] whose distances are numbers is a strict
    order in which any two pairs of different indices are ordered. *)
Lemma pair_lt_irrefl a : is_nan (fst a) = false -> Image.pair_lt a a = false.
Proof.
  intros Ha. unfold Image.pair_lt. rewrite FloatAxioms.eqb_spec. unfold SFeqb.
  rewrite SFcompare_refl by (by apply is_nan_spec). apply Nat.ltb_irrefl.
Qed.

Lemma pair_lt_asym a b :
  is_nan (fst a) = false -> is_nan (fst b) = false ->
  Image.pair_lt a b = true -> Image.pair_lt b a = false.
Proof.
  intros Ha Hb. unfold Image.pair_lt.
  rewrite !FloatAxioms.eqb_spec, !FloatAxioms.ltb_spec. unfold SFeqb, SFltb.
  destruct (float_compare _ _ Ha Hb) as (c & -> & ->).
  destruct c; simpl; try done.
  intros H%Nat.ltb_lt. apply Nat.ltb_ge. lia.
Qed.

Lemma pair_lt_negtrans a b c :
  is_nan (fst a) = false -> is_nan (fst b) = false ->
  is_nan (fst c) = false ->
  Image.pair_lt a b = false -> Image.pair_lt b c = false ->
  Image.pair_lt a c = false.
Proof.
  intros Ha Hb Hc. unfold Image.pair_lt.
  rewrite !FloatAxioms.eqb_spec, !FloatAxioms.ltb_spec. unfold SFeqb, SFltb.
  destruct (float_compare _ _ Hb Ha) as (c1 & Hba & Hab).
  destruct (float_compare _ _ Hc Hb) as (c2 & Hcb & Hbc).
  rewrite Hab, Hbc.
  destruct c1; simpl; try done; destruct c2; simpl; try done;
    intros H1 H2;
    (destruct (SFcompare_trans _ _ _ _ _ Hcb Hba) as (c3 & Hca & Hle & Heq);
     [done..|]);
    apply SFcompare_opp in Hca; rewrite Hca;
    destruct c3; simpl; try done;
    try (by destruct Heq as [? ?]).
  apply Nat.ltb_ge in H1, H2. apply Nat.ltb_ge. lia.
Qed.

(** A pair that is not above another has a distance that is not above, and
    at an equal distance an index that is not above. *)
Lemma pair_lt_false a b :
  is_nan (fst a) = false -> is_nan (fst b) = false ->
  Image.pair_lt a b = false ->
  (fst b <=? fst a)%float = true /\
  ((fst a =? fst b)%float = true -> snd b <= snd a).
Proof.
  intros Ha Hb. unfold Image.pair_lt.
  rewrite !FloatAxioms.eqb_spec, !FloatAxioms.ltb_spec, FloatAxioms.leb_spec. unfold SFeqb, SFltb, SFleb.
  destruct (float_compare _ _ Ha Hb) as (c & -> & ->).
  destruct c; simpl; try done.
  intros H%Nat.ltb_ge. done.
Qed.

(** ** Reading by mathematical points *)

(** The head of a sorted list is a least element of the list, when [<]
    orders the elements. *)
Section SortedHead.
Context {A : Type} (lt : A -> A -> bool) (P : A -> Prop).
Hypothesis lt_irrefl : forall a, P a -> lt a a = false.
Hypothesis lt_asym : forall a b, P a -> P b -> lt a b = true -> lt b a = false.
Hypothesis lt_negtrans :
  forall a b c, P a -> P b -> P c ->
    lt a b = false -> lt b c = false -> lt a c = false.

Lemma insert_sorted_head x m rest :
  P x -> P m ->
  exists m' rest',
    insert_sorted lt x (m :: rest) = m' :: rest' /\
    (m' = x \/ m' = m) /\ lt x m' = false /\ lt m m' = false.
Proof using lt_irrefl lt_asym.
  intros Hx Hm. simpl. destruct (lt m x) eqn:Hmx.
  - exists m, (insert_sorted lt x rest). split; [done|]. split; [by right|].
    split; [by apply lt_asym|by apply lt_irrefl].
  - exists x, (m :: rest). split; [done|]. split; [by left|].
    split; [by apply lt_irrefl|done].
Qed.

Lemma sorted_head_least x l :
  Forall P (x :: l) ->
  exists m rest,
    sorted lt (x :: l) = m :: rest /\ m ∈ x :: l /\
    forall e, e ∈ x :: l -> lt e m = false.
Proof using lt_irrefl lt_asym lt_negtrans.
  revert x. induction l as [|y l IH]; intros x HP.
  - exists x, []. split; [done|]. split; [left|].
    intros e He. apply list_elem_of_singleton in He as ->.
    apply lt_irrefl. by apply Forall_inv in HP.
  - pose proof (Forall_inv HP) as Hx. apply Forall_inv_tail in HP.
    destruct (IH y HP) as (m & rest & Hs & Hin & Hmin).
    assert (Hm : P m) by (by apply (proj1 (Forall_forall _ _) HP)).
    change (sorted lt (x :: y :: l))
      with (insert_sorted lt x (sorted lt (y :: l))).
    rewrite Hs.
    destruct (insert_sorted_head x m rest Hx Hm)
      as (m' & rest' & -> & Hm' & Hxm & Hmm).
    exists m', rest'. split; [done|]. split.
    + destruct Hm' as [->| ->]; [left|by right].
    + intros e He. apply elem_of_cons in He as [->|He]; [done|].
      assert (He' : P e) by (by apply (proj1 (Forall_forall _ _) HP)).
      assert (Hm'' : P m') by (by destruct Hm' as [->| ->]).
      apply (lt_negtrans e m m'); try done. by apply Hmin.
Qed.
End SortedHead.

Lemma mapM_Forall2 {A B} (f : A -> result B) l l' :
  mapM f l = Ok l' <-> Forall2 (fun a b => f a = Ok b) l l'.
Proof.
  revert l'. induction l as [|a l IH]; intros l'; simpl.
  - split; [intros [= <-]; constructor|by intros ->%Forall2_nil_inv_l].
  - destruct (f a) as [b|e] eqn:Hb; simpl.
    + destruct (mapM f l) as [bs|e] eqn:Hbs; simpl.
      * split.
        -- intros [= <-]. constructor; [done|by apply IH].
        -- intros (b' & bs' & Hb' & Hbs' & ->)%Forall2_cons_inv_l.
           apply IH in Hbs'. congruence.
      * split; [discriminate|].
        intros (b' & bs' & Hb' & Hbs' & ->)%Forall2_cons_inv_l.
        apply IH in Hbs'. discriminate.
    + split; [discriminate|].
      intros (b' & bs' & Hb' & _)%Forall2_cons_inv_l. congruence.
Qed.

(** The pairs [(abs(x - b), i)] of the coordinates, in the order of the
    coordinates. *)
Lemma distances_computed coords b :
  Forall (fun x => exists d, Image.distance x b = Ok d /\ is_nan d = false)
         coords ->
  exists ds,
    mapM (fun ix => d <- Image.distance (snd ix) b ;; Ok (d, fst ix))
         (imap (fun i x => (i, x)) coords) = Ok ds /\
    length ds = length coords /\
    forall p, p ∈ ds <->
      exists x, coords !! snd p = Some x /\ Image.distance x b = Ok (fst p).
Proof.
  intros Hall.
  assert (Hgen : forall k,
    exists ds,
      mapM (fun ix => d <- Image.distance (snd ix) b ;; Ok (d, fst ix))
           (imap (fun i x => (k + i, x)) coords) = Ok ds /\
      length ds = length coords /\
      forall p, p ∈ ds <->
        exists i x, snd p = k + i /\ coords !! i = Some x /\
                    Image.distance x b = Ok (fst p)).
  { induction Hall as [|x coords (d & Hd & _) _ IH]; intros k.
    - exists []. split; [done|]. split; [done|]. intros p. split.
      + by intros ?%elem_of_nil.
      + by intros (i & x & _ & ? & _).
    - destruct (IH (S k)) as (ds & Hds & Hlen & Hin).
      exists ((d, k + 0) :: ds). split; [|split].
      + cbn [imap mapM snd fst]. rewrite Hd. cbn [bind].
        rewrite (imap_ext _ (fun i x => (S k + i, x)))
          by (intros; simpl; f_equal; lia).
        rewrite Hds. reflexivity.
      + simpl. by rewrite Hlen.
      + intros p. rewrite elem_of_cons, Hin. split.
        * intros [->|(i & y & Hp & Hy & Hdy)].
          -- by exists 0, x.
          -- exists (S i), y. split; [lia|done].
        * intros ([|i] & y & Hp & Hy & Hdy).
          -- left. injection Hy as <-. destruct p as [dp ip]. simpl in *.
             congruence.
          -- right. exists i, y. split; [lia|done]. }
  destruct (Hgen 0) as (ds & Hds & Hlen & Hin).
  exists ds. split; [exact Hds|]. split; [done|].
  intros p. rewrite Hin. split.
  - intros (i & x & -> & Hx & Hd). by exists x.
  - intros (x & Hx & Hd). by exists (snd p), x.
Qed.

(** A bound is snapped to the lowest index among the coordinates at the
    least computed distance. *)
Lemma first_index_snapped coords b :
  coords <> [] \/ b = BNone -> comparable coords b ->
  exists ds r, Image.by_distance coords b = Ok ds /\
               Image.first_index ds = Ok r /\ snapped coords b r.
Proof.
  intros Hne Hcmp.
  assert (Hdec : b = BNone \/ b <> BNone) by (destruct b; auto).
  destruct Hdec as [->|Hb].
  { exists [(None, None)], BNone. by repeat split. }
  destruct Hne as [Hne|Hne]; [|done]. destruct Hcmp as [Hcmp|Hcmp]; [done|].
  destruct (distances_computed coords b Hcmp) as (ds & Hds & Hlen & Hin).
  assert (Hby : Image.by_distance coords b
                = Ok (map (fun di => (Some (fst di), Some (snd di)))
                          (sorted Image.pair_lt ds))).
  { unfold Image.by_distance. rewrite Hds. by destruct b. }
  assert (Hok : Forall (fun p => is_nan (fst p) = false) ds).
  { apply Forall_forall. intros p (x & Hx & Hd)%Hin.
    rewrite Forall_forall in Hcmp.
    destruct (Hcmp x) as (d & Hd' & Hnan);
      [by apply list_elem_of_lookup_2 in Hx|]. congruence. }
  destruct ds as [|d0 ds]; [by destruct coords|].
  destruct (sorted_head_least Image.pair_lt (fun p => is_nan (fst p) = false)
              pair_lt_irrefl pair_lt_asym pair_lt_negtrans d0 ds Hok)
    as (m & rest & Hs & Hm & Hmin).
  rewrite Hby, Hs. destruct m as [dm i].
  exists ((Some dm, Some i)
          :: map (fun di => (Some (fst di), Some (snd di))) rest),
         (BInt (Z.of_nat i)).
  split; [done|]. split; [done|].
  assert (Hsnap : exists k, BInt (Z.of_nat i) = BInt (Z.of_nat k) /\
                            nearest coords b k).
  { exists i. split; [done|].
    pose proof (proj1 (Forall_forall _ _) Hok _ Hm) as Hnm.
    apply Hin in Hm as (x & Hx & Hd). simpl in Hx, Hd, Hnm.
    exists x, dm. split; [done|]. split; [done|]. intros j y e Hy He.
    assert (Hj : (e, j) ∈ d0 :: ds) by (apply Hin; by exists y).
    pose proof (proj1 (Forall_forall _ _) Hok _ Hj) as Hne'.
    apply (pair_lt_false (e, j) (dm, i)); try done. by apply Hmin. }
  unfold snapped. by destruct b.
Qed.

Lemma snapped_plain coords b r :
  snapped coords b r -> Image.is_float_bound r = false.
Proof.
  unfold snapped. destruct b.
  - by intros ->.
  - by intros (i & -> & _).
  - by intros (i & -> & _).
Qed.

Lemma slice_indices_plain len a b :
  Image.is_float_bound a = false -> Image.is_float_bound b = false ->
  exists l, Np.slice_indices len a b BNone = Ok l.
Proof.
  intros Ha Hb. unfold Np.slice_indices.
  destruct a, b; try discriminate; simpl; eauto.
Qed.

(** A read with two pixel slices returns a new [Image] on the selected rows
    and columns, a view of the array read. *)
Lemma get_by_pixels_slices (s : store) self img h w ya yb xa xb :
  s !! self = Some img -> image_shape img h w ->
  Image.is_float_bound ya = false -> Image.is_float_bound yb = false ->
  Image.is_float_bound xa = false -> Image.is_float_bound xb = false ->
  exists rows cols,
    Np.slice_indices h ya yb BNone = Ok rows /\
    Np.slice_indices w xa xb BNone = Ok cols /\
    Image._get_by_pixels self [CSlice ya yb BNone; CSlice xa xb BNone] s
    = (Ok (VImage (fresh (dom s))),
       <[fresh (dom s) :=
           mkImage (Np.mkNd (Np.dtype (pixels img))
                      [length rows; length cols; 4]
                      (Np.view_strides (pixels img)
                         [CSlice ya yb BNone; CSlice xa xb BNone])
                      (map (fun p => nth p (Np.flat (pixels img)) 0%Z)
                           (Np.positions [h; w; 4]
                                         [rows; cols; [0; 1; 2; 3]] 0)))
                   None]> s).
Proof.
  intros Hs Hsh Hya Hyb Hxa Hxb.
  destruct (slice_indices_plain h ya yb Hya Hyb) as [rows Hrows].
  destruct (slice_indices_plain w xa xb Hxa Hxb) as [cols Hcols].
  exists rows, cols. split; [done|]. split; [done|].
  unfold Image._get_by_pixels, mbind, lift, load. rewrite Hs.
  cbn [of_option]. unfold Np.getitem, Np.resolve. rewrite Hsh.
  assert (Np.complete (length [h; w; 4])
            [CSlice ya yb BNone; CSlice xa xb BNone]
          = Ok [CSlice ya yb BNone; CSlice xa xb BNone; full_slice]) as ->
    by reflexivity.
  assert (Hall : Np.slice_indices 4 BNone BNone BNone = Ok [0; 1; 2; 3])
    by reflexivity.
  unfold full_slice.
  cbn [bind Np.select_all Np.select]. rewrite Hrows, Hcols, Hall.
  cbn [bind fst snd map Np.kept_shape List.filter length Np.shape Nat.eqb].
  unfold Image.fromarray.
  erewrite init_from_array by reflexivity. reflexivity.
Qed.

(** C1, as stated, fails: the program compares the differences it computes,
    which are rounded.  With the x coordinates 0.0 and 1e-17 and the bound
    1.0, the second coordinate is the nearer one, and yet both differences
    are computed as 1.0 and the bound is snapped to the first: the read
    [img[1.0:, :]] gives both columns. *)
Lemma getitem_math_rounding_counterexample :
  let xs := [0; 0x1.70ef54646d497p-57]%float in
  let d : domainfn := fun _ _ => Ok ([xs], [[0; 0]]%float) in
  let s : store :=
    {[ 1%positive := mkImage (Np.mkArr [1; 2; 4] (replicate 8 7%Z)) (Some d) ]} in
  (ds <- Image.by_distance xs (BFloat 1) ;; Image.first_index ds)
  = Ok (BInt 0) /\
  nearest_exact xs 1 1 /\ ~ nearest_exact xs 1 0 /\
  Image.__getitem__ 1%positive
    (ITuple [CSlice (BFloat 1) BNone BNone; full_slice]) s
  = Image._get_by_pixels 1%positive
      [full_slice; CSlice (BInt 0) BNone BNone] s.
Proof.
  intros xs d s. split; [reflexivity|]. split; [|split].
  - exists (0x1.70ef54646d497p-57)%float.
    eexists _, _. split; [reflexivity|].
    split; [vm_compute; reflexivity|]. split; [vm_compute; reflexivity|].
    intros [|[|j]] y qy Hy Hq; try discriminate;
      injection Hy as <-; vm_compute in Hq; injection Hq as <-.
    + split; [vm_compute; discriminate|]. vm_compute. discriminate.
    + split; [vm_compute; discriminate|]. lia.
  - intros (x & qx & qv & Hx & Hqx & Hqv & Hmin).
    injection Hx as <-. vm_compute in Hqx, Hqv.
    injection Hqx as <-. injection Hqv as <-.
    destruct (Hmin 1 (0x1.70ef54646d497p-57)%float _ eq_refl eq_refl)
      as [Hle _].
    vm_compute in Hle. by apply Hle.
  - vm_compute. reflexivity.
Qed.

(** C1, amended: on a buffer with a domain, a mathematical index of two
    slices reads the pixels of the slices [(x0, x1)] and [(y1, y0)], where
    each of [x0], [x1], [y0], [y1] is [None] if the bound it comes from
    (x-start, x-stop, y-start, y-stop) is [None], and otherwise the lowest
    index among the coordinates whose difference from that bound, as
    computed in binary64 arithmetic, is least in absolute value; the result
    is the one of the direct pixel read with these slices, a new [Image].
    The domain is to return its grids, with a coordinate on each axis that
    has a bound to snap, and the differences are to be numbers. *)
Theorem getitem_math_slices (s : store) self img h w d XS YS xs ys
    xstart xstop xstep ystart ystop ystep :
  s !! self = Some img -> image_shape img h w -> _domain img = Some d ->
  d w h = Ok (XS, YS) ->
  head XS = Some xs ->
  mapM (fun it => of_option IndexError (head it)) YS = Ok ys ->
  xs <> [] \/ (xstart = BNone /\ xstop = BNone) ->
  ys <> [] \/ (ystart = BNone /\ ystop = BNone) ->
  comparable xs xstart -> comparable xs xstop ->
  comparable ys ystart -> comparable ys ystop ->
  Image._is_pixel_addr
    [CSlice xstart xstop xstep; CSlice ystart ystop ystep] = false ->
  exists x0 x1 y0 y1,
    snapped xs xstart x0 /\ snapped xs xstop x1 /\
    snapped ys ystart y0 /\ snapped ys ystop y1 /\
    Image.__getitem__ self
      (ITuple [CSlice xstart xstop xstep; CSlice ystart ystop ystep]) s
    = Image._get_by_pixels self
        [CSlice y1 y0 BNone; CSlice x0 x1 BNone] s /\
    Image.__getitem__ self
      (ITuple [CSlice x0 x1 BNone; CSlice y1 y0 BNone]) s
    = Image._get_by_pixels self
        [CSlice y1 y0 BNone; CSlice x0 x1 BNone] s /\
    exists l sub,
      Image._get_by_pixels self [CSlice y1 y0 BNone; CSlice x0 x1 BNone] s
      = (Ok (VImage l), <[l := mkImage sub None]> s) /\ s !! l = None.
Proof.
  intros Hs Hsh Hd Hgrid Hxs Hys Hxne Hyne Cx0 Cx1 Cy0 Cy1 Hmath.
  destruct (first_index_snapped xs xstart) as (dx0 & x0 & Bx0 & Ex0 & Hx0);
    [tauto|done|].
  destruct (first_index_snapped xs xstop) as (dx1 & x1 & Bx1 & Ex1 & Hx1);
    [tauto|done|].
  destruct (first_index_snapped ys ystart) as (dy0 & y0 & By0 & Ey0 & Hy0);
    [tauto|done|].
  destruct (first_index_snapped ys ystop) as (dy1 & y1 & By1 & Ey1 & Hy1);
    [tauto|done|].
  exists x0, x1, y0, y1. do 4 (split; [done|]).
  pose proof (snapped_plain _ _ _ Hx0) as Px0.
  pose proof (snapped_plain _ _ _ Hx1) as Px1.
  pose proof (snapped_plain _ _ _ Hy0) as Py0.
  pose proof (snapped_plain _ _ _ Hy1) as Py1.
  split; [|split].
  - unfold Image.__getitem__. unfold mbind at 1. unfold lift at 1.
    cbn [Image._flip_index length Nat.eqb].
    rewrite (is_pixel_addr_flip
               [CSlice xstart xstop xstep; CSlice ystart ystop ystep])
      by reflexivity.
    rewrite Hmath. unfold mbind at 1. unfold load at 1. rewrite Hs.
    cbn [of_option]. rewrite Hd.
    assert (Hsl : Image.math_slices img d xstart xstop ystart ystop
                  = Ok (CSlice y1 y0 BNone, CSlice x0 x1 BNone)).
    { unfold Image.math_slices, Image.width, Image.height. rewrite Hsh.
      cbn [lookup list_lookup of_option bind]. rewrite Hgrid.
      cbn [of_option bind fst snd]. rewrite Hxs. cbn [of_option bind].
      rewrite Hys. cbn [bind]. rewrite Bx0, Bx1, By0, By1. cbn [bind].
      rewrite Ex0, Ex1, Ey1, Ey0. reflexivity. }
    unfold mbind, lift. rewrite Hsl. reflexivity.
  - unfold Image.__getitem__. unfold mbind at 1. unfold lift at 1.
    cbn [Image._flip_index length Nat.eqb Image._is_pixel_addr].
    rewrite Px0, Px1, Py0, Py1. reflexivity.
  - destruct (get_by_pixels_slices s self img h w y1 y0 x0 x1)
      as (rows & cols & _ & _ & Hget); try done.
    eexists _, _. split; [exact Hget|apply fresh_loc_unused].
Qed.

Lemma getitem_math_slices_witness :
  let d : domainfn :=
    fun _ _ => Ok ([[-1; 0]; [-1; 0]]%float, [[1; 1]; [0; 0]]%float) in
  let s : store :=
    {[ 1%positive := mkImage (Np.mkArr [2; 2; 4] (replicate 16 7%Z)) (Some d) ]} in
  exists x0 x1 y0 y1,
    snapped [-1; 0]%float (BFloat (-0.875)) x0 /\
    snapped [-1; 0]%float BNone x1 /\
    snapped [1; 0]%float BNone y0 /\
    snapped [1; 0]%float (BFloat 0.375) y1 /\
    Image.__getitem__ 1%positive
      (ITuple [CSlice (BFloat (-0.875)) BNone BNone;
               CSlice BNone (BFloat 0.375) BNone]) s
    = Image._get_by_pixels 1%positive
        [CSlice y1 y0 BNone; CSlice x0 x1 BNone] s.
Proof.
  intros d s.
  destruct (getitem_math_slices s 1%positive
              (mkImage (Np.mkArr [2; 2; 4] (replicate 16 7%Z)) (Some d))
              2 2 d [[-1; 0]; [-1; 0]]%float [[1; 1]; [0; 0]]%float
              [-1; 0]%float [1; 0]%float
              (BFloat (-0.875)) BNone BNone BNone (BFloat 0.375) BNone)
    as (x0 & x1 & y0 & y1 & Hx0 & Hx1 & Hy0 & Hy1 & Hget & _).
  - apply lookup_singleton_eq.
  - reflexivity.
  - reflexivity.
  - reflexivity.
  - reflexivity.
  - reflexivity.
  - left. discriminate.
  - left. discriminate.
  - right. repeat constructor; eexists; (split; [reflexivity|reflexivity]).
  - by left.
  - by left.
  - right. repeat constructor; eexists; (split; [reflexivity|reflexivity]).
  - reflexivity.
  - exists x0, x1, y0, y1. repeat split; assumption.
Defined.

(** With no coordinate to snap to, a bound that is not [None] makes the read
    raise [IndexError]. *)
Lemma by_distance_empty b :
  b <> BNone ->
  (ds <- Image.by_distance [] b ;; Image.first_index ds) = Raise IndexError.
Proof. intros Hb. by destruct b. Qed.

(** *** Which mathematical reads are refused *)

Lemma getitem_math_no_domain (s : store) self img index idx :
  s !! self = Some img -> _domain img = None ->
  Image._flip_index index = Ok idx -> Image._is_pixel_addr idx = false ->
  Image.__getitem__ self index s = (Raise RuntimeError, s).
Proof.
  intros Hs Hd Hflip Hmath. unfold Image.__getitem__, mbind, lift, load.
  rewrite Hflip, Hmath, Hs. cbn [of_option]. rewrite Hd. reflexivity.
Qed.

(** X23: on a buffer with a domain, a read by a mathematical index one of
    whose first two components is not a slice raises [ValueError] and
    changes nothing. *)
Lemma getitem_math_not_slices (s : store) self img d index c0 c1 rest :
  s !! self = Some img -> _domain img = Some d ->
  Image._flip_index index = Ok (c0 :: c1 :: rest) ->
  Image._is_pixel_addr (c0 :: c1 :: rest) = false ->
  is_slice c0 && is_slice c1 = false ->
  Image.__getitem__ self index s = (Raise ValueError, s).
Proof.
  intros Hs Hd Hflip Hmath Hsl. unfold Image.__getitem__, mbind, lift, load.
  rewrite Hflip, Hmath, Hs. cbn [of_option]. rewrite Hd.
  destruct c0 as [| |a0 b0 s0|]; try reflexivity.
  destruct c1 as [| |a1 b1 s1|]; try reflexivity. discriminate.
Qed.

(** A tuple of one component is refused by [_flip_index], with an
    [IndexError], before the domain is looked at. *)
Lemma getitem_one_component (s : store) self c :
  Image.__getitem__ self (ITuple [c]) s = (Raise IndexError, s).
Proof. reflexivity. Qed.

(** Components after the first two slices are dropped from a mathematical
    index. *)
Lemma getitem_math_extra_components (s : store) self
    xstart xstop xstep ystart ystop ystep rest :
  Image._is_pixel_addr
    [CSlice xstart xstop xstep; CSlice ystart ystop ystep] = false ->
  Image.__getitem__ self
    (ITuple (CSlice xstart xstop xstep :: CSlice ystart ystop ystep :: rest)) s
  = Image.__getitem__ self
      (ITuple [CSlice xstart xstop xstep; CSlice ystart ystop ystep]) s.
Proof.
  intros Hmath.
  assert (Hm : Image._is_pixel_addr
                 (CSlice ystart ystop ystep :: CSlice xstart xstop xstep :: rest)
               = false).
  { rewrite !is_pixel_addr_cons in *.
    destruct (float_bearing (CSlice xstart xstop xstep)),
             (float_bearing (CSlice ystart ystop ystep)); try reflexivity.
    discriminate. }
  assert (Hm2 : Image._is_pixel_addr
                  [CSlice ystart ystop ystep; CSlice xstart xstop xstep]
                = false).
  { rewrite !is_pixel_addr_cons in *.
    destruct (float_bearing (CSlice xstart xstop xstep)),
             (float_bearing (CSlice ystart ystop ystep)); try reflexivity.
    discriminate. }
  unfold Image.__getitem__, mbind, lift.
  assert (Image._flip_index
            (ITuple (CSlice xstart xstop xstep
                     :: CSlice ystart ystop ystep :: rest))
          = Ok (CSlice ystart ystop ystep :: CSlice xstart xstop xstep :: rest))
    as -> by (by destruct rest as [|? [|? ?]]).
  cbn [Image._flip_index length Nat.eqb]. rewrite Hm, Hm2. reflexivity.
Qed.

(** C7 at a mathematical index of three components, [img[0.5:1.5, :, 0]], on
    a 2 by 2 buffer with a domain: no [ValueError], the read returns a new
    [Image] as [img[0.5:1.5, :]] does; and at the tuple of the one component
    [0.5:1.5] the read raises [IndexError], not [ValueError]. *)
Theorem getitem_three_components_accepted :
  let d : domainfn :=
    fun _ _ => Ok ([[0; 1]; [0; 1]]%float, [[0; 0]; [1; 1]]%float) in
  let s : store :=
    {[ 1%positive := mkImage (Np.mkArr [2; 2; 4] (replicate 16 7%Z)) (Some d) ]} in
  fst (Image.__getitem__ 1%positive
         (ITuple [CSlice (BFloat 0.5) (BFloat 1.5) BNone;
                  full_slice; CInt 0]) s)
  = Ok (VImage 2%positive) /\
  fst (Image.__getitem__ 1%positive
         (ITuple [CSlice (BFloat 0.5) (BFloat 1.5) BNone]) s)
  = Raise IndexError.
Proof. split; vm_compute; reflexivity. Qed.

(** ** Negation *)

(** C3 at [Image(width=2, height=1)]: [-img] raises [ValueError], because the
    alpha channel is reshaped to (width, height, 1) and no longer fits the
    colours, of shape (height, width, 3). *)
Theorem neg_raises_on_2_by_1 :
  fst ((l <~ Image.__init__ (Some 2%Z) (Some 1%Z) None
               Image.default_background None ;;
        Image.__neg__ l) ∅)
  = Raise ValueError.
Proof. vm_compute. reflexivity. Qed.

Lemma full_slice_indices n :
  Np.slice_indices n BNone BNone BNone = Ok (seq 0 n).
Proof.
  unfold Np.slice_indices. cbn [bind Z.ltb Z.compare].
  rewrite Z.sub_0_r, Z.div_1_r.
  replace (Z.to_nat (if (0 <? Z.of_nat n)%Z then (Z.of_nat n - 1 + 1)%Z else 0%Z))
    with n by (destruct (Z.ltb_spec 0 (Z.of_nat n)); lia).
  f_equal. rewrite <- (map_id (seq 0 n)) at 2.
  apply map_ext. intros k. lia.
Qed.

Lemma flat_map_singleton {B} (f : nat -> B) l :
  flat_map (fun k => [f k]) l = map f l.
Proof. induction l as [|k l IH]; simpl; [done|]. by rewrite IH. Qed.

Lemma flat_map_shift {B} (F : nat -> list B) a n :
  flat_map F (seq a n) = flat_map (fun j => F (a + j)) (seq 0 n).
Proof.
  revert F a. induction n as [|n IH]; intros F a; [done|]. simpl.
  rewrite Nat.add_0_r. f_equal.
  rewrite (IH F (S a)), (IH (fun j => F (a + j)) 1).
  apply flat_map_ext. intros j. f_equal. lia.
Qed.

Lemma flat_map_grid {B} (F : nat -> list B) h w :
  flat_map (fun i => flat_map (fun j => F (i * w + j)) (seq 0 w)) (seq 0 h)
  = flat_map F (seq 0 (h * w)).
Proof.
  induction h as [|h IH]; [done|].
  rewrite seq_S, flat_map_app, IH. simpl flat_map at 2. rewrite app_nil_r.
  replace (S h * w) with (h * w + w) by lia.
  rewrite seq_app, flat_map_app. f_equal.
  by rewrite (flat_map_shift F).
Qed.

(** The offsets of the channels [ks] of every pixel, row after row. *)
Lemma positions_channels h w ks :
  Np.positions [h; w; 4] [seq 0 h; seq 0 w; ks] 0
  = flat_map (fun b => map (fun k => b * 4 + k) ks) (seq 0 (h * w)).
Proof.
  cbn [Np.positions].
  rewrite <- (flat_map_grid (fun b => map (fun k => b * 4 + k) ks) h w).
  apply flat_map_ext. intros i. apply flat_map_ext. intros j.
  by rewrite flat_map_singleton.
Qed.

Lemma map_flat_map {B C D} (g : C -> D) (f : B -> list C) l :
  map g (flat_map f l) = flat_map (fun x => map g (f x)) l.
Proof.
  induction l as [|x l IH]; simpl; [done|]. by rewrite map_app, IH.
Qed.

Lemma interleave_flat_map {B} (f g : B -> list Z) ka kb bs :
  (forall b, length (f b) = ka) -> (forall b, length (g b) = kb) ->
  Np.interleave (length bs) ka kb (flat_map f bs) (flat_map g bs)
  = flat_map (fun b => f b ++ g b) bs.
Proof.
  intros Hf Hg. induction bs as [|b bs IH]; [done|]. simpl.
  rewrite !take_app_length', !drop_app_length' by done.
  by rewrite IH, app_assoc.
Qed.

Lemma lookup_flat_map_cells (F : nat -> list Z) a n b c :
  (forall i, length (F i) = 4) -> b < n -> c < 4 ->
  flat_map F (seq a n) !! (b * 4 + c) = F (a + b) !! c.
Proof.
  intros HF. revert a b.
  induction n as [|n IH]; intros a [|b] Hb Hc; try lia; simpl.
  - rewrite lookup_app_l by (rewrite HF; lia). by rewrite Nat.add_0_r.
  - rewrite lookup_app_r by (rewrite HF; lia). rewrite HF.
    replace (S (S (S (S (b * 4 + c)))) - 4) with (b * 4 + c) by lia.
    rewrite (IH (S a) b) by lia. by replace (a + S b) with (S a + b) by lia.
Qed.

(** The alpha channel and the colours are views of the pixel array, with its
    strides. *)
Lemma view_strides_alpha a h w :
  Np.shape a = [h; w; 4] ->
  Np.view_strides a [full_slice; full_slice; CInt 3] = take 2 (Np.strides a).
Proof.
  intros Hsh. unfold Np.view_strides. rewrite Hsh.
  assert (Np.complete (length [h; w; 4]) [full_slice; full_slice; CInt 3]
          = Ok [full_slice; full_slice; CInt 3]) as -> by reflexivity.
  unfold full_slice. cbn [bind Np.select_all Np.select].
  rewrite !full_slice_indices.
  assert (Np.int_index 4 3 = Ok 3) as -> by reflexivity.
  cbn [bind].
  destruct (Np.strides a) as [|s0 [|s1 [|s2 st]]];
    cbn [Np.kept_strides snd fst Np.axis_step app take];
    by rewrite ?Z.mul_1_r.
Qed.

Lemma view_strides_color a h w :
  Np.shape a = [h; w; 4] ->
  Np.view_strides a [full_slice; full_slice; CSlice (BInt 0) (BInt 3) BNone]
  = take 3 (Np.strides a).
Proof.
  intros Hsh. unfold Np.view_strides. rewrite Hsh.
  assert (Np.complete (length [h; w; 4])
            [full_slice; full_slice; CSlice (BInt 0) (BInt 3) BNone]
          = Ok [full_slice; full_slice; CSlice (BInt 0) (BInt 3) BNone]) as ->
    by reflexivity.
  unfold full_slice. cbn [bind Np.select_all Np.select].
  rewrite !full_slice_indices.
  assert (Np.slice_indices 4 (BInt 0) (BInt 3) BNone = Ok [0; 1; 2]) as ->
    by reflexivity.
  cbn [bind].
  destruct (Np.strides a) as [|s0 [|s1 [|s2 st]]];
    cbn [Np.kept_strides snd fst Np.axis_step app take];
    by rewrite ?Z.mul_1_r.
Qed.

Lemma alpha_flat img h w :
  image_shape img h w ->
  Image.alpha img
  = Ok (Np.mkNd (Np.dtype (pixels img)) [h; w]
          (take 2 (Np.strides (pixels img)))
          (map (fun p => nth p (Np.flat (pixels img)) 0%Z)
               (flat_map (fun b => map (fun k => b * 4 + k) [3])
                         (seq 0 (h * w))))).
Proof.
  intros Hsh. unfold Image.alpha, Np.getitem.
  rewrite (view_strides_alpha _ h w) by done.
  unfold Np.resolve. rewrite Hsh.
  assert (Np.complete (length [h; w; 4]) [full_slice; full_slice; CInt 3]
          = Ok [full_slice; full_slice; CInt 3]) as -> by reflexivity.
  unfold full_slice. cbn [bind Np.select_all Np.select].
  rewrite !full_slice_indices.
  assert (Np.int_index 4 3 = Ok 3) as -> by reflexivity.
  cbn [bind fst snd map Np.kept_shape List.filter].
  by rewrite !length_seq, positions_channels.
Qed.

Lemma color_flat img h w :
  image_shape img h w ->
  Image.color img
  = Ok (Np.mkNd (Np.dtype (pixels img)) [h; w; 3]
          (take 3 (Np.strides (pixels img)))
          (map (fun p => nth p (Np.flat (pixels img)) 0%Z)
               (flat_map (fun b => map (fun k => b * 4 + k) [0; 1; 2])
                         (seq 0 (h * w))))).
Proof.
  intros Hsh. unfold Image.color, Np.getitem.
  rewrite (view_strides_color _ h w) by done.
  unfold Np.resolve. rewrite Hsh.
  assert (Np.complete (length [h; w; 4])
            [full_slice; full_slice; CSlice (BInt 0) (BInt 3) BNone]
          = Ok [full_slice; full_slice; CSlice (BInt 0) (BInt 3) BNone]) as ->
    by reflexivity.
  unfold full_slice. cbn [bind Np.select_all Np.select].
  rewrite !full_slice_indices.
  assert (Np.slice_indices 4 (BInt 0) (BInt 3) BNone = Ok [0; 1; 2]) as ->
    by reflexivity.
  cbn [bind fst snd map Np.kept_shape List.filter].
  by rewrite !length_seq, positions_channels.
Qed.

(** *** The steps of a negation *)

(** A reshape in place changes the shape and, at most, the strides. *)
Lemma set_shape_result a sh a' :
  Np.set_shape a sh = Ok a' ->
  Np.dtype a' = Np.dtype a /\ Np.shape a' = sh /\ Np.flat a' = Np.flat a /\
  Np.size_of sh = Np.size_of (Np.shape a).
Proof.
  unfold Np.set_shape.
  destruct (Nat.eqb_spec (Np.size_of sh) (Np.size_of (Np.shape a)))
    as [Hsize|]; [|discriminate]. cbn [negb].
  case_bool_decide as Hsh; [intros [= <-]; by rewrite Hsh|].
  destruct (Np.c_contiguous _ _); [by intros [= <-]|].
  destruct (Np.regroup _ _ _ _); [by intros [= <-]|discriminate].
Qed.

(** A square array of two dimensions takes a third of length 1 where it
    lies, whatever its strides. *)
Lemma set_shape_square dt n st fl :
  exists st',
    Np.set_shape (Np.mkNd dt [n; n] st fl) [n; n; 1]
    = Ok (Np.mkNd dt [n; n; 1] st' fl).
Proof.
  unfold Np.set_shape.
  cbn [Np.shape Np.strides Np.dtype Np.flat Np.size_of foldr].
  replace (n * (n * (1 * 1)) =? n * (n * 1)) with true
    by (symmetry; apply Nat.eqb_eq; lia).
  cbn [negb]. rewrite bool_decide_eq_false_2 by discriminate.
  destruct (Np.c_contiguous [n; n] st); [eauto|].
  unfold Np.squeeze.
  destruct st as [|s0 [|s1 st]]; cbn [zip zip_with List.filter fst];
    destruct (n =? 1); cbn [negb List.filter fst length Np.regroup Np.balance
                            Nat.add];
    rewrite ?Nat.eqb_refl; cbn [Np.regroup Np.balance length Nat.add];
    rewrite ?Nat.eqb_refl; eauto.
Qed.

(** The alpha channel of an [h] by [w] buffer with [h] other than [w] takes
    the shape (w, h, 1) where it lies if it has no element, one row or one
    column, or if its rows follow one another without a gap; if not, the
    assignment to its shape raises [AttributeError]. *)
Lemma set_shape_alpha dt h w s0 s1 fl :
  h <> w ->
  if alpha_reshapes h w s0 s1
  then exists st',
         Np.set_shape (Np.mkNd dt [h; w] [s0; s1] fl) [w; h; 1]
         = Ok (Np.mkNd dt [w; h; 1] st' fl)
  else Np.set_shape (Np.mkNd dt [h; w] [s0; s1] fl) [w; h; 1]
       = Raise AttributeError.
Proof.
  intros Hne. unfold alpha_reshapes, Np.set_shape.
  cbn [Np.shape Np.strides Np.dtype Np.flat Np.size_of foldr].
  replace (w * (h * (1 * 1)) =? h * (w * 1)) with true
    by (symmetry; apply Nat.eqb_eq; lia).
  cbn [negb]. rewrite bool_decide_eq_false_2 by discriminate.
  unfold Np.c_contiguous. cbn [existsb orb].
  destruct (Nat.eqb_spec h 0) as [->|Hh0]; [simpl; eauto|].
  destruct (Nat.eqb_spec w 0) as [->|Hw0].
  { rewrite Nat.mul_0_r. simpl. eauto. }
  replace (h * w =? 0) with false by (symmetry; apply Nat.eqb_neq; nia).
  replace (h =? w) with false by (symmetry; by apply Nat.eqb_neq).
  cbn [orb reverse rev_append zip zip_with Np.contiguous_from].
  unfold reverse. cbn [rev_append Np.contiguous_from].
  unfold Np.squeeze. cbn [zip zip_with List.filter fst].
  destruct (Nat.eqb_spec h 1) as [->|Hh1].
  - (* one row *)
    replace (w =? 1) with false by (symmetry; apply Nat.eqb_neq; lia).
    cbn [orb negb andb List.filter fst].
    destruct (s1 =? 1)%Z; [eauto|].
    cbn [length Nat.add Np.regroup Np.balance]. rewrite Nat.eqb_refl.
    cbn [Np.regroup]. eauto.
  - destruct (Nat.eqb_spec w 1) as [->|Hw1].
    + (* one column *)
      cbn [orb negb andb List.filter fst].
      destruct (s0 =? 1)%Z; [eauto|].
      cbn [length Nat.add Np.regroup Np.balance].
      replace (1 =? h) with false by (symmetry; apply Nat.eqb_neq; lia).
      replace (1 <? h) with true by (symmetry; apply Nat.ltb_lt; lia).
      cbn [Np.balance]. rewrite Nat.mul_1_l, Nat.eqb_refl.
      cbn [Np.regroup]. eauto.
    + (* several rows and columns *)
      cbn [orb negb andb List.filter fst]. rewrite andb_true_r.
      destruct ((s1 =? 1)%Z && (s0 =? 1 * Z.of_nat w)%Z) eqn:Hcontig.
      { apply andb_true_iff in Hcontig as [H1%Z.eqb_eq H0%Z.eqb_eq].
        replace (s0 =? Z.of_nat w * s1)%Z with true
          by (symmetry; apply Z.eqb_eq; lia).
        eauto. }
      cbn [length Nat.add Np.regroup Np.balance].
      replace (w =? h) with false by (symmetry; apply Nat.eqb_neq; lia).
      destruct (Nat.ltb_spec w h) as [Hlt|Hge].
      * cbn [Np.balance app].
        replace (w * h =? h) with false by (symmetry; apply Nat.eqb_neq; nia).
        replace (w * h <? h) with false by (symmetry; apply Nat.ltb_ge; nia).
        destruct (s0 =? Z.of_nat w * s1)%Z; [|reflexivity].
        cbn [Np.balance].
        replace (w * h =? h * w) with true by (symmetry; apply Nat.eqb_eq; lia).
        cbn [Np.regroup]. eauto.
      * destruct (s0 =? Z.of_nat w * s1)%Z; [|reflexivity].
        cbn [Np.balance].
        replace (w =? h * w) with false by (symmetry; apply Nat.eqb_neq; nia).
        replace (w <? h * w) with true by (symmetry; apply Nat.ltb_lt; nia).
        cbn [Np.balance app].
        replace (w * h =? h * w) with true by (symmetry; apply Nat.eqb_eq; lia).
        cbn [Np.regroup]. eauto.
Qed.

Lemma neg_fits v : (0 <= v < 256)%Z -> Np.fits_long (Image.neg v) = true.
Proof.
  intros Hv. unfold Np.fits_long, Image.neg.
  apply andb_true_iff. split; [apply Z.leb_le|apply Z.ltb_lt]; lia.
Qed.

(** The vectorized function returns the inverted elements when each of them
    fits a C [long]. *)
Lemma vectorize_neg dt sh st l :
  Forall (fun v => Np.fits_long (Image.neg v) = true) l ->
  Np.vectorize Image.neg (Np.mkNd dt sh st l)
  = Ok (Np.mkArr sh (map (fun v => Np.to_uint8 (Image.neg v)) l)).
Proof.
  intros Hl. unfold Np.vectorize. cbn [Np.flat Np.shape].
  assert (mapM (fun v => Np.of_int Np.uint8 (Image.neg v)) l
          = Ok (map (fun v => Np.to_uint8 (Image.neg v)) l)) as ->; [|done].
  induction Hl as [|v l Hv _ IH]; [done|]. cbn [mapM map].
  unfold Np.of_int at 1. rewrite Hv, IH. reflexivity.
Qed.

Lemma vectorize_result f a c :
  Np.vectorize f a = Ok c ->
  Np.dtype c = Np.uint8 /\ Np.shape c = Np.shape a /\
  length (Np.flat c) = length (Np.flat a).
Proof.
  unfold Np.vectorize.
  destruct (mapM _ _) as [vals|e] eqn:Hvals; [|discriminate].
  intros [= <-]. split; [done|]. split; [done|]. cbn [Np.flat].
  apply mapM_Forall2, Forall2_length in Hvals. done.
Qed.

Lemma nth_fits fl p :
  Forall (fun v => Np.fits_long (Image.neg v) = true) fl ->
  Np.fits_long (Image.neg (nth p fl 0%Z)) = true.
Proof.
  intros Hfl. destruct (nth_in_or_default p fl 0%Z) as [Hin| ->].
  - by apply (proj1 (Forall_forall _ _) Hfl), list_elem_of_In.
  - reflexivity.
Qed.

(** [-img] on a square buffer whose elements can be inverted: a new buffer
    of the inverted colours and the alphas. *)
Lemma neg_square_outcome (s : store) self img n :
  s !! self = Some img -> image_shape img n n ->
  Forall (fun v => Np.fits_long (Image.neg v) = true) (Np.flat (pixels img)) ->
  Image.__neg__ self s
  = (Ok (fresh (dom s)),
     <[fresh (dom s) :=
         mkImage (Np.mkNd (Np.promote Np.uint8 (Np.dtype (pixels img)))
                    [n; n; 4] (Np.c_strides [n; n; 4])
                    (negated (Np.flat (pixels img)) (n * n))) None]> s).
Proof.
  intros Hs Hsh Hfits. unfold Image.__neg__, mbind, lift, load. rewrite Hs.
  cbn [of_option]. rewrite (alpha_flat img n n Hsh).
  unfold Image.width, Image.height. rewrite Hsh.
  cbn [lookup list_lookup of_option].
  destruct (set_shape_square (Np.dtype (pixels img))
              n (take 2 (Np.strides (pixels img)))
              (map (fun p => nth p (Np.flat (pixels img)) 0%Z)
                   (flat_map (fun b => map (fun k => b * 4 + k) [3])
                             (seq 0 (n * n))))) as [st' ->].
  rewrite (color_flat img n n Hsh).
  rewrite vectorize_neg
    by (apply Forall_forall; intros v (p & -> & _)%list_elem_of_fmap;
        by apply nth_fits).
  unfold Np.append_axis2. cbn [Np.shape Np.flat Np.dtype].
  rewrite Nat.eqb_refl. cbn [andb].
  erewrite init_from_array by reflexivity. do 4 f_equal.
  rewrite map_map, !map_flat_map.
  replace (n * n) with (length (seq 0 (n * n))) at 1 by apply length_seq.
  rewrite interleave_flat_map by done. reflexivity.
Qed.

(** X21: on a buffer whose height and width differ, [-img] raises an
    exception and creates nothing.  It raises [AttributeError] when the
    alpha channel cannot take the shape (width, height, 1) where it lies,
    as that of a view on part of the columns of a larger buffer cannot.
    When it can, as that of a buffer made by [Image] itself, [-img] raises
    [ValueError]: the alphas no longer fit the colours, of shape (height,
    width, 3).  The elements are to be such that their inverses fit a C
    [long]. *)
Lemma neg_raises_unless_square (s : store) self img h w s0 s1 s2 :
  s !! self = Some img -> image_shape img h w ->
  Np.strides (pixels img) = [s0; s1; s2] -> h <> w ->
  Forall (fun v => Np.fits_long (Image.neg v) = true) (Np.flat (pixels img)) ->
  Image.__neg__ self s
  = (Raise (if alpha_reshapes h w s0 s1 then ValueError else AttributeError),
     s).
Proof.
  intros Hs Hsh Hst Hne Hfits. unfold Image.__neg__, mbind, lift, load.
  rewrite Hs. cbn [of_option]. rewrite (alpha_flat img h w Hsh).
  unfold Image.width, Image.height. rewrite Hsh, Hst.
  cbn [lookup list_lookup of_option take].
  pose proof (set_shape_alpha (Np.dtype (pixels img)) h w s0 s1
                (map (fun p => nth p (Np.flat (pixels img)) 0%Z)
                     (flat_map (fun b => map (fun k => b * 4 + k) [3])
                               (seq 0 (h * w)))) Hne) as Hre.
  destruct (alpha_reshapes h w s0 s1).
  - destruct Hre as [st' ->].
    rewrite (color_flat img h w Hsh).
    rewrite vectorize_neg
      by (apply Forall_forall; intros v (p & -> & _)%list_elem_of_fmap;
          by apply nth_fits).
    unfold Np.append_axis2. cbn [Np.shape].
    replace (h =? w) with false by (symmetry; by apply Nat.eqb_neq).
    reflexivity.
  - rewrite Hre. reflexivity.
Qed.

Lemma negated_length fl n : length (negated fl n) = n * 4.
Proof.
  unfold negated. by rewrite (flat_map_constant_length (c := 4)), length_seq.
Qed.

Lemma negated_lookup fl n b c :
  b < n -> c < 4 ->
  nth (b * 4 + c) (negated fl n) 0%Z
  = if c <? 3 then Np.to_uint8 (Image.neg (nth (b * 4 + c) fl 0%Z))
    else nth (b * 4 + c) fl 0%Z.
Proof.
  intros Hb Hc. rewrite nth_lookup. unfold negated.
  rewrite lookup_flat_map_cells by done.
  by destruct c as [|[|[|[|]]]]; try lia.
Qed.

Lemma neg_neg_uint8 v :
  (0 <= v < 256)%Z ->
  Np.to_uint8 (Image.neg v) = (255 - v)%Z /\
  Np.to_uint8 (Image.neg (Np.to_uint8 (Image.neg v))) = v.
Proof.
  intros Hv. unfold Image.neg.
  assert (H1 : Np.to_uint8 (Z.abs (v - 255)) = (255 - v)%Z)
    by (rewrite to_uint8_id; lia).
  split; [done|]. rewrite H1, to_uint8_id; lia.
Qed.

Lemma negated_range fl n :
  length fl = n * 4 -> Forall (fun v => (0 <= v < 256)%Z) fl ->
  Forall (fun v => (0 <= v < 256)%Z) (negated fl n).
Proof.
  intros Hlen Hfl. apply Forall_forall. intros v Hv.
  apply list_elem_of_lookup in Hv as [p Hp].
  assert (Hlt : p < n * 4)
    by (rewrite <- (negated_length fl n); by apply lookup_lt_Some in Hp).
  assert (Hin : forall q, q < n * 4 -> (0 <= nth q fl 0 < 256)%Z).
  { intros q Hq. rewrite nth_lookup.
    destruct (lookup_lt_is_Some_2 fl q) as [u Hu]; [lia|].
    rewrite Hu. simpl. by apply (Forall_lookup_1 _ _ _ _ Hfl Hu). }
  assert (Hv : nth p (negated fl n) 0%Z = v) by (by rewrite nth_lookup, Hp).
  rewrite <- Hv.
  replace p with (p / 4 * 4 + p mod 4)
    by (pose proof (Nat.div_mod_eq p 4); lia).
  pose proof (Nat.mod_upper_bound p 4).
  assert (p / 4 < n) by (apply Nat.Div0.div_lt_upper_bound; lia).
  rewrite negated_lookup by lia.
  destruct (p mod 4 <? 3).
  - unfold Np.to_uint8. apply Z.mod_pos_bound. lia.
  - apply Hin. pose proof (Nat.div_mod_eq p 4). lia.
Qed.

(** X20: on a square buffer of elements in 0..255, [-img] is a new buffer of
    the same shape; each colour element is 255 minus the original one and
    each alpha element the original one; negating the result gives the
    original elements back. *)
Lemma neg_square (s : store) self img n :
  s !! self = Some img -> image_shape img n n ->
  Forall (fun v => (0 <= v < 256)%Z) (Np.flat (pixels img)) ->
  length (Np.flat (pixels img)) = n * n * 4 ->
  exists px,
    let l := fresh (dom s) in
    let s' := <[l := mkImage px None]> s in
    Image.__neg__ self s = (Ok l, s') /\ s !! l = None /\
    s' !! self = Some img /\
    Np.shape px = [n; n; 4] /\ length (Np.flat px) = n * n * 4 /\
    (forall row col c, row < n -> col < n -> c < 4 ->
       nth (cell n row col c) (Np.flat px) 0%Z
       = if c <? 3
         then (255 - nth (cell n row col c) (Np.flat (pixels img)) 0%Z)%Z
         else nth (cell n row col c) (Np.flat (pixels img)) 0%Z) /\
    exists px2,
      Image.__neg__ l s'
      = (Ok (fresh (dom s')), <[fresh (dom s') := mkImage px2 None]> s') /\
      Np.shape px2 = [n; n; 4] /\
      forall row col c, row < n -> col < n -> c < 4 ->
        nth (cell n row col c) (Np.flat px2) 0%Z
        = nth (cell n row col c) (Np.flat (pixels img)) 0%Z.
Proof.
  intros Hs Hsh Hrange Hlen.
  set (fl := Np.flat (pixels img)) in *.
  assert (Hin : forall p, p < n * n * 4 -> (0 <= nth p fl 0 < 256)%Z).
  { intros p Hp. rewrite nth_lookup.
    destruct (lookup_lt_is_Some_2 fl p) as [v Hv]; [lia|].
    rewrite Hv. simpl. by apply (Forall_lookup_1 _ _ _ _ Hrange Hv). }
  assert (Hcell : forall row col, row < n -> col < n -> row * n + col < n * n)
    by (intros; nia).
  assert (Hfits : forall l : list Z,
            Forall (fun v => (0 <= v < 256)%Z) l ->
            Forall (fun v => Np.fits_long (Image.neg v) = true) l).
  { intros l Hl. eapply Forall_impl; [exact Hl|]. intros v. apply neg_fits. }
  set (dt := Np.promote Np.uint8 (Np.dtype (pixels img))).
  set (px := Np.mkNd dt [n; n; 4] (Np.c_strides [n; n; 4])
               (negated fl (n * n))).
  exists px. cbv zeta.
  split; [|split; [apply fresh_loc_unused|split; [|split; [done|split]]]].
  - by apply neg_square_outcome; [..|apply Hfits].
  - by apply alloc_keeps.
  - simpl. apply negated_length.
  - split.
    + intros row col c Hr Hc H4. unfold cell. simpl Np.flat.
      rewrite negated_lookup by auto.
      destruct (c <? 3); [|done].
      apply neg_neg_uint8, Hin. specialize (Hcell row col Hr Hc). lia.
    + exists (Np.mkNd (Np.promote Np.uint8 dt) [n; n; 4]
                (Np.c_strides [n; n; 4])
                (negated (negated fl (n * n)) (n * n))).
      split; [|split; [reflexivity|]].
      * apply (neg_square_outcome _ _ (mkImage px None) n);
          [apply lookup_insert_eq|reflexivity|].
        apply Hfits, negated_range; [lia|done].
      * intros row col c Hr Hc H4. unfold cell. simpl.
        specialize (Hcell row col Hr Hc).
        rewrite !negated_lookup by auto.
        destruct (Nat.ltb_spec c 3) as [H3|H3]; [|done].
        apply neg_neg_uint8, Hin. lia.
Qed.

(** *** [RuntimeError] is raised by the missing domain only *)

Lemma bind_no_runtime_error {A B} (r : result A) (k : A -> result B) :
  no_runtime_error r -> (forall a, no_runtime_error (k a)) ->
  no_runtime_error (bind r k).
Proof. intros Hr Hk. destruct r as [a|e]; [apply Hk|]. simpl. congruence. Qed.

Lemma of_option_no_runtime_error {A} e (o : option A) :
  e <> RuntimeError -> no_runtime_error (of_option e o).
Proof. intros He. destruct o; simpl; unfold no_runtime_error; congruence. Qed.

Lemma mapM_no_runtime_error {A B} (f : A -> result B) l :
  (forall a, no_runtime_error (f a)) -> no_runtime_error (mapM f l).
Proof.
  intros Hf. induction l as [|a l IH]; simpl; [done|].
  apply bind_no_runtime_error; [apply Hf|]. intros b.
  apply bind_no_runtime_error; [apply IH|]. done.
Qed.

Lemma select_no_runtime_error len c : no_runtime_error (Np.select len c).
Proof.
  destruct c as [z|q|start stop step|]; simpl.
  - unfold Np.int_index, no_runtime_error. by destruct (_ && _).
  - unfold no_runtime_error. discriminate.
  - apply bind_no_runtime_error; [|unfold no_runtime_error; discriminate].
    unfold Np.slice_indices, no_runtime_error.
    destruct step as [|[| |]|]; try discriminate;
      destruct start, stop; discriminate.
  - unfold no_runtime_error. discriminate.
Qed.

Lemma select_all_no_runtime_error dims cs :
  no_runtime_error (Np.select_all dims cs).
Proof.
  revert cs. induction dims as [|d dims IH]; intros [|c cs]; simpl; try done.
  apply bind_no_runtime_error; [apply select_no_runtime_error|]. intros s.
  apply bind_no_runtime_error; [apply IH|]. done.
Qed.

Lemma getitem_no_runtime_error a cs : no_runtime_error (Np.getitem a cs).
Proof.
  unfold Np.getitem, Np.resolve.
  apply bind_no_runtime_error; [|done].
  apply bind_no_runtime_error.
  - unfold Np.complete. by repeat case_match.
  - intros full. apply bind_no_runtime_error; [|done].
    apply select_all_no_runtime_error.
Qed.

Lemma get_by_pixels_no_runtime_error (s : store) self idx :
  no_runtime_error (fst (Image._get_by_pixels self idx s)).
Proof.
  unfold Image._get_by_pixels, mbind, lift, load, ret.
  destruct (s !! self) as [img|]; simpl; [|done].
  generalize (getitem_no_runtime_error (pixels img) idx).
  destruct (Np.getitem (pixels img) idx) as [px|e]; simpl;
    [intros _|unfold no_runtime_error; congruence].
  destruct (length (Np.shape px) =? 3); [|done].
  unfold Image.fromarray, Image.__init__, alloc, lift.
  by destruct (_ || _).
Qed.

Lemma by_distance_no_runtime_error coords b :
  no_runtime_error (Image.by_distance coords b).
Proof.
  unfold Image.by_distance.
  assert (Hd : forall x, no_runtime_error (Image.distance x b)).
  { intros x. unfold Image.distance, float_of_int.
    destruct b; [done| |done]. by destruct (is_infinity _). }
  destruct b; [done|..];
    (apply bind_no_runtime_error; [|done]);
    apply mapM_no_runtime_error; intros ix;
    (apply bind_no_runtime_error; [apply Hd|done]).
Qed.

(** The steps of a read by mathematical points raise [RuntimeError] only
    when the call of the domain function does. *)
Lemma math_slices_runtime_error img d xstart xstop ystart ystop :
  Image.math_slices img d xstart xstop ystart ystop = Raise RuntimeError <->
  exists w h, Image.width img = Ok w /\ Image.height img = Ok h /\
              d w h = Raise RuntimeError.
Proof.
  unfold Image.math_slices.
  destruct (Image.width img) as [w|e] eqn:Hw.
  2:{ split; [|by intros (? & ? & ? & _)]. revert Hw. unfold Image.width.
      destruct (_ !! 1); simpl; congruence. }
  destruct (Image.height img) as [h|e] eqn:Hh.
  2:{ split; [|by intros (? & ? & _ & ? & _)]. revert Hh. unfold Image.height.
      destruct (_ !! 0); simpl; congruence. }
  cbn [bind]. destruct (d w h) as [g|e] eqn:Hg; cbn [bind].
  2:{ split; [intros [= ->]; by exists w, h|].
      intros (? & ? & [= <-] & [= <-] & Hr). congruence. }
  split; [|intros (? & ? & [= <-] & [= <-] & Hr); congruence].
  assert (Hfirst : forall l, no_runtime_error (Image.first_index l)).
  { intros [|[? [?|]] ?]; done. }
  intros Hr. exfalso. revert Hr.
  repeat (apply bind_no_runtime_error;
          [first [by apply of_option_no_runtime_error
                 |apply Hfirst
                 |apply by_distance_no_runtime_error
                 |apply mapM_no_runtime_error; intros it;
                  by apply of_option_no_runtime_error]
          |intros ?]).
  done.
Qed.

(** X22: for a mathematical index of at least two components, a read raises
    [RuntimeError] if no domain is attached; with a domain attached it does
    so only when its first two components are slices and the domain
    function, called with the width and the height, raises [RuntimeError]
    itself, as any exception of the domain function goes through the read.
    So with a domain function that does not raise [RuntimeError], the read
    raises it if and only if no domain is attached. *)
Lemma getitem_runtime_error_iff (s : store) self img index idx :
  s !! self = Some img ->
  Image._flip_index index = Ok idx -> Image._is_pixel_addr idx = false ->
  (fst (Image.__getitem__ self index s) = Raise RuntimeError <->
   _domain img = None \/
   exists d c0 c1 rest w h,
     _domain img = Some d /\ idx = c0 :: c1 :: rest /\
     is_slice c0 && is_slice c1 = true /\
     Image.width img = Ok w /\ Image.height img = Ok h /\
     d w h = Raise RuntimeError) /\
  ((forall d w h, _domain img = Some d -> d w h <> Raise RuntimeError) ->
   (fst (Image.__getitem__ self index s) = Raise RuntimeError <->
    _domain img = None)).
Proof.
  intros Hs Hflip Hmath.
  assert (Hiff : fst (Image.__getitem__ self index s) = Raise RuntimeError <->
                 _domain img = None \/
                 exists d c0 c1 rest w h,
                   _domain img = Some d /\ idx = c0 :: c1 :: rest /\
                   is_slice c0 && is_slice c1 = true /\
                   Image.width img = Ok w /\ Image.height img = Ok h /\
                   d w h = Raise RuntimeError).
  { split.
    - unfold Image.__getitem__, mbind, lift, load.
      rewrite Hflip, Hmath, Hs. cbn [of_option].
      destruct (_domain img) as [d|]; [|by left]. intros Hr. right.
      destruct idx
        as [|[| |ystart ystop ystep|] [|[| |xstart xstop xstep|] rest]];
        try discriminate.
      destruct (Image.math_slices img d xstart xstop ystart ystop)
        as [sl|e] eqn:Hsl.
      + by apply get_by_pixels_no_runtime_error in Hr.
      + simpl in Hr. injection Hr as ->.
        apply math_slices_runtime_error in Hsl as (w & h & Hw & Hh & Hd).
        by exists d, (CSlice ystart ystop ystep), (CSlice xstart xstop xstep),
                  rest, w, h.
    - intros [Hd|(d & c0 & c1 & rest & w & h & Hd & -> & Hsl & Hw & Hh & Hr)].
      + by rewrite (getitem_math_no_domain s self img index idx).
      + unfold Image.__getitem__, mbind, lift, load.
        rewrite Hflip, Hmath, Hs. cbn [of_option]. rewrite Hd.
        destruct c0 as [| |ystart ystop ystep|]; try discriminate.
        destruct c1 as [| |xstart xstop xstep|]; try discriminate.
        assert (Image.math_slices img d xstart xstop ystart ystop
                = Raise RuntimeError) as ->; [|done].
        apply math_slices_runtime_error. by exists w, h. }
  split; [exact Hiff|]. intros Hnot. rewrite Hiff. split; [|by left].
  intros [Hd|(d & c0 & c1 & rest & w & h & Hd & _ & _ & _ & _ & Hr)]; [done|].
  by destruct (Hnot d w h Hd).
Qed.

(** * Further properties of the module *)

(** ** Index translation *)

(** X1: on a tuple of fewer than two components [_flip_index] raises
    [IndexError]; on any other tuple it swaps the first two components,
    keeps the rest, and applied again gives the tuple back. *)
Theorem flip_index_tuple cs :
  (length cs < 2 -> Image._flip_index (ITuple cs) = Raise IndexError) /\
  (2 <= length cs ->
   exists idx,
     Image._flip_index (ITuple cs) = Ok idx /\
     Image._flip_index (ITuple idx) = Ok cs /\
     idx !! 0 = cs !! 1 /\ idx !! 1 = cs !! 0 /\ drop 2 idx = drop 2 cs).
Proof.
  split.
  - destruct cs as [|c0 [|c1 rest]]; simpl; intros Hlen; try reflexivity. lia.
  - destruct cs as [|c0 [|c1 rest]]; simpl; intros Hlen; try lia.
    exists (c1 :: c0 :: rest).
    split; [by destruct rest|]. split; [by destruct rest|]. done.
Qed.

Lemma flip_index_tuple_witness :
  Image._flip_index (ITuple [CInt 1; CInt 2; CInt 3])
  = Ok [CInt 2; CInt 1; CInt 3] /\
  Image._flip_index (ITuple [CInt 7]) = Raise IndexError.
Proof.
  split.
  - destruct (flip_index_tuple [CInt 1; CInt 2; CInt 3]) as [_ H].
    destruct H as (idx & H1 & H2 & _); [simpl; lia|].
    rewrite H1. simpl in H1. by injection H1 as <-.
  - apply (flip_index_tuple [CInt 7]). simpl. lia.
Defined.

(** ** Layers *)

(** X2: indexing a [LayeredImage] of [n] layers by an integer [z] returns the
    layer at [z], or at [z + n] when [z] is negative, if [-n <= z < n], and
    raises [IndexError] otherwise; a key that is not an integer returns the
    text ['Other methods coming soon'] and raises nothing.  The store is
    never changed. *)
Theorem layered_getitem_outcome (s : store) li z :
  let n := Z.of_nat (length (_layers li)) in
  ((- n <= z < n)%Z ->
   exists l, _layers li !! Z.to_nat (z mod n) = Some l /\
     LayeredImage.__getitem__ li (KInt z) s = (Ok (Layer l), s)) /\
  (~ (- n <= z < n)%Z ->
   LayeredImage.__getitem__ li (KInt z) s = (Raise IndexError, s)) /\
  LayeredImage.__getitem__ li KOther s
  = (Ok (Message "Other methods coming soon"), s).
Proof.
  intros n. split; [|split; [|reflexivity]].
  - intros Hz.
    destruct (int_index_in_range (length (_layers li)) z Hz) as [Hi Hlt].
    assert (Hpos : axis_pos (length (_layers li)) z = Z.to_nat (z mod n)).
    { unfold axis_pos. fold n. destruct (Z.ltb_spec z 0).
      - f_equal. apply Z.mod_unique with (-1)%Z; lia.
      - f_equal. symmetry. apply Z.mod_small. lia. }
    rewrite <- Hpos.
    destruct (lookup_lt_is_Some_2 (_layers li) _ Hlt) as [l Hl].
    exists l. split; [done|].
    unfold LayeredImage.__getitem__, mbind, lift, ret. rewrite Hi, Hl.
    reflexivity.
  - intros Hz. unfold LayeredImage.__getitem__, mbind, lift, Np.int_index.
    fold n.
    destruct ((- n <=? z)%Z && (z <? n)%Z) eqn:Hb; [|reflexivity].
    apply andb_true_iff in Hb as [H1 H2]. apply Z.leb_le in H1.
    apply Z.ltb_lt in H2. lia.
Qed.

Lemma layered_getitem_outcome_witness :
  LayeredImage.__getitem__ (mkLayered [5; 6; 7]%positive None None)
    (KInt (-1)) ∅
  = (Ok (Layer 7%positive), ∅) /\
  LayeredImage.__getitem__ (mkLayered [5; 6; 7]%positive None None)
    (KInt 3) ∅
  = (Raise IndexError, ∅).
Proof.
  pose proof (layered_getitem_outcome ∅
                (mkLayered [5; 6; 7]%positive None None) (-1)) as (H1 & _).
  pose proof (layered_getitem_outcome ∅
                (mkLayered [5; 6; 7]%positive None None) 3) as (_ & H2 & _).
  split.
  - destruct H1 as (l & Hl & Hget); [simpl; lia|].
    simpl in Hl. injection Hl as <-. exact Hget.
  - apply H2. simpl. lia.
Defined.

(** X3: [LayeredImage.fromlist(imgs)] raises [IndexError] on an empty list;
    on a list whose first element is an [Image] it returns a container whose
    layers are the very objects of the list, in order, and whose width and
    height are those of the first one, whatever the sizes of the others; it
    creates and modifies nothing. *)
Theorem fromlist_outcome (s : store) first rest img h w :
  s !! first = Some img -> image_shape img h w ->
  LayeredImage.fromlist [] s = (Raise IndexError, s) /\
  exists li,
    LayeredImage.fromlist (first :: rest) s = (Ok li, s) /\
    _layers li = first :: rest /\
    LayeredImage.nlayers li = S (length rest) /\
    LayeredImage.width li = Some (Z.of_nat w) /\
    LayeredImage.height li = Some (Z.of_nat h) /\
    LayeredImage.__getitem__ li (KInt 0) s = (Ok (Layer first), s).
Proof.
  intros Hs Hsh. split; [reflexivity|].
  exists (mkLayered (first :: rest) (Some (Z.of_nat w)) (Some (Z.of_nat h))).
  split; [|by repeat split].
  unfold LayeredImage.fromlist, LayeredImage.__init__, mbind, lift, load, ret.
  simpl. rewrite Hs. simpl.
  unfold Image.width, Image.height. rewrite Hsh. reflexivity.
Qed.

Lemma fromlist_outcome_witness :
  let s : store :=
    {[ 1%positive := blank 3 2 ]} in
  exists li,
    LayeredImage.fromlist [1%positive; 9%positive] s = (Ok li, s) /\
    LayeredImage.width li = Some 3%Z /\ LayeredImage.height li = Some 2%Z.
Proof.
  intros s.
  destruct (fromlist_outcome s 1%positive [9%positive] (blank 3 2) 2 3)
    as (_ & li & Hrun & _ & _ & Hw & Hh & _).
  - apply lookup_singleton_eq.
  - reflexivity.
  - exists li. split; [exact Hrun|]. split; [exact Hw|exact Hh].
Defined.

(** ** Addresses outside the buffer *)

Lemma int_index_out_of_range len z :
  ~ (- Z.of_nat len <= z < Z.of_nat len)%Z ->
  Np.int_index len z = Raise IndexError.
Proof.
  intros Hz. unfold Np.int_index.
  destruct ((- Z.of_nat len <=? z)%Z && (z <? Z.of_nat len)%Z) eqn:Hb;
    [|reflexivity].
  apply andb_true_iff in Hb as [H1 H2]. apply Z.leb_le in H1.
  apply Z.ltb_lt in H2. lia.
Qed.

Lemma resolve_out_of_bounds a h w y x :
  Np.shape a = [h; w; 4] ->
  ~ (- Z.of_nat w <= x < Z.of_nat w)%Z \/ ~ (- Z.of_nat h <= y < Z.of_nat h)%Z ->
  Np.resolve a [CInt y; CInt x] = Raise IndexError.
Proof.
  intros Hsh Hout. unfold Np.resolve. rewrite Hsh.
  assert (Np.complete (length [h; w; 4]) [CInt y; CInt x]
          = Ok [CInt y; CInt x; full_slice]) as -> by reflexivity.
  cbn [bind Np.select_all Np.select].
  destruct (decide (- Z.of_nat h <= y < Z.of_nat h)%Z) as [Hy|Hy].
  - destruct (int_index_in_range h y Hy) as [-> _]. cbn [bind].
    rewrite int_index_out_of_range by tauto. reflexivity.
  - by rewrite int_index_out_of_range.
Qed.

(** X4: reading or writing the pixel at an address [(x, y)] outside the
    buffer, that is with [x] outside [-width .. width - 1] or [y] outside
    [-height .. height - 1], raises [IndexError] and changes nothing. *)
Theorem pixel_out_of_bounds (s : store) self img h w x y v :
  s !! self = Some img -> image_shape img h w ->
  ~ (- Z.of_nat w <= x < Z.of_nat w)%Z \/ ~ (- Z.of_nat h <= y < Z.of_nat h)%Z ->
  Image.__getitem__ self (ITuple [CInt x; CInt y]) s = (Raise IndexError, s) /\
  Image.__setitem__ self (ITuple [CInt x; CInt y]) v s = (Raise IndexError, s).
Proof.
  intros Hs Hsh Hout. split.
  - unfold Image.__getitem__, Image._get_by_pixels, mbind, lift, load. simpl.
    rewrite Hs. simpl. unfold Np.getitem.
    by rewrite (resolve_out_of_bounds _ h w).
  - unfold Image.__setitem__, mbind, lift, load. simpl.
    rewrite Hs. simpl. unfold Np.setitem.
    by rewrite (resolve_out_of_bounds _ h w).
Qed.

Lemma pixel_out_of_bounds_witness :
  let s : store := {[ 1%positive := blank 3 2 ]} in
  Image.__getitem__ 1%positive (ITuple [CInt 3; CInt 0]) s
  = (Raise IndexError, s) /\
  Image.__setitem__ 1%positive (ITuple [CInt 3; CInt 0]) [1; 2; 3]%Z s
  = (Raise IndexError, s).
Proof.
  intros s. apply (pixel_out_of_bounds s 1%positive (blank 3 2) 2 3).
  - apply lookup_singleton_eq.
  - reflexivity.
  - left. simpl. lia.
Defined.

(** ** Writes by mathematical points *)

Lemma select_float_slice len start stop step :
  Image.is_float_bound start || Image.is_float_bound stop = true ->
  exists e, Np.select len (CSlice start stop step) = Raise e.
Proof.
  intros Hf. simpl. unfold Np.slice_indices.
  destruct step as [|[| |]|]; simpl; eauto;
    destruct start; simpl; eauto; destruct stop; simpl; eauto;
    discriminate.
Qed.

Lemma select_all_float_slice dims cs start stop step :
  length cs <= length dims ->
  CSlice start stop step ∈ cs ->
  Image.is_float_bound start || Image.is_float_bound stop = true ->
  exists e, Np.select_all dims cs = Raise e.
Proof.
  intros Hlen Hin Hf. revert dims Hlen.
  induction cs as [|c cs IH]; intros [|d dims] Hlen;
    [by apply elem_of_nil in Hin..|simpl in Hlen; lia|].
  simpl. apply elem_of_cons in Hin as [<-|Hin].
  - destruct (select_float_slice d start stop step Hf) as [e ->]. eauto.
  - destruct (Np.select d c) as [sel|e]; [|eauto]. simpl.
    destruct (IH Hin dims) as [e ->]; [simpl in Hlen; lia|]. eauto.
Qed.

Lemma expand_keeps missing cs c :
  c ∈ cs -> c <> CEllipsis -> c ∈ Np.expand missing cs.
Proof.
  intros Hin Hc. induction cs as [|c' cs IH]; [done|].
  apply elem_of_cons in Hin as [<-|Hin].
  - destruct c; try done; left.
  - destruct c'; simpl; try (right; by apply IH).
    apply elem_of_app. by right.
Qed.

Lemma expand_length missing cs :
  length (List.filter Np.is_ellipsis cs) = 1 ->
  length (Np.expand missing cs) = length cs - 1 + missing.
Proof.
  induction cs as [|c cs IH]; simpl; [discriminate|].
  destruct c; simpl; intros Hd; try (rewrite IH by done;
    destruct cs; [simpl in Hd; discriminate|simpl; lia]).
  rewrite length_app, length_replicate. lia.
Qed.

Lemma filter_ellipsis_length cs :
  length (List.filter Np.is_ellipsis cs) <= length cs.
Proof.
  induction cs as [|c cs IH]; simpl; [lia|]. destruct (Np.is_ellipsis c);
    simpl; lia.
Qed.

Lemma complete_keeps ndim cs full c :
  Np.complete ndim cs = Ok full -> c ∈ cs -> c <> CEllipsis ->
  c ∈ full /\ length full <= ndim.
Proof.
  unfold Np.complete. intros Hc Hin Hne.
  pose proof (filter_ellipsis_length cs) as Hle.
  destruct (existsb Np.is_float cs); [discriminate|].
  destruct (Nat.ltb_spec 1 (length (List.filter Np.is_ellipsis cs)))
    as [Hd1|Hd1]; [discriminate|].
  destruct (Nat.ltb_spec ndim
              (length cs - length (List.filter Np.is_ellipsis cs)))
    as [Hg|Hg]; [discriminate|].
  destruct (Nat.eqb_spec (length (List.filter Np.is_ellipsis cs)) 0)
    as [Hd0|Hd0]; injection Hc as <-.
  - split; [apply elem_of_app; by left|].
    rewrite length_app, length_replicate. lia.
  - split; [by apply expand_keeps|]. rewrite expand_length by lia. lia.
Qed.

Lemma resolve_float_bearing a cs :
  Image._is_pixel_addr cs = false -> exists e, Np.resolve a cs = Raise e.
Proof.
  intros Hmath. unfold Np.resolve.
  destruct (Np.complete (length (Np.shape a)) cs) as [full|e] eqn:Hc;
    [|eauto]. cbn [bind].
  assert (Hex : exists c, c ∈ cs /\ float_bearing c = true).
  { rewrite is_pixel_addr_forallb in Hmath. clear Hc.
    induction cs as [|c cs IH]; [discriminate|]. simpl in Hmath.
    destruct (float_bearing c) eqn:Hf.
    - exists c. split; [left|done].
    - destruct (IH Hmath) as (c' & Hin & Hf'). exists c'. split; [by right|done]. }
  destruct Hex as (c & Hin & Hf).
  destruct c as [z|q|start stop step|]; try discriminate.
  - exfalso. unfold Np.complete in Hc.
    assert (existsb Np.is_float cs = true) as Hfl.
    { apply existsb_exists. exists (CFloat q).
      split; [by apply list_elem_of_In|done]. }
    rewrite Hfl in Hc. discriminate.
  - destruct (complete_keeps _ _ _ _ Hc Hin) as [Hfull Hlen]; [done|].
    destruct (select_all_float_slice (Np.shape a) full start stop step)
      as [e ->]; [done..|]. eauto.
Qed.

(** X5: a write whose index has a float component, or a slice that starts or
    stops at a float, never succeeds: it raises and leaves every object as
    it was.  Writes by mathematical points do not exist. *)
Theorem setitem_mathematical_raises (s : store) self index idx v :
  Image._flip_index index = Ok idx -> Image._is_pixel_addr idx = false ->
  exists e, Image.__setitem__ self index v s = (Raise e, s).
Proof.
  intros Hflip Hmath. unfold Image.__setitem__, mbind, lift, load.
  rewrite Hflip. destruct (s !! self) as [img|]; simpl; [|eauto].
  unfold Np.setitem.
  destruct (resolve_float_bearing (pixels img) idx Hmath) as [e ->]. eauto.
Qed.

Lemma setitem_mathematical_raises_witness :
  let s : store := {[ 1%positive := blank 3 2 ]} in
  exists e,
    Image.__setitem__ 1%positive
      (ITuple [CSlice (BFloat 0.5) BNone BNone; CInt 0]) [1; 2; 3]%Z s
    = (Raise e, s).
Proof.
  intros s.
  apply (setitem_mathematical_raises s 1%positive
           (ITuple [CSlice (BFloat 0.5) BNone BNone; CInt 0])
           [CInt 0; CSlice (BFloat 0.5) BNone BNone]); reflexivity.
Defined.

(** ** Writing the same value to many pixels *)

Lemma scatter_app fl ps1 ps2 v1 v2 :
  length ps1 = length v1 ->
  Np.scatter fl (ps1 ++ ps2) (v1 ++ v2)
  = Np.scatter (Np.scatter fl ps1 v1) ps2 v2.
Proof.
  intros Hlen. unfold Np.scatter.
  by rewrite zip_with_app, fold_left_app.
Qed.

Lemma channels_NoDup (ks : list nat) p :
  NoDup ks -> NoDup (map (fun k => p * 4 + k) ks).
Proof.
  intros Hks.
  assert (Hinj : Inj (=) (=) (fun k => p * 4 + k)) by (intros k1 k2; lia).
  by apply (NoDup_fmap_2 (fun k => p * 4 + k)).
Qed.

Lemma not_in_channels (ks : list nat) cells q k :
  Forall (fun k => k < 4) ks -> k < 4 ->
  q ∉ cells \/ k ∉ ks ->
  q * 4 + k ∉ flat_map (fun p => map (fun k => p * 4 + k) ks) cells.
Proof.
  intros Hks Hk Hout Hin.
  apply list_elem_of_In, in_flat_map in Hin as (p & Hp & Hin).
  apply in_map_iff in Hin as (k' & Heq & Hk').
  apply list_elem_of_In in Hp, Hk'.
  assert (k' < 4) by (by apply (proj1 (Forall_forall _ _) Hks)).
  assert (p = q /\ k' = k) as [-> ->] by lia.
  destruct Hout; done.
Qed.

Lemma scatter_cells_miss (ks : list nat) cells vals fl q k :
  Forall (fun k => k < 4) ks -> k < 4 ->
  q ∉ cells \/ k ∉ ks ->
  Np.scatter fl (flat_map (fun p => map (fun k => p * 4 + k) ks) cells) vals
    !! (q * 4 + k)
  = fl !! (q * 4 + k).
Proof.
  intros Hks Hk Hout. apply scatter_lookup_other.
  by apply not_in_channels.
Qed.

Lemma scatter_cells_hit (ks : list nat) row cells fl q i k v :
  NoDup ks -> length row = length ks -> Forall (fun k => k < 4) ks ->
  q ∈ cells -> ks !! i = Some k -> row !! i = Some v ->
  q * 4 + k < length fl ->
  Np.scatter fl (flat_map (fun p => map (fun k => p * 4 + k) ks) cells)
             (concat (replicate (length cells) row)) !! (q * 4 + k)
  = Some v.
Proof.
  intros Hnd Hlen Hks Hq Hi Hv. revert fl.
  assert (Hk : k < 4).
  { apply (proj1 (Forall_forall _ _) Hks). by apply list_elem_of_lookup_2 in Hi. }
  induction cells as [|p cells IH]; intros fl Hfl;
    [by apply elem_of_nil in Hq|].
  simpl. rewrite scatter_app by (rewrite length_map; lia).
  destruct (decide (q ∈ cells)) as [Hin|Hnin].
  - apply IH; [done|]. by rewrite scatter_length.
  - apply elem_of_cons in Hq as [->|Hq]; [|done].
    rewrite scatter_cells_miss by auto.
    apply (scatter_lookup _ _ _ i); [by apply channels_NoDup| |done|done].
    by rewrite list_lookup_fmap, Hi.
Qed.

(** A pixel after the same four values were written to the cells [cells]. *)
Lemma pixel_at_scatter_cells a a0 cells row w r c :
  Np.flat a
  = Np.scatter (Np.flat a0)
      (flat_map (fun p => map (fun k => p * 4 + k) [0; 1; 2; 3]) cells)
      (concat (replicate (length cells) row)) ->
  length row = 4 -> (r * w + c) * 4 + 3 < length (Np.flat a0) ->
  pixel_at a w r c
  = if decide (r * w + c ∈ cells) then row else pixel_at a0 w r c.
Proof.
  intros Ha Hrow Hfl. unfold pixel_at, cell. rewrite Ha.
  set (fl := Np.flat a0) in *.
  assert (Hks : Forall (fun k => k < 4) [0; 1; 2; 3])
    by (repeat constructor; lia).
  assert (Hnd : NoDup [0; 1; 2; 3]) by (apply (NoDup_seq 0 4)).
  remember (Np.scatter fl
              (flat_map (fun p => map (fun k => p * 4 + k) [0; 1; 2; 3]) cells)
              (concat (replicate (length cells) row))) as fl' eqn:Efl.
  destruct (decide (r * w + c ∈ cells)) as [Hin|Hnin].
  - assert (Hget : forall k v, k < 4 -> row !! k = Some v ->
              nth ((r * w + c) * 4 + k) fl' 0%Z = v).
    { intros k v Hk Hv. rewrite nth_lookup, Efl.
      rewrite (scatter_cells_hit _ _ _ _ _ k k v); try done; [|lia].
      by destruct k as [|[|[|[|]]]]; try lia. }
    assert (Erow : exists v0 v1 v2 v3, row = [v0; v1; v2; v3]).
    { destruct row as [|v0 [|v1 [|v2 [|v3 [|]]]]]; try discriminate.
      by exists v0, v1, v2, v3. }
    destruct Erow as (v0 & v1 & v2 & v3 & Erow).
    rewrite Erow at 1. rewrite Erow in Hget. simpl map.
    by rewrite (Hget 0 v0), (Hget 1 v1), (Hget 2 v2), (Hget 3 v3)
      by (lia || done).
  - assert (Hget : forall k, k < 4 ->
              nth ((r * w + c) * 4 + k) fl' 0%Z
              = nth ((r * w + c) * 4 + k) fl 0%Z).
    { intros k Hk. rewrite !nth_lookup, Efl.
      by rewrite scatter_cells_miss by auto. }
    simpl map. by rewrite !Hget by lia.
Qed.

Lemma slice_indices_range len a b :
  (0 <= a <= b)%Z -> (b <= Z.of_nat len)%Z ->
  Np.slice_indices len (BInt a) (BInt b) BNone
  = Ok (seq (Z.to_nat a) (Z.to_nat (b - a))).
Proof.
  intros Hab Hb. unfold Np.slice_indices, Np.clamp_bound.
  cbn [bind Z.ltb Z.compare].
  replace (a <? 0)%Z with false by (symmetry; apply Z.ltb_ge; lia).
  replace (b <? 0)%Z with false by (symmetry; apply Z.ltb_ge; lia).
  rewrite !Z.min_l by lia. rewrite Z.div_1_r.
  replace (Z.to_nat (if (a <? b)%Z then (b - a - 1 + 1)%Z else 0%Z))
    with (Z.to_nat (b - a)) by (destruct (Z.ltb_spec a b); lia).
  f_equal.
  transitivity (Nat.add (Z.to_nat a) <$> seq 0 (Z.to_nat (b - a))).
  - apply map_ext_in. intros k Hk. apply in_seq in Hk. lia.
  - rewrite fmap_add_seq. f_equal. lia.
Qed.

Lemma flat_map_flat_map {B C D} (g : C -> list D) (f : B -> list C) l :
  flat_map g (flat_map f l) = flat_map (fun x => flat_map g (f x)) l.
Proof.
  induction l as [|x l IH]; simpl; [done|]. by rewrite flat_map_app, IH.
Qed.

Lemma flat_map_map {B C D} (g : C -> list D) (f : B -> C) l :
  flat_map g (map f l) = flat_map (fun x => g (f x)) l.
Proof. induction l as [|x l IH]; simpl; [done|]. by rewrite IH. Qed.

(** The offsets of the channels [ks] of the pixels in the rows [rows] and
    the columns [cols]. *)
Lemma positions_region h w rows cols ks :
  Np.positions [h; w; 4] [rows; cols; ks] 0
  = flat_map (fun p => map (fun k => p * 4 + k) ks)
             (flat_map (fun r => map (fun c => r * w + c) cols) rows).
Proof.
  cbn [Np.positions]. rewrite flat_map_flat_map.
  apply flat_map_ext. intros r. rewrite flat_map_map.
  apply flat_map_ext. intros c. by rewrite flat_map_singleton.
Qed.

Lemma in_region w rows cols row col :
  Forall (fun c => c < w) cols -> col < w ->
  row * w + col ∈ flat_map (fun r => map (fun c => r * w + c) cols) rows
  <-> row ∈ rows /\ col ∈ cols.
Proof.
  intros Hcols Hcol. rewrite list_elem_of_In, in_flat_map. split.
  - intros (r & Hr & Hin). apply in_map_iff in Hin as (c & Heq & Hc).
    apply list_elem_of_In in Hr, Hc.
    assert (c < w) by (by apply (proj1 (Forall_forall _ _) Hcols)).
    apply Nat.mul_split_l in Heq as [-> ->]; done.
  - intros [Hr Hc]. exists row. split; [by apply list_elem_of_In|].
    apply in_map_iff. exists col. split; [done|by apply list_elem_of_In].
Qed.

(** X6: [img[x0:x1, y0:y1] = colour], for bounds inside the buffer, stores
    the colour (an RGB colour followed by 255) in every pixel of the columns
    [x0 .. x1 - 1] of the rows [y0 .. y1 - 1], and leaves every other pixel,
    the shape and the domain as they were. *)
Theorem setitem_region (s : store) self img h w x0 x1 y0 y1 v :
  s !! self = Some img -> image_shape img h w ->
  length (Np.flat (pixels img)) = h * w * 4 ->
  (0 <= x0 <= x1)%Z -> (x1 <= Z.of_nat w)%Z ->
  (0 <= y0 <= y1)%Z -> (y1 <= Z.of_nat h)%Z ->
  is_color v ->
  exists px,
    Image.__setitem__ self
      (ITuple [CSlice (BInt x0) (BInt x1) BNone;
               CSlice (BInt y0) (BInt y1) BNone]) v s
    = (Ok tt, <[self := mkImage px (_domain img)]> s) /\
    Np.shape px = [h; w; 4] /\
    length (Np.flat px) = h * w * 4 /\
    forall row col, row < h -> col < w ->
      pixel_at px w row col
      = if bool_decide ((y0 <= Z.of_nat row < y1)%Z /\
                        (x0 <= Z.of_nat col < x1)%Z)
        then Image.rgba v
        else pixel_at (pixels img) w row col.
Proof.
  intros Hs Hsh Hfl Hx Hxw Hy Hyh Hv.
  destruct (rgba_color v Hv) as (Hl & Hr & _).
  set (rows := seq (Z.to_nat y0) (Z.to_nat (y1 - y0))).
  set (cols := seq (Z.to_nat x0) (Z.to_nat (x1 - x0))).
  set (cells := flat_map (fun r => map (fun c => r * w + c) cols) rows).
  assert (Hcells : length cells = length rows * length cols).
  { unfold cells. apply flat_map_constant_length.
    intros r _. by rewrite length_map. }
  assert (Hres : Np.resolve (pixels img)
                   [CSlice (BInt y0) (BInt y1) BNone;
                    CSlice (BInt x0) (BInt x1) BNone]
                 = Ok ([length rows; length cols; 4],
                       flat_map (fun p => map (fun k => p * 4 + k) [0; 1; 2; 3])
                                cells)).
  { unfold Np.resolve. rewrite Hsh.
    assert (Np.complete (length [h; w; 4])
              [CSlice (BInt y0) (BInt y1) BNone;
               CSlice (BInt x0) (BInt x1) BNone]
            = Ok [CSlice (BInt y0) (BInt y1) BNone;
                  CSlice (BInt x0) (BInt x1) BNone; full_slice]) as ->
      by reflexivity.
    assert (Hall : Np.slice_indices 4 BNone BNone BNone = Ok [0; 1; 2; 3])
      by reflexivity.
    unfold full_slice. cbn [bind Np.select_all Np.select].
    rewrite !slice_indices_range, Hall by done.
    cbn [bind fst snd map Np.kept_shape List.filter].
    by rewrite positions_region. }
  exists (Np.mkNd (Np.dtype (pixels img)) [h; w; 4] (Np.strides (pixels img))
            (Np.scatter (Np.flat (pixels img))
               (flat_map (fun p => map (fun k => p * 4 + k) [0; 1; 2; 3]) cells)
               (concat (replicate (length cells) (Image.rgba v))))).
  split; [|split; [done|split; [cbn [Np.flat]; by rewrite scatter_length|]]].
  - unfold Image.__setitem__, mbind, lift, load, save. simpl.
    rewrite Hs. simpl. unfold Np.setitem. rewrite Hres.
    rewrite of_ints_small by done.
    cbn [bind fst snd Np.broadcast last]. unfold Np.stretch. rewrite Hl.
    cbn [Nat.eqb bind removelast Np.size_of foldr].
    rewrite Hsh, Nat.mul_1_r, <- Hcells. reflexivity.
  - intros row col Hrow Hcol.
    rewrite (pixel_at_scatter_cells _ (pixels img) cells (Image.rgba v))
      by (reflexivity || done || rewrite Hfl;
          pose proof (cell_bound h w row col 3); unfold cell in *; lia).
    assert (Hcols : Forall (fun c => c < w) cols).
    { apply Forall_forall. intros c Hc. apply list_elem_of_In, in_seq in Hc.
      lia. }
    destruct (decide (row * w + col ∈ cells)) as [Hin|Hnin].
    + apply in_region in Hin as [Hr' Hc']; [|done..].
      apply list_elem_of_In, in_seq in Hr'. apply list_elem_of_In, in_seq in Hc'.
      by rewrite bool_decide_eq_true_2 by lia.
    + rewrite bool_decide_eq_false_2; [done|].
      intros [Hr' Hc']. apply Hnin, in_region; [done..|].
      split; apply list_elem_of_In, in_seq; lia.
Qed.

Lemma setitem_region_witness :
  let s : store := {[ 1%positive := blank 3 2 ]} in
  exists px,
    Image.__setitem__ 1%positive
      (ITuple [CSlice (BInt 1) (BInt 3) BNone; CSlice (BInt 0) (BInt 1) BNone])
      [9; 8; 7]%Z s
    = (Ok tt, <[1%positive := mkImage px None]> s) /\
    pixel_at px 3 0 2 = [9; 8; 7; 255]%Z /\
    pixel_at px 3 1 2 = [0; 0; 0; 0]%Z.
Proof.
  intros s.
  destruct (setitem_region s 1%positive (blank 3 2) 2 3 1 3 0 1 [9; 8; 7]%Z)
    as (px & Hset & _ & _ & Hpx).
  - apply lookup_singleton_eq.
  - reflexivity.
  - reflexivity.
  - lia.
  - simpl. lia.
  - lia.
  - simpl. lia.
  - split; [left; reflexivity|]. repeat constructor; lia.
  - exists px. split; [exact Hset|]. split.
    + rewrite (Hpx 0 2) by lia. reflexivity.
    + rewrite (Hpx 1 2) by lia. reflexivity.
Defined.

(** ** Drawing a constant colour *)

Lemma mask_cells_elem (m : Np.mask) q :
  q ∈ Np.mask_cells m <-> concat m !! q = Some true.
Proof.
  unfold Np.mask_cells. rewrite list_elem_of_In, in_map_iff. split.
  - intros ([i b] & Hq & Hin). simpl in Hq. subst i.
    apply filter_In in Hin as [Hin Hb]. simpl in Hb. subst b.
    apply list_elem_of_In, elem_of_lookup_imap in Hin
      as (i & b & [= -> ->] & Hi). done.
  - intros Hq. exists (q, true). split; [done|].
    apply filter_In. split; [|done].
    apply list_elem_of_In, elem_of_lookup_imap. by exists q, true.
Qed.

Lemma lookup_concat_rows {B} (m : list (list B)) w row col :
  Forall (fun r => length r = w) m -> col < w ->
  concat m !! (row * w + col) = m !! row ≫= (fun r => r !! col).
Proof.
  intros Hm Hcol. revert row.
  induction Hm as [|r m Hr _ IH]; intros row; [by destruct row|].
  destruct row as [|row]; simpl.
  - by rewrite lookup_app_l by lia.
  - rewrite lookup_app_r by lia. rewrite <- IH. f_equal. lia.
Qed.

Lemma mask_fits_rows h w m :
  Np.mask_fits h w m = true ->
  length m = h /\ Forall (fun r => length r = w) m.
Proof.
  unfold Np.mask_fits. intros Hm. apply andb_true_iff in Hm as [Hlen Hrows].
  apply Nat.eqb_eq in Hlen. split; [done|].
  apply Forall_forall. intros r Hr.
  rewrite forallb_forall in Hrows. apply Nat.eqb_eq, Hrows.
  by apply list_elem_of_In.
Qed.

Lemma mask_cells_at h w m row col :
  Np.mask_fits h w m = true -> col < w ->
  row * w + col ∈ Np.mask_cells m <-> mask_at m row col = true.
Proof.
  intros Hm Hcol. destruct (mask_fits_rows h w m Hm) as [_ Hrows].
  rewrite mask_cells_elem, (lookup_concat_rows m w) by done.
  unfold mask_at, Np.mask in *.
  destruct (m !! row) as [r|]; simpl; [destruct (r !! col) as [[|]|]|];
    simpl; split; intros H; done.
Qed.

(** The run of [__call__] up to the assignment of the pixels. *)
Lemma call_run (s : store) self img f
    (overwrite_domain use_host_domain : bool) h w g m col :
  s !! self = Some img -> image_shape img h w ->
  (if use_host_domain
   then match _domain img with Some d => d w h | None => Raise TypeError end
   else domainfunc f w h) = Ok g ->
  maskfunc f (fst g) (snd g) = Ok m ->
  match colorfunc f with
  | ColorTuple c => Ok (Np.VTuple c)
  | ColorFunc cf =>
      xm <- Np.grid_select (fst g) m ;;
      ym <- Np.grid_select (snd g) m ;;
      cf xm ym
  end = Ok col ->
  Image.__call__ self f overwrite_domain use_host_domain s
  = match Np.setitem_mask (pixels img) m col with
    | Ok px =>
        (Ok tt, <[self := mkImage px
                    (if overwrite_domain && negb use_host_domain
                     then Some (domainfunc f) else _domain img)]> s)
    | Raise e => (Raise e, s)
    end.
Proof.
  intros Hs Hsh Hg Hm Hcol. unfold Image.__call__.
  unfold mbind at 1. unfold load at 1. rewrite Hs. cbn [of_option].
  assert (Hguard : use_host_domain && bool_decide (_domain img = None) = false).
  { destruct use_host_domain; [|done]. simpl.
    apply bool_decide_eq_false_2. intros Hd. by rewrite Hd in Hg. }
  rewrite Hguard. unfold mbind, lift. unfold Image.width, Image.height.
  rewrite Hsh. cbn [lookup list_lookup of_option].
  rewrite Hg, Hm, Hcol.
  destruct (Np.setitem_mask (pixels img) m col) as [px'|e]; [|done].
  unfold save at 1.
  destruct (overwrite_domain && negb use_host_domain).
  - rewrite load_saved. unfold save. cbn [pixels]. by rewrite insert_insert_eq.
  - reflexivity.
Qed.

(** X7: drawing a drawable whose colour is a constant tuple of four values
    in 0..255, through a mask of the shape of the buffer, stores the colour
    in exactly the pixels the mask selects and leaves the others as they
    were; the domain afterwards is the drawable's when [overwrite_domain]
    is true and [use_host_domain] false, and unchanged otherwise. *)
Theorem call_constant_color (s : store) self img f
    (overwrite_domain use_host_domain : bool) h w g m c :
  s !! self = Some img -> image_shape img h w ->
  length (Np.flat (pixels img)) = h * w * 4 ->
  (if use_host_domain
   then match _domain img with Some d => d w h | None => Raise TypeError end
   else domainfunc f w h) = Ok g ->
  maskfunc f (fst g) (snd g) = Ok m -> Np.mask_fits h w m = true ->
  colorfunc f = ColorTuple c ->
  length c = 4 -> Forall (fun v => (0 <= v < 256)%Z) c ->
  exists px,
    Image.__call__ self f overwrite_domain use_host_domain s
    = (Ok tt, <[self := mkImage px
                  (if overwrite_domain && negb use_host_domain
                   then Some (domainfunc f) else _domain img)]> s) /\
    Np.shape px = [h; w; 4] /\
    length (Np.flat px) = h * w * 4 /\
    forall row col, row < h -> col < w ->
      pixel_at px w row col
      = if mask_at m row col then c else pixel_at (pixels img) w row col.
Proof.
  intros Hs Hsh Hfl Hg Hm Hfit Hc Hlen Hrange.
  set (cells := Np.mask_cells m).
  exists (Np.mkNd (Np.dtype (pixels img)) [h; w; 4] (Np.strides (pixels img))
            (Np.scatter (Np.flat (pixels img))
               (flat_map (fun p => map (fun k => p * 4 + k) [0; 1; 2; 3]) cells)
               (concat (replicate (length cells) c)))).
  split; [|split; [done|split; [cbn [Np.flat]; by rewrite scatter_length|]]].
  - rewrite (call_run s self img f _ _ h w g m (Np.VTuple c));
      [|done..|by rewrite Hc].
    unfold Np.setitem_mask. rewrite Hsh, Hfit.
    rewrite of_ints_small by done.
    cbn [bind Np.broadcast last]. unfold Np.stretch. rewrite Hlen.
    cbn [Nat.eqb bind removelast Np.size_of foldr seq].
    fold cells. by rewrite Nat.mul_1_r.
  - intros row col Hrow Hcol.
    rewrite (pixel_at_scatter_cells _ (pixels img) cells c)
      by (reflexivity || done || rewrite Hfl;
          pose proof (cell_bound h w row col 3); unfold cell in *; lia).
    unfold cells.
    destruct (decide (row * w + col ∈ Np.mask_cells m)) as [Hin|Hnin].
    + apply (mask_cells_at h w) in Hin; [|done..]. by rewrite Hin.
    + destruct (mask_at m row col) eqn:Hat; [|done].
      exfalso. by apply Hnin, (mask_cells_at h w).
Qed.

Lemma call_constant_color_witness :
  let f := mkDrawable (fun _ _ => Ok ([[0; 1]], [[0; 0]])%float)
                      (fun _ _ => Ok [[false; true]])
                      (ColorTuple [1; 2; 3; 4]%Z) in
  let s : store := {[ 1%positive := blank 2 1 ]} in
  exists px,
    Image.__call__ 1%positive f true false s
    = (Ok tt, <[1%positive := mkImage px (Some (domainfunc f))]> s) /\
    pixel_at px 2 0 1 = [1; 2; 3; 4]%Z /\ pixel_at px 2 0 0 = [0; 0; 0; 0]%Z.
Proof.
  intros f s.
  destruct (call_constant_color s 1%positive (blank 2 1) f true false 1 2
              ([[0; 1]], [[0; 0]])%float [[false; true]] [1; 2; 3; 4]%Z)
    as (px & Hrun & _ & _ & Hpx).
  - apply lookup_singleton_eq.
  - reflexivity.
  - reflexivity.
  - reflexivity.
  - reflexivity.
  - reflexivity.
  - reflexivity.
  - reflexivity.
  - repeat constructor; lia.
  - exists px. split; [exact Hrun|]. split.
    + rewrite (Hpx 0 1) by lia. reflexivity.
    + rewrite (Hpx 0 0) by lia. reflexivity.
Defined.

(** X8: unlike [__setitem__], [__call__] does not widen an RGB colour: with
    a constant colour of three values, each one that fits a C [long], the
    assignment cannot be broadcast to the four channels, the call raises
    [ValueError] and leaves the buffer and its domain as they were. *)
Theorem call_rgb_color_raises (s : store) self img f
    (overwrite_domain use_host_domain : bool) h w g m c :
  s !! self = Some img -> image_shape img h w ->
  (if use_host_domain
   then match _domain img with Some d => d w h | None => Raise TypeError end
   else domainfunc f w h) = Ok g ->
  maskfunc f (fst g) (snd g) = Ok m -> Np.mask_fits h w m = true ->
  colorfunc f = ColorTuple c -> length c = 3 ->
  Forall (fun v => Np.fits_long v = true) c ->
  Image.__call__ self f overwrite_domain use_host_domain s
  = (Raise ValueError, s).
Proof.
  intros Hs Hsh Hg Hm Hfit Hc Hlen Hlong.
  rewrite (call_run s self img f _ _ h w g m (Np.VTuple c));
    [|done..|by rewrite Hc].
  unfold Np.setitem_mask. rewrite Hsh, Hfit.
  destruct c as [|v0 [|v1 [|v2 [|]]]]; try discriminate.
  apply Forall_cons in Hlong as [H0 Hlong].
  apply Forall_cons in Hlong as [H1 Hlong].
  apply Forall_cons in Hlong as [H2 _].
  unfold Np.of_ints, Np.of_int. cbn [mapM bind]. rewrite H0, H1, H2.
  reflexivity.
Qed.

Lemma call_rgb_color_raises_witness :
  let f := mkDrawable (fun _ _ => Ok ([[0; 1]], [[0; 0]])%float)
                      (fun _ _ => Ok [[false; true]])
                      (ColorTuple [1; 2; 3]%Z) in
  let s : store := {[ 1%positive := blank 2 1 ]} in
  Image.__call__ 1%positive f true false s = (Raise ValueError, s).
Proof.
  intros f s.
  apply (call_rgb_color_raises s 1%positive (blank 2 1) f true false 1 2
           ([[0; 1]], [[0; 0]])%float [[false; true]] [1; 2; 3]%Z);
    try reflexivity.
  repeat constructor.
Defined.

(** ** The [color] and [alpha] setters *)

Lemma resolve_color a h w :
  Np.shape a = [h; w; 4] ->
  Np.resolve a [full_slice; full_slice; CSlice (BInt 0) (BInt 3) BNone]
  = Ok ([h; w; 3],
        flat_map (fun p => map (fun k => p * 4 + k) [0; 1; 2]) (seq 0 (h * w))).
Proof.
  intros Hsh. unfold Np.resolve. rewrite Hsh.
  assert (Np.complete (length [h; w; 4])
            [full_slice; full_slice; CSlice (BInt 0) (BInt 3) BNone]
          = Ok [full_slice; full_slice; CSlice (BInt 0) (BInt 3) BNone]) as ->
    by reflexivity.
  unfold full_slice. cbn [bind Np.select_all Np.select].
  rewrite !full_slice_indices.
  assert (Np.slice_indices 4 (BInt 0) (BInt 3) BNone = Ok [0; 1; 2]) as ->
    by reflexivity.
  cbn [bind fst snd map Np.kept_shape List.filter].
  by rewrite !length_seq, positions_channels.
Qed.

Lemma resolve_alpha a h w :
  Np.shape a = [h; w; 4] ->
  Np.resolve a [full_slice; full_slice; CInt 3]
  = Ok ([h; w],
        flat_map (fun p => map (fun k => p * 4 + k) [3]) (seq 0 (h * w))).
Proof.
  intros Hsh. unfold Np.resolve. rewrite Hsh.
  assert (Np.complete (length [h; w; 4]) [full_slice; full_slice; CInt 3]
          = Ok [full_slice; full_slice; CInt 3]) as -> by reflexivity.
  unfold full_slice. cbn [bind Np.select_all Np.select].
  rewrite !full_slice_indices.
  assert (Np.int_index 4 3 = Ok 3) as -> by reflexivity.
  cbn [bind fst snd map Np.kept_shape List.filter].
  by rewrite !length_seq, positions_channels.
Qed.

Lemma concat_replicate_replicate {B} n m (x : B) :
  concat (replicate n (replicate m x)) = concat (replicate (n * m) [x]).
Proof.
  induction n as [|n IH]; [done|]. simpl. rewrite IH.
  rewrite replicate_add, concat_app. f_equal.
  clear. induction m as [|m IH]; [done|]. simpl. by rewrite IH.
Qed.

Lemma in_all_cells h w row col :
  row < h -> col < w -> row * w + col ∈ seq 0 (h * w).
Proof. intros Hr Hc. apply list_elem_of_In, in_seq. nia. Qed.

(** X9: [img.color = (r, g, b)], for three values in 0..255, stores the three
    values in the colour channels of every pixel and leaves every alpha
    value, the shape and the domain as they were. *)
Theorem color_setter_outcome (s : store) self img h w c :
  s !! self = Some img -> image_shape img h w ->
  length (Np.flat (pixels img)) = h * w * 4 ->
  length c = 3 -> Forall (fun v => (0 <= v < 256)%Z) c ->
  exists px,
    Image.color_setter self (Np.VTuple c) s
    = (Ok tt, <[self := mkImage px (_domain img)]> s) /\
    Np.shape px = [h; w; 4] /\
    length (Np.flat px) = h * w * 4 /\
    forall row col, row < h -> col < w ->
      pixel_at px w row col
      = c ++ [nth (cell w row col 3) (Np.flat (pixels img)) 0%Z].
Proof.
  intros Hs Hsh Hfl Hlen Hrange.
  set (ps := flat_map (fun p => map (fun k => p * 4 + k) [0; 1; 2])
                      (seq 0 (h * w))).
  set (vals := concat (replicate (length (seq 0 (h * w))) c)).
  exists (Np.mkNd (Np.dtype (pixels img)) [h; w; 4] (Np.strides (pixels img))
            (Np.scatter (Np.flat (pixels img)) ps vals)).
  split; [|split; [done|split; [cbn [Np.flat]; by rewrite scatter_length|]]].
  - unfold Image.color_setter, mbind, lift, load, save. rewrite Hs.
    cbn [of_option]. unfold Np.setitem. rewrite (resolve_color _ h w Hsh).
    rewrite of_ints_small by done.
    cbn [bind fst snd Np.broadcast last]. unfold Np.stretch. rewrite Hlen.
    cbn [Nat.eqb bind removelast Np.size_of foldr].
    unfold vals. by rewrite Hsh, length_seq, Nat.mul_1_r.
  - intros row col Hrow Hcol.
    assert (Hks : Forall (fun k => k < 4) [0; 1; 2])
      by (repeat constructor; lia).
    assert (Hnd : NoDup [0; 1; 2]) by apply (NoDup_seq 0 3).
    pose proof (in_all_cells h w row col Hrow Hcol) as Hin.
    pose proof (cell_bound h w row col) as Hb. unfold cell in Hb.
    assert (Hhit : forall k v, k < 3 -> c !! k = Some v ->
              nth ((row * w + col) * 4 + k)
                  (Np.scatter (Np.flat (pixels img)) ps vals) 0%Z = v).
    { intros k v Hk Hv. rewrite nth_lookup. unfold ps, vals.
      rewrite (scatter_cells_hit _ _ _ _ _ k k v); try done.
      - by destruct k as [|[|[|]]]; try lia.
      - rewrite Hfl. apply Hb; lia. }
    assert (Erow : exists v0 v1 v2, c = [v0; v1; v2]).
    { destruct c as [|v0 [|v1 [|v2 [|]]]]; try discriminate.
      by exists v0, v1, v2. }
    destruct Erow as (v0 & v1 & v2 & Erow).
    rewrite Erow at 1. rewrite Erow in Hhit.
    unfold pixel_at, cell. cbn [Np.flat map app].
    rewrite (Hhit 0 v0), (Hhit 1 v1), (Hhit 2 v2) by (lia || done).
    do 3 f_equal. rewrite !nth_lookup. unfold ps.
    rewrite scatter_cells_miss; [done|done|lia|].
    right. rewrite !elem_of_cons, elem_of_nil. lia.
Qed.

Lemma color_setter_outcome_witness :
  let s : store := {[ 1%positive := blank 2 1 ]} in
  exists px,
    Image.color_setter 1%positive (Np.VTuple [9; 8; 7]%Z) s
    = (Ok tt, <[1%positive := mkImage px None]> s) /\
    pixel_at px 2 0 1 = [9; 8; 7; 0]%Z.
Proof.
  intros s.
  destruct (color_setter_outcome s 1%positive (blank 2 1) 1 2 [9; 8; 7]%Z)
    as (px & Hrun & _ & _ & Hpx).
  - apply lookup_singleton_eq.
  - reflexivity.
  - reflexivity.
  - reflexivity.
  - repeat constructor; lia.
  - exists px. split; [exact Hrun|]. rewrite (Hpx 0 1) by lia. reflexivity.
Defined.

(** X10: [img.alpha = (a,)], for [a] in 0..255, stores [a] in the alpha
    channel of every pixel and leaves every colour value, the shape and the
    domain as they were. *)
Theorem alpha_setter_outcome (s : store) self img h w a :
  s !! self = Some img -> image_shape img h w ->
  length (Np.flat (pixels img)) = h * w * 4 ->
  (0 <= a < 256)%Z ->
  exists px,
    Image.alpha_setter self (Np.VTuple [a]) s
    = (Ok tt, <[self := mkImage px (_domain img)]> s) /\
    Np.shape px = [h; w; 4] /\
    length (Np.flat px) = h * w * 4 /\
    forall row col, row < h -> col < w ->
      pixel_at px w row col
      = [nth (cell w row col 0) (Np.flat (pixels img)) 0%Z;
         nth (cell w row col 1) (Np.flat (pixels img)) 0%Z;
         nth (cell w row col 2) (Np.flat (pixels img)) 0%Z;
         a].
Proof.
  intros Hs Hsh Hfl Ha.
  set (ps := flat_map (fun p => map (fun k => p * 4 + k) [3]) (seq 0 (h * w))).
  set (vals := concat (replicate (length (seq 0 (h * w))) [a])).
  exists (Np.mkNd (Np.dtype (pixels img)) [h; w; 4] (Np.strides (pixels img))
            (Np.scatter (Np.flat (pixels img)) ps vals)).
  split; [|split; [done|split; [cbn [Np.flat]; by rewrite scatter_length|]]].
  - unfold Image.alpha_setter, mbind, lift, load, save. rewrite Hs.
    cbn [of_option]. unfold Np.setitem. rewrite (resolve_alpha _ h w Hsh).
    rewrite of_ints_small by (by apply Forall_singleton).
    cbn [bind fst snd Np.broadcast last].
    assert (Np.stretch w [a] = Ok (replicate w a)) as ->.
    { unfold Np.stretch. simpl length.
      destruct (Nat.eqb_spec 1 w) as [<-|]; reflexivity. }
    cbn [bind removelast Np.size_of foldr].
    rewrite Nat.mul_1_r, concat_replicate_replicate.
    unfold vals. by rewrite Hsh, length_seq.
  - intros row col Hrow Hcol.
    assert (Hks : Forall (fun k => k < 4) [3]) by (repeat constructor; lia).
    assert (Hnd : NoDup [3]) by apply (NoDup_seq 3 1).
    pose proof (in_all_cells h w row col Hrow Hcol) as Hin.
    pose proof (cell_bound h w row col) as Hb. unfold cell in Hb.
    unfold pixel_at, cell. cbn [Np.flat map]. rewrite !nth_lookup.
    unfold ps, vals.
    rewrite (scatter_cells_hit _ _ _ _ _ 0 3 a); try done;
      [|rewrite Hfl; apply Hb; lia].
    rewrite !scatter_cells_miss;
      try done; try lia; try (right; rewrite elem_of_cons, elem_of_nil; lia).
Qed.

Lemma alpha_setter_outcome_witness :
  let s : store := {[ 1%positive := blank 2 1 ]} in
  exists px,
    Image.alpha_setter 1%positive (Np.VTuple [200]%Z) s
    = (Ok tt, <[1%positive := mkImage px None]> s) /\
    pixel_at px 2 0 1 = [0; 0; 0; 200]%Z.
Proof.
  intros s.
  destruct (alpha_setter_outcome s 1%positive (blank 2 1) 1 2 200%Z)
    as (px & Hrun & _ & _ & Hpx).
  - apply lookup_singleton_eq.
  - reflexivity.
  - reflexivity.
  - lia.
  - exists px. split; [exact Hrun|]. rewrite (Hpx 0 1) by lia. reflexivity.
Defined.

(** ** Reading a sub-image *)

Lemma lookup_flat_map_chunks {B C} (F : B -> list C) (l : list B) k b c :
  (forall x, length (F x) = k) -> c < k ->
  flat_map F l !! (b * k + c) = l !! b ≫= (fun x => F x !! c).
Proof.
  intros HF Hc. revert b. induction l as [|x l IH]; intros b; [done|].
  destruct b as [|b]; simpl.
  - by rewrite lookup_app_l by (rewrite HF; lia).
  - rewrite lookup_app_r by (rewrite HF; lia). rewrite HF, <- IH.
    f_equal. lia.
Qed.

Lemma region_lookup w y0 nr x0 nc i j k :
  i < nr -> j < nc -> k < 4 ->
  flat_map (fun p => map (fun k => p * 4 + k) [0; 1; 2; 3])
    (flat_map (fun r => map (fun c => r * w + c) (seq x0 nc)) (seq y0 nr))
    !! ((i * nc + j) * 4 + k)
  = Some (cell w (y0 + i) (x0 + j) k).
Proof.
  intros Hi Hj Hk.
  rewrite (lookup_flat_map_chunks _ _ 4) by done.
  rewrite (lookup_flat_map_chunks _ _ nc)
    by (done || intros; by rewrite length_map, length_seq).
  rewrite lookup_seq_lt by done. simpl.
  rewrite list_lookup_fmap, lookup_seq_lt by done. simpl.
  unfold cell. by destruct k as [|[|[|[|]]]]; try lia.
Qed.

(** X11: [img[x0:x1, y0:y1]], for bounds inside the buffer, returns a new
    [Image] of width [x1 - x0] and height [y1 - y0] with no domain, whose
    pixel [(j, i)] is the pixel [(x0 + j, y0 + i)] of [img]; [img] itself is
    left as it was. *)
Theorem getitem_subimage (s : store) self img h w x0 x1 y0 y1 :
  s !! self = Some img -> image_shape img h w ->
  (0 <= x0 <= x1)%Z -> (x1 <= Z.of_nat w)%Z ->
  (0 <= y0 <= y1)%Z -> (y1 <= Z.of_nat h)%Z ->
  exists sub,
    let l := fresh (dom s) in
    let s' := <[l := mkImage sub None]> s in
    Image.__getitem__ self
      (ITuple [CSlice (BInt x0) (BInt x1) BNone;
               CSlice (BInt y0) (BInt y1) BNone]) s
    = (Ok (VImage l), s') /\
    s !! l = None /\ s' !! self = Some img /\
    Image.width (mkImage sub None) = Ok (Z.to_nat (x1 - x0)) /\
    Image.height (mkImage sub None) = Ok (Z.to_nat (y1 - y0)) /\
    image_ok (mkImage sub None) /\
    forall i j, i < Z.to_nat (y1 - y0) -> j < Z.to_nat (x1 - x0) ->
      pixel_at sub (Z.to_nat (x1 - x0)) i j
      = pixel_at (pixels img) w (Z.to_nat y0 + i) (Z.to_nat x0 + j).
Proof.
  intros Hs Hsh Hx Hxw Hy Hyh.
  destruct (get_by_pixels_slices s self img h w (BInt y0) (BInt y1)
              (BInt x0) (BInt x1) Hs Hsh)
    as (rows & cols & Hrows & Hcols & Hget); try done.
  rewrite slice_indices_range in Hrows, Hcols by done.
  injection Hrows as <-. injection Hcols as <-.
  rewrite !length_seq, positions_region in Hget.
  set (nr := Z.to_nat (y1 - y0)) in *. set (nc := Z.to_nat (x1 - x0)) in *.
  eexists. cbv zeta.
  split; [exact Hget|]. split; [apply fresh_loc_unused|].
  split; [by apply alloc_keeps|]. do 2 (split; [reflexivity|]). split.
  - exists nr, nc. split; [done|]. cbn [pixels Np.flat].
    rewrite length_map, (flat_map_constant_length (c := 4)) by done.
    rewrite (flat_map_constant_length (c := nc))
      by (intros; by rewrite length_map, length_seq).
    by rewrite length_seq.
  - intros i j Hi Hj. unfold pixel_at. cbn [Np.flat].
    apply map_ext_in. intros k Hk.
    assert (k < 4) by (simpl in Hk; lia).
    rewrite nth_lookup, list_lookup_fmap.
    unfold cell at 1. by rewrite region_lookup.
Qed.

Lemma getitem_subimage_witness :
  let img := mkImage (Np.mkArr [1; 2; 4] [1; 2; 3; 4; 5; 6; 7; 8]%Z) None in
  let s : store := {[ 1%positive := img ]} in
  exists sub l,
    Image.__getitem__ 1%positive
      (ITuple [CSlice (BInt 1) (BInt 2) BNone; CSlice (BInt 0) (BInt 1) BNone])
      s
    = (Ok (VImage l), <[l := mkImage sub None]> s) /\
    pixel_at sub 1 0 0 = [5; 6; 7; 8]%Z.
Proof.
  intros img s.
  destruct (getitem_subimage s 1%positive img 1 2 1 2 0 1)
    as (sub & Hget & _ & _ & _ & _ & _ & Hpx).
  - apply lookup_singleton_eq.
  - reflexivity.
  - lia.
  - simpl. lia.
  - lia.
  - simpl. lia.
  - exists sub, (fresh (dom s)). split; [exact Hget|].
    change 1 with (Z.to_nat (2 - 1)) at 1.
    rewrite (Hpx 0 0) by (simpl; lia). reflexivity.
Defined.

(** ** A bare scalar index *)

(** X12: [img[x]], for an integer [x] inside the width, reads column [x]
    across all rows, as [img[x, :]] does: the result is the bare array of
    shape (height, 4) holding the pixel [(x, row)] for each row, a view of
    the rows and the channels of the pixel array; no [Image] is created and
    nothing is changed. *)
Theorem getitem_scalar_column (s : store) self img h w x :
  s !! self = Some img -> image_shape img h w ->
  (- Z.of_nat w <= x < Z.of_nat w)%Z ->
  let column :=
    Np.mkNd (Np.dtype (pixels img)) [h; 4]
      (take 1 (Np.strides (pixels img))
       ++ take 1 (drop 2 (Np.strides (pixels img))))
      (flat_map (fun row => pixel_at (pixels img) w row (axis_pos w x))
                (seq 0 h)) in
  Image.__getitem__ self (IScalar (CInt x)) s = (Ok (VArray column), s) /\
  Image.__getitem__ self (ITuple [CInt x; full_slice]) s
  = (Ok (VArray column), s).
Proof.
  intros Hs Hsh Hx column.
  assert (Hget : Image._get_by_pixels self [full_slice; CInt x] s
                 = (Ok (VArray column), s)).
  { assert (Hall : Np.slice_indices 4 BNone BNone BNone = Ok [0; 1; 2; 3])
      by reflexivity.
    assert (Hst : Np.view_strides (pixels img) [full_slice; CInt x]
                  = take 1 (Np.strides (pixels img))
                    ++ take 1 (drop 2 (Np.strides (pixels img)))).
    { unfold Np.view_strides. rewrite Hsh.
      assert (Np.complete (length [h; w; 4]) [full_slice; CInt x]
              = Ok [full_slice; CInt x; full_slice]) as -> by reflexivity.
      unfold full_slice. cbn [bind Np.select_all Np.select].
      rewrite full_slice_indices.
      destruct (int_index_in_range w x Hx) as [-> _]. rewrite Hall.
      cbn [bind].
      destruct (Np.strides (pixels img)) as [|s0 [|s1 [|s2 st]]];
        cbn [Np.kept_strides snd fst Np.axis_step app take drop];
        by rewrite ?Z.mul_1_r. }
    unfold Image._get_by_pixels, mbind, lift, load, ret. rewrite Hs.
    cbn [of_option]. unfold Np.getitem. rewrite Hst.
    unfold Np.resolve. rewrite Hsh.
    assert (Np.complete (length [h; w; 4]) [full_slice; CInt x]
            = Ok [full_slice; CInt x; full_slice]) as -> by reflexivity.
    unfold full_slice. cbn [bind Np.select_all Np.select].
    rewrite full_slice_indices.
    destruct (int_index_in_range w x Hx) as [-> _]. rewrite Hall.
    cbn [bind fst snd map Np.kept_shape List.filter].
    rewrite length_seq, positions_region. cbn [length Nat.eqb Np.shape].
    do 3 f_equal. unfold column. f_equal.
    rewrite flat_map_flat_map, map_flat_map.
    apply flat_map_ext. intros row. reflexivity. }
  split; exact Hget.
Qed.

Lemma getitem_scalar_column_witness :
  let img := mkImage (Np.mkArr [2; 1; 4] [1; 2; 3; 4; 5; 6; 7; 8]%Z) None in
  let s : store := {[ 1%positive := img ]} in
  Image.__getitem__ 1%positive (IScalar (CInt 0)) s
  = (Ok (VArray (Np.mkArr [2; 4] [1; 2; 3; 4; 5; 6; 7; 8]%Z)), s).
Proof.
  intros img s.
  destruct (getitem_scalar_column s 1%positive img 2 1 0) as [H _].
  - apply lookup_singleton_eq.
  - reflexivity.
  - simpl. lia.
  - exact H.
Defined.

(** ** Reading part of the channels *)

Lemma slice_indices_ok_plain len a b st l :
  Np.slice_indices len a b st = Ok l ->
  Image.is_float_bound a = false /\ Image.is_float_bound b = false.
Proof.
  unfold Np.slice_indices.
  destruct st as [|[| |]|]; try discriminate;
    destruct a; try discriminate; destruct b; try discriminate; done.
Qed.

(** X13: a read with two slices and a third slice that does not select all
    four channels, such as [img[:, :, 0:3]], raises [ValueError]: the
    three-dimensional result is handed to [Image.fromarray], which refuses
    an array whose last dimension is not 4.  Nothing is changed. *)
Theorem getitem_channel_slice_raises (s : store) self img h w
    xa xb ya yb ca cb cstep ks :
  s !! self = Some img -> image_shape img h w ->
  Image.is_float_bound xa = false -> Image.is_float_bound xb = false ->
  Image.is_float_bound ya = false -> Image.is_float_bound yb = false ->
  Np.slice_indices 4 ca cb cstep = Ok ks -> length ks <> 4 ->
  Image.__getitem__ self
    (ITuple [CSlice xa xb BNone; CSlice ya yb BNone; CSlice ca cb cstep]) s
  = (Raise ValueError, s).
Proof.
  intros Hs Hsh Hxa Hxb Hya Hyb Hks Hlen.
  destruct (slice_indices_ok_plain _ _ _ _ _ Hks) as [Hca Hcb].
  destruct (slice_indices_plain h ya yb Hya Hyb) as [rows Hrows].
  destruct (slice_indices_plain w xa xb Hxa Hxb) as [cols Hcols].
  unfold Image.__getitem__. unfold mbind at 1. unfold lift at 1.
  cbn [Image._flip_index length Nat.eqb Image._is_pixel_addr].
  rewrite Hxa, Hxb, Hya, Hyb, Hca, Hcb. cbn [orb].
  unfold Image._get_by_pixels, mbind, lift, load. rewrite Hs.
  cbn [of_option]. unfold Np.getitem, Np.resolve. rewrite Hsh.
  assert (Np.complete (length [h; w; 4])
            [CSlice ya yb BNone; CSlice xa xb BNone; CSlice ca cb cstep]
          = Ok [CSlice ya yb BNone; CSlice xa xb BNone; CSlice ca cb cstep])
    as -> by reflexivity.
  cbn [bind Np.select_all Np.select]. rewrite Hrows, Hcols, Hks.
  cbn [bind fst snd map Np.kept_shape List.filter length Np.shape Nat.eqb].
  unfold Image.fromarray. rewrite init_bad_array; [done|].
  right. simpl. congruence.
Qed.

Lemma getitem_channel_slice_raises_witness :
  let s : store := {[ 1%positive := blank 2 1 ]} in
  Image.__getitem__ 1%positive
    (ITuple [full_slice; full_slice; CSlice (BInt 0) (BInt 3) BNone]) s
  = (Raise ValueError, s).
Proof.
  intros s.
  apply (getitem_channel_slice_raises s 1%positive (blank 2 1) 1 2
           BNone BNone BNone BNone (BInt 0) (BInt 3) BNone [0; 1; 2]);
    try reflexivity.
  simpl. lia.
Defined.

(** ** What reads and operators leave alone *)

Lemma only_adds_keeps (s s' : store) l x :
  only_adds s s' -> s !! l = Some x -> s' !! l = Some x.
Proof. intros [->|[img ->]] Hl; [done|by apply alloc_keeps]. Qed.

Lemma init_array_only_adds (s : store) wd ht dm bg p :
  only_adds s (snd (Image.__init__ wd ht dm bg (Some p) s)).
Proof.
  unfold Image.__init__, lift, alloc.
  destruct (_ || _); simpl; [by left|right; eauto].
Qed.

Lemma get_by_pixels_only_adds (s : store) self idx :
  only_adds s (snd (Image._get_by_pixels self idx s)).
Proof.
  unfold Image._get_by_pixels, mbind, lift, load, ret.
  destruct (s !! self) as [img|]; simpl; [|by left].
  destruct (Np.getitem (pixels img) idx) as [px|e]; simpl; [|by left].
  destruct (length (Np.shape px) =? 3); [|by left].
  unfold Image.fromarray.
  pose proof (init_array_only_adds s None None None
                Image.default_background px) as Hadd.
  destruct (Image.__init__ None None None Image.default_background
              (Some px) s) as [[l|e] s']; exact Hadd.
Qed.

Lemma getitem_only_adds (s : store) self index :
  only_adds s (snd (Image.__getitem__ self index s)).
Proof.
  unfold Image.__getitem__. unfold mbind at 1. unfold lift at 1.
  destruct (Image._flip_index index) as [idx|e]; [|by left].
  destruct (Image._is_pixel_addr idx); [apply get_by_pixels_only_adds|].
  unfold mbind at 1. unfold load.
  destruct (s !! self) as [img|]; simpl; [|by left].
  destruct (_domain img) as [d|]; [|by left].
  destruct idx as [|[| |ystart ystop ystep|] [|[| |xstart xstop xstep|] rest]];
    try by left.
  unfold mbind, lift.
  destruct (Image.math_slices img d xstart xstop ystart ystop) as [sl|e];
    [apply get_by_pixels_only_adds|by left].
Qed.

Lemma neg_only_adds (s : store) self :
  only_adds s (snd (Image.__neg__ self s)).
Proof.
  unfold Image.__neg__, mbind, lift, load.
  destruct (s !! self) as [img|]; simpl; [|by left].
  destruct (Image.alpha img) as [alphas|e]; simpl; [|by left].
  destruct (Image.width img) as [w|e]; simpl; [|by left].
  destruct (Image.height img) as [h|e]; simpl; [|by left].
  destruct (Np.set_shape alphas [w; h; 1]) as [alphas'|e]; simpl; [|by left].
  destruct (Image.color img) as [colors|e]; simpl; [|by left].
  destruct (Np.vectorize Image.neg colors) as [colors'|e]; simpl; [|by left].
  destruct (Np.append_axis2 _ _) as [px|e]; simpl; [|by left].
  exact (init_array_only_adds s None None None Image.default_background px).
Qed.

Lemma and_only_adds (s : store) self other :
  only_adds s (snd (Image.__and__ self other s)).
Proof.
  unfold Image.__and__, mbind, lift, load.
  destruct other as [o| |]; try by left.
  destruct (s !! self) as [a|]; simpl; [|by left].
  destruct (s !! o) as [b|]; simpl; [|by left].
  destruct (negb _); [by left|].
  exact (init_array_only_adds s None None None Image.default_background
           (Np.add (pixels a) (pixels b))).
Qed.

(** X14: an indexed read, a negation and an AND never change, replace or
    remove an object there is: whatever they are given and whether they
    return or raise, every object of the store is afterwards what it was,
    and at most one object, a new one, has been added. *)
Theorem reads_and_operators_only_add (s : store) self index other :
  only_adds s (snd (Image.__getitem__ self index s)) /\
  only_adds s (snd (Image.__neg__ self s)) /\
  only_adds s (snd (Image.__and__ self other s)) /\
  forall s', only_adds s s' ->
    (forall l x, s !! l = Some x -> s' !! l = Some x) /\
    (forall l, s' !! l <> None -> s !! l <> None \/ l = fresh (dom s)).
Proof.
  split; [apply getitem_only_adds|]. split; [apply neg_only_adds|].
  split; [apply and_only_adds|].
  intros s' Hadd. split; [intros l x; by apply only_adds_keeps|].
  intros l Hl. destruct Hadd as [->|[img ->]]; [by left|].
  destruct (decide (l = fresh (dom s))) as [->|Hne]; [by right|].
  left. by rewrite lookup_insert_ne in Hl.
Qed.

(** ** The invariant of the store *)

Lemma image_ok_array img :
  image_ok img <->
  (exists h w, Np.shape (pixels img) = [h; w; 4]) /\ array_ok (pixels img).
Proof.
  unfold image_ok, array_ok. split.
  - intros (h & w & Hsh & Hlen). split; [by exists h, w|].
    rewrite Hsh, Hlen. simpl. lia.
  - intros [(h & w & Hsh) Hlen]. exists h, w. split; [done|].
    rewrite Hlen, Hsh. simpl. lia.
Qed.

Lemma store_ok_insert (s : store) l img :
  store_ok s -> image_ok img -> store_ok (<[l := img]> s).
Proof.
  intros Hs Himg l' img' Hl'.
  destruct (decide (l = l')) as [->|Hne].
  - rewrite lookup_insert_eq in Hl'. by injection Hl' as <-.
  - rewrite lookup_insert_ne in Hl' by done. by apply (Hs l').
Qed.

Lemma image_ok_same_array img px dm :
  image_ok img -> Np.shape px = Np.shape (pixels img) ->
  length (Np.flat px) = length (Np.flat (pixels img)) ->
  image_ok (mkImage px dm).
Proof.
  intros (h & w & Hsh & Hlen) Hshape Hflat. exists h, w. simpl.
  by rewrite Hshape, Hflat.
Qed.

Lemma setitem_keeps_array a idx v px :
  Np.setitem a idx v = Ok px ->
  Np.shape px = Np.shape a /\ length (Np.flat px) = length (Np.flat a).
Proof.
  unfold Np.setitem. destruct (Np.resolve a idx) as [r|]; [|discriminate].
  simpl. destruct (Np.of_ints (Np.dtype a) v) as [v'|]; [|discriminate].
  simpl. destruct (Np.broadcast (fst r) v') as [vals|]; [|discriminate].
  simpl. intros [= <-]. simpl. by rewrite scatter_length.
Qed.

Lemma setitem_mask_keeps_array a m v px :
  Np.setitem_mask a m v = Ok px ->
  Np.shape px = Np.shape a /\ length (Np.flat px) = length (Np.flat a).
Proof.
  unfold Np.setitem_mask.
  destruct (Np.shape a) as [|h [|w [|c [|]]]] eqn:Hsh; try discriminate.
  destruct (Np.mask_fits h w m); [|discriminate].
  destruct (Np.of_ints (Np.dtype a) v) as [v'|]; [|discriminate].
  simpl. destruct (Np.broadcast _ v') as [vals|]; [|discriminate].
  simpl. intros [= <-]. simpl. by rewrite scatter_length.
Qed.

Lemma write_keeps_store_ok (s : store) self
    (write : Np.ndarray -> result Np.ndarray) :
  (forall a px, write a = Ok px ->
     Np.shape px = Np.shape a /\ length (Np.flat px) = length (Np.flat a)) ->
  store_ok s ->
  store_ok (snd ((img <~ load self ;;
                  px <~ lift (write (pixels img)) ;;
                  save self (mkImage px (_domain img))) s)).
Proof.
  intros Hwrite Hs. unfold mbind, lift, load, save.
  destruct (s !! self) as [img|] eqn:Himg; simpl; [|done].
  destruct (write (pixels img)) as [px|e] eqn:Hpx; simpl; [|done].
  destruct (Hwrite _ _ Hpx) as [Hshape Hflat].
  apply store_ok_insert; [done|].
  apply (image_ok_same_array img); [by apply (Hs self)|done..].
Qed.

Lemma call_keeps_store_ok (s : store) self f
    (overwrite_domain use_host_domain : bool) :
  store_ok s ->
  store_ok (snd (Image.__call__ self f overwrite_domain use_host_domain s)).
Proof.
  intros Hs. unfold Image.__call__.
  unfold mbind at 1. unfold load at 1.
  destruct (s !! self) as [img|] eqn:Himg; cbn [of_option]; [|done].
  destruct (use_host_domain && bool_decide (_domain img = None)); [done|].
  unfold mbind, lift.
  destruct (Image.width img) as [w|e]; [|done].
  destruct (Image.height img) as [h|e]; [|done].
  match goal with
  | |- context [match (if use_host_domain then ?a else ?b) with _ => _ end] =>
      destruct (if use_host_domain then a else b) as [g|e]
  end; [|done].
  destruct (maskfunc f (fst g) (snd g)) as [mask|]; cbn [of_option]; [|done].
  match goal with
  | |- context [match ?c with Ok _ => _ | Raise _ => _ end] =>
      destruct c as [col|e]
  end; [|done].
  destruct (Np.setitem_mask (pixels img) mask col) as [px|e] eqn:Hpx;
    [|done].
  destruct (setitem_mask_keeps_array _ _ _ _ Hpx) as [Hshape Hflat].
  unfold save at 1.
  destruct (overwrite_domain && negb use_host_domain).
  - rewrite load_saved. unfold save. cbn [pixels snd].
    rewrite insert_insert_eq. apply store_ok_insert; [done|].
    apply (image_ok_same_array img); [by apply (Hs self)|done..].
  - unfold ret. cbn [snd]. apply store_ok_insert; [done|].
    apply (image_ok_same_array img); [by apply (Hs self)|done..].
Qed.

(** X15: every mutating method keeps every [Image] of the store an array of
    three dimensions, the last of length 4, with as many elements as its
    shape says: this holds after [__setitem__], the [color], [alpha] and
    [domain] setters and [__call__], with any arguments, whether they return
    or raise. *)
Theorem mutators_keep_store_ok (s : store) self index v value dm f
    (overwrite_domain use_host_domain : bool) :
  store_ok s ->
  store_ok (snd (Image.__setitem__ self index v s)) /\
  store_ok (snd (Image.color_setter self value s)) /\
  store_ok (snd (Image.alpha_setter self value s)) /\
  store_ok (snd (Image.domain_setter self dm s)) /\
  store_ok (snd (Image.__call__ self f overwrite_domain use_host_domain s)).
Proof.
  intros Hs. split; [|split; [|split; [|split]]].
  - unfold Image.__setitem__. unfold mbind at 1. unfold lift at 1.
    destruct (Image._flip_index index) as [idx|e]; [|done].
    apply (write_keeps_store_ok s self
             (fun a => Np.setitem a idx (Np.VTuple (Image.rgba v))));
      [|done].
    intros a px. apply setitem_keeps_array.
  - apply (write_keeps_store_ok s self
             (fun a => Np.setitem a _ value)); [|done].
    intros a px. apply setitem_keeps_array.
  - apply (write_keeps_store_ok s self
             (fun a => Np.setitem a _ value)); [|done].
    intros a px. apply setitem_keeps_array.
  - unfold Image.domain_setter, mbind, load, save.
    destruct (s !! self) as [img|] eqn:Himg; simpl; [|done].
    apply store_ok_insert; [done|].
    apply (image_ok_same_array img); [by apply (Hs self)|done..].
  - by apply call_keeps_store_ok.
Qed.

Lemma mutators_keep_store_ok_witness :
  let s : store := {[ 1%positive := blank 2 1 ]} in
  store_ok (snd (Image.__setitem__ 1%positive (ITuple [CInt 0; CInt 0])
                   [1; 2; 3]%Z s)).
Proof.
  intros s.
  apply (mutators_keep_store_ok s 1%positive (ITuple [CInt 0; CInt 0])
           [1; 2; 3]%Z (Np.VTuple []) None
           (mkDrawable (fun _ _ => Raise TypeError) (fun _ _ => Raise TypeError) (ColorTuple []))
           true false).
  intros l img Hl. apply lookup_singleton_Some in Hl as [_ <-].
  exists 1, 2. split; reflexivity.
Defined.

Lemma stretch_length n v row : Np.stretch n v = Ok row -> length row = n.
Proof.
  unfold Np.stretch. destruct (Nat.eqb_spec (length v) n) as [<-|Hne].
  - by intros [= <-].
  - destruct v as [|x [|]]; try discriminate. intros [= <-].
    apply length_replicate.
Qed.

Lemma length_concat_replicate {B} n (row : list B) :
  length (concat (replicate n row)) = n * length row.
Proof.
  induction n as [|n IH]; [done|]. simpl. rewrite length_app, IH. lia.
Qed.

Lemma full_array_ok h w fill p :
  Np.full [h; w; 4%Z] fill = Ok p ->
  Np.shape p = [Z.to_nat h; Z.to_nat w; 4] /\ array_ok p.
Proof.
  unfold Np.full. destruct (forallb _ _); [|discriminate].
  cbn [map bind Np.broadcast last].
  destruct (Np.stretch _ fill) as [row|] eqn:Hrow; [|discriminate].
  apply stretch_length in Hrow. intros [= <-]. split; [done|].
  unfold array_ok. cbn [Np.flat Np.shape].
  rewrite length_map, length_concat_replicate, Hrow. simpl. lia.
Qed.

Lemma init_keeps_store_ok (s : store) wd ht dm bg px :
  store_ok s -> (forall p, px = Some p -> array_ok p) ->
  store_ok (snd (Image.__init__ wd ht dm bg px s)).
Proof.
  intros Hs Hpx. unfold Image.__init__.
  destruct px as [p|].
  - destruct (negb (length (Np.shape p) =? 3)
              || negb (bool_decide (last (Np.shape p) = Some 4))) eqn:Hck;
      [done|].
    apply orb_false_iff in Hck as [H3 H4].
    apply negb_false_iff, Nat.eqb_eq in H3.
    apply negb_false_iff, bool_decide_eq_true_1 in H4.
    destruct (shape_of_image _ H3 H4) as (h & w & Hsh).
    apply store_ok_insert; [done|]. apply image_ok_array.
    split; [by exists h, w|by apply Hpx].
  - destruct wd as [w|]; [|done]. destruct ht as [h|]; [|done].
    unfold mbind, lift.
    destruct (Np.full [h; w; 4%Z] (Image.rgba bg)) as [p|e] eqn:Hp; [|done].
    apply full_array_ok in Hp as [Hsh Hok].
    apply store_ok_insert; [done|]. apply image_ok_array.
    split; [by eexists _, _|done].
Qed.

Lemma positions_length dims sels base :
  length sels <= length dims ->
  length (Np.positions dims sels base) = prod_len sels.
Proof.
  revert dims base. induction sels as [|sel sels IH]; intros dims base Hlen.
  - by destruct dims.
  - destruct dims as [|d dims]; [simpl in Hlen; lia|]. simpl.
    rewrite (flat_map_constant_length (c := prod_len sels)); [done|].
    intros i _. apply IH. simpl in Hlen. lia.
Qed.

Lemma select_all_shape dims cs sels :
  Np.select_all dims cs = Ok sels ->
  length sels <= length dims /\
  Np.size_of (Np.kept_shape sels) = prod_len (map fst sels).
Proof.
  revert cs sels. induction dims as [|d dims IH]; intros cs sels.
  - destruct cs; intros [= <-]; simpl; split; done.
  - destruct cs as [|c cs]; [intros [= <-]; simpl; split; [lia|done]|].
    simpl. destruct (Np.select d c) as [[sel keep]|] eqn:Hsel; [|discriminate].
    simpl. destruct (Np.select_all dims cs) as [ss|] eqn:Hss; [|discriminate].
    simpl. intros [= <-]. destruct (IH _ _ Hss) as [Hlen Hsize].
    split; [simpl; lia|].
    unfold Np.kept_shape in *. simpl. destruct keep; simpl.
    + by rewrite Hsize.
    + rewrite Hsize.
      destruct c as [z| |a b st|]; simpl in Hsel; try discriminate.
      * destruct (Np.int_index d z); [|discriminate].
        injection Hsel as <-. simpl. lia.
      * by destruct (Np.slice_indices d a b st).
Qed.

Lemma getitem_array_ok a idx px : Np.getitem a idx = Ok px -> array_ok px.
Proof.
  unfold Np.getitem, Np.resolve.
  destruct (Np.complete _ idx) as [full|]; [|discriminate]. simpl.
  destruct (Np.select_all (Np.shape a) full) as [sels|] eqn:Hsels;
    [|discriminate].
  simpl. intros [= <-]. destruct (select_all_shape _ _ _ Hsels) as [Hlen Hsize].
  unfold array_ok. cbn [Np.flat Np.shape].
  rewrite length_map, positions_length by (by rewrite length_map). done.
Qed.

Lemma get_by_pixels_keeps_store_ok (s : store) self idx :
  store_ok s -> store_ok (snd (Image._get_by_pixels self idx s)).
Proof.
  intros Hs. unfold Image._get_by_pixels, mbind, lift, load, ret.
  destruct (s !! self) as [img|]; simpl; [|done].
  destruct (Np.getitem (pixels img) idx) as [px|e] eqn:Hpx; simpl; [|done].
  destruct (length (Np.shape px) =? 3); [|done].
  unfold Image.fromarray.
  pose proof (init_keeps_store_ok s None None None Image.default_background
                (Some px) Hs) as Hok.
  destruct (Image.__init__ None None None Image.default_background
              (Some px) s) as [[l|e] s']; apply Hok;
    intros p [= <-]; by apply getitem_array_ok in Hpx.
Qed.

Lemma interleave_length n ka kb a b :
  length a = n * ka -> length b = n * kb ->
  length (Np.interleave n ka kb a b) = n * (ka + kb).
Proof.
  revert a b. induction n as [|n IH]; intros a b Ha Hb; [done|]. simpl.
  rewrite !length_app, !length_take, IH by (rewrite length_drop; lia). lia.
Qed.

Lemma neg_keeps_store_ok (s : store) self :
  store_ok s -> store_ok (snd (Image.__neg__ self s)).
Proof.
  intros Hs. unfold Image.__neg__, mbind, lift, load.
  destruct (s !! self) as [img|]; simpl; [|done].
  destruct (Image.alpha img) as [alphas|e] eqn:Ha; simpl; [|done].
  destruct (Image.width img) as [w|e]; simpl; [|done].
  destruct (Image.height img) as [h|e]; simpl; [|done].
  destruct (Np.set_shape alphas [w; h; 1]) as [alphas'|e] eqn:Hre; simpl;
    [|done].
  destruct (Image.color img) as [colors|e] eqn:Hc; simpl; [|done].
  destruct (Np.vectorize Image.neg colors) as [colors'|e] eqn:Hv; simpl;
    [|done].
  destruct (Np.append_axis2 _ _) as [px|e] eqn:Hpx; simpl; [|done].
  apply (init_keeps_store_ok s None None None Image.default_background
           (Some px) Hs).
  intros p [= <-].
  apply getitem_array_ok in Ha, Hc.
  apply set_shape_result in Hre as (_ & Hsh' & Hfl' & Hsize).
  apply vectorize_result in Hv as (_ & Hvs & Hvl).
  unfold Np.append_axis2 in Hpx. rewrite Hvs, Hsh' in Hpx.
  destruct (Np.shape colors) as [|a0 [|a1 [|a2 [|]]]] eqn:Hcs;
    try discriminate.
  destruct (Nat.eqb_spec a0 w) as [->|]; [|discriminate].
  destruct (Nat.eqb_spec a1 h) as [->|]; [|discriminate].
  injection Hpx as <-. unfold array_ok in *. cbn [Np.shape Np.flat].
  rewrite interleave_length.
  - simpl. lia.
  - rewrite Hvl, Hc, Hcs. simpl. lia.
  - rewrite Hfl', Ha, <- Hsize. simpl. lia.
Qed.

Lemma and_keeps_store_ok (s : store) self other :
  store_ok s -> store_ok (snd (Image.__and__ self other s)).
Proof.
  intros Hs. unfold Image.__and__, mbind, lift, load.
  destruct other as [o| |]; try done.
  destruct (s !! self) as [a|] eqn:Ha; simpl; [|done].
  destruct (s !! o) as [b|] eqn:Hb; simpl; [|done].
  destruct (bool_decide (Np.shape (pixels a) = Np.shape (pixels b))) eqn:Heq;
    simpl; [|done].
  apply bool_decide_eq_true_1 in Heq.
  apply (init_keeps_store_ok s None None None Image.default_background
           (Some (Np.add (pixels a) (pixels b))) Hs).
  intros p [= <-].
  apply (Hs self), image_ok_array in Ha as [_ Hoka].
  apply (Hs o), image_ok_array in Hb as [_ Hokb].
  unfold array_ok in *. unfold Np.add. cbn [Np.shape Np.flat].
  rewrite length_zip_with, Hoka, Hokb, Heq. lia.
Qed.

Lemma getitem_keeps_store_ok (s : store) self index :
  store_ok s -> store_ok (snd (Image.__getitem__ self index s)).
Proof.
  intros Hs. unfold Image.__getitem__. unfold mbind at 1. unfold lift at 1.
  destruct (Image._flip_index index) as [idx|e]; [|done].
  destruct (Image._is_pixel_addr idx);
    [by apply get_by_pixels_keeps_store_ok|].
  unfold mbind at 1. unfold load.
  destruct (s !! self) as [img|]; simpl; [|done].
  destruct (_domain img) as [d|]; [|done].
  destruct idx as [|[| |ystart ystop ystep|] [|[| |xstart xstop xstep|] rest]];
    try done.
  unfold mbind, lift.
  destruct (Image.math_slices img d xstart xstop ystart ystop) as [sl|e];
    [by apply get_by_pixels_keeps_store_ok|done].
Qed.

Lemma new_layers_keeps_store_ok n wd ht : forall s : store,
  store_ok s -> store_ok (snd (LayeredImage.new_layers n wd ht s)).
Proof.
  induction n as [|n IH]; intros s Hs; [done|].
  cbn [LayeredImage.new_layers]. unfold mbind at 1.
  pose proof (init_keeps_store_ok s wd ht None [0; 0; 0; 0]%Z None Hs) as Hok.
  destruct (Image.__init__ wd ht None [0; 0; 0; 0]%Z None s) as [[l|e] s1];
    [|by apply Hok].
  specialize (IH s1 (Hok ltac:(done))). unfold mbind, ret.
  by destruct (LayeredImage.new_layers n wd ht s1) as [[ls|e] s2].
Qed.

(** X16: every method that creates objects keeps every [Image] of the store
    an array of three dimensions, the last of length 4, with as many
    elements as its shape says: this holds after the constructor (given an
    array, one that has as many elements as its shape says), an indexed
    read, a negation, an AND and the constructor of [LayeredImage], with any
    arguments, whether they return or raise. *)
Theorem creators_keep_store_ok (s : store) self index other wd ht dm bg px
    num_layers imgs :
  store_ok s -> (forall p, px = Some p -> array_ok p) ->
  store_ok (snd (Image.__init__ wd ht dm bg px s)) /\
  store_ok (snd (Image.__getitem__ self index s)) /\
  store_ok (snd (Image.__neg__ self s)) /\
  store_ok (snd (Image.__and__ self other s)) /\
  store_ok (snd (LayeredImage.__init__ wd ht num_layers imgs s)).
Proof.
  intros Hs Hpx.
  split; [by apply init_keeps_store_ok|].
  split; [by apply getitem_keeps_store_ok|].
  split; [by apply neg_keeps_store_ok|].
  split; [by apply and_keeps_store_ok|].
  unfold LayeredImage.__init__. destruct imgs as [imgs|].
  - unfold mbind, lift, load, ret.
    destruct (head imgs) as [first|]; simpl; [|done].
    destruct (s !! first) as [img|]; simpl; [|done].
    destruct (Image.width img); simpl; [|done].
    by destruct (Image.height img).
  - unfold mbind, ret.
    pose proof (new_layers_keeps_store_ok (Z.to_nat num_layers) wd ht s Hs)
      as Hok.
    by destruct (LayeredImage.new_layers _ wd ht s) as [[ls|e] s'].
Qed.

Lemma creators_keep_store_ok_witness :
  store_ok (snd (LayeredImage.__init__ (Some 2%Z) (Some 1%Z) 3 None ∅)).
Proof.
  apply (creators_keep_store_ok ∅ 1%positive (ITuple []) (PInt 0)
           (Some 2%Z) (Some 1%Z) None [] None 3 None).
  - intros l img Hl. by rewrite lookup_empty in Hl.
  - discriminate.
Defined.

(** ** More on AND *)

Lemma add_comm a b :
  Np.shape a = Np.shape b -> Np.add a b = Np.add b a.
Proof.
  intros Hsh. unfold Np.add. rewrite Hsh.
  assert (Hdt : Np.promote (Np.dtype a) (Np.dtype b)
                = Np.promote (Np.dtype b) (Np.dtype a))
    by (by destruct (Np.dtype a), (Np.dtype b)).
  rewrite Hdt. f_equal.
  generalize (Np.flat b). induction (Np.flat a) as [|x l IH]; intros [|y k];
    simpl; try done.
  by rewrite IH, Z.add_comm.
Qed.

Lemma wrap_small dt v : (0 <= v < 256)%Z -> Np.wrap dt v = v.
Proof.
  intros Hv. destruct dt; unfold Np.wrap, Np.to_uint8.
  - by apply Z.mod_small.
  - rewrite Z.mod_small; lia.
Qed.

Lemma add_zero a b :
  length (Np.flat b) = length (Np.flat a) ->
  Forall (fun v => v = 0%Z) (Np.flat b) ->
  Forall (fun v => (0 <= v < 256)%Z) (Np.flat a) ->
  Np.shape (Np.add a b) = Np.shape a /\ Np.flat (Np.add a b) = Np.flat a.
Proof.
  intros Hlen Hzero Hrange. unfold Np.add. cbn [Np.shape Np.flat].
  split; [done|]. generalize (Np.promote (Np.dtype a) (Np.dtype b)).
  intros dt. revert Hlen Hrange. generalize (Np.flat a).
  induction Hzero as [|y k -> _ IH]; intros [|x fl] Hlen Hrange;
    simpl in *; try done.
  apply Forall_cons in Hrange as [Hx Hrange].
  rewrite Z.add_0_r, wrap_small by done. f_equal. apply IH; [lia|done].
Qed.

(** X17: AND is commutative: on two buffers of one shape, [a & b] and
    [b & a] create the same buffer.  The result has no domain, whatever the
    domains of the operands, and, when [b] is all zeros (transparent black)
    and the elements of [a] are in 0..255, the shape and the elements of
    [a]; it is then the very array of [a] when both arrays are of dtype
    [uint8] and that of [a] is laid out in C order, as a new one is. *)
Theorem and_commutes (s : store) x y a b h w :
  s !! x = Some a -> s !! y = Some b ->
  image_shape a h w -> image_shape b h w ->
  exists l px,
    Image.__and__ x (PImage y) s = (Ok l, <[l := mkImage px None]> s) /\
    Image.__and__ y (PImage x) s = (Ok l, <[l := mkImage px None]> s) /\
    s !! l = None /\
    (length (Np.flat (pixels b)) = length (Np.flat (pixels a)) ->
     Forall (fun v => v = 0%Z) (Np.flat (pixels b)) ->
     Forall (fun v => (0 <= v < 256)%Z) (Np.flat (pixels a)) ->
     Np.shape px = Np.shape (pixels a) /\ Np.flat px = Np.flat (pixels a) /\
     (Np.dtype (pixels a) = Np.uint8 -> Np.dtype (pixels b) = Np.uint8 ->
      Np.strides (pixels a) = Np.c_strides (Np.shape (pixels a)) ->
      px = pixels a)).
Proof.
  intros Hx Hy Ha Hb.
  assert (Heq : Np.shape (pixels a) = Np.shape (pixels b))
    by (unfold image_shape in *; congruence).
  exists (fresh (dom s)), (Np.add (pixels a) (pixels b)).
  split; [by apply (and_same_shape s x y a b h w)|].
  split; [|split; [apply fresh_loc_unused|]].
  { rewrite (add_comm _ _ Heq). by apply (and_same_shape s y x b a h w). }
  intros Hlen Hzero Hrange.
  destruct (add_zero _ _ Hlen Hzero Hrange) as [Hshape Hflat].
  split; [done|]. split; [done|]. intros Hda Hdb Hst.
  revert Hflat. unfold Np.add. rewrite Hda, Hdb, <- Hst. cbn [Np.flat].
  intros ->. destruct (pixels a) as [dt sh st fl]. simpl in Hda. by subst dt.
Qed.

Lemma and_commutes_witness :
  let a := mkImage (Np.mkArr [1; 1; 4] [1; 2; 3; 4]%Z) None in
  let b := mkImage (Np.mkArr [1; 1; 4] [250; 6; 7; 8]%Z) None in
  let s : store := {[ 1%positive := a; 2%positive := b ]} in
  exists l px,
    Image.__and__ 1%positive (PImage 2%positive) s
    = (Ok l, <[l := mkImage px None]> s) /\
    Image.__and__ 2%positive (PImage 1%positive) s
    = (Ok l, <[l := mkImage px None]> s).
Proof.
  intros a b s.
  destruct (and_commutes s 1%positive 2%positive a b 1 1)
    as (l & px & H1 & H2 & _); [reflexivity..|].
  exists l, px. split; [exact H1|exact H2].
Defined.

(** ** Bounds that are coordinates *)

Lemma digits2_pos_iter m d :
  Zpos (digits2_pos (Pos.iter xO m d)) = (Zpos (digits2_pos m) + Zpos d)%Z.
Proof.
  induction d as [|d IH] using Pos.peano_ind.
  - simpl. lia.
  - rewrite Pos.iter_succ. simpl. lia.
Qed.

Lemma digits2_pos_le m : (2 ^ (Zpos (digits2_pos m) - 1) <= Zpos m)%Z.
Proof.
  induction m as [m IH|m IH|]; simpl digits2_pos.
  - replace (Z.pos (Pos.succ (digits2_pos m)) - 1)%Z
      with (Z.succ (Z.pos (digits2_pos m) - 1)) by lia.
    rewrite Z.pow_succ_r by lia. lia.
  - replace (Z.pos (Pos.succ (digits2_pos m)) - 1)%Z
      with (Z.succ (Z.pos (digits2_pos m) - 1)) by lia.
    rewrite Z.pow_succ_r by lia. lia.
  - simpl. lia.
Qed.

Lemma shr_1_m mrs :
  (0 <= shr_m mrs)%Z -> shr_m (shr_1 mrs) = (shr_m mrs / 2)%Z.
Proof.
  destruct mrs as [m r s]. cbn [shr_m]. intros Hm.
  destruct m as [|[p|p|]|p]; cbn [shr_1 shr_m]; try done; try lia.
  - apply Z.div_unique with 1%Z; lia.
  - apply Z.div_unique with 0%Z; lia.
Qed.

Lemma iter_shr_1_m p mrs :
  (0 <= shr_m mrs)%Z ->
  shr_m (SpecFloat.iter_pos shr_1 p mrs) = (shr_m mrs / 2 ^ Zpos p)%Z.
Proof.
  revert mrs. induction p as [p IH|p IH|]; intros mrs Hm; simpl SpecFloat.iter_pos.
  - assert (H1 : (0 <= shr_m (shr_1 mrs))%Z)
      by (rewrite shr_1_m by done; apply Z.div_pos; lia).
    assert (H2 : (0 <= shr_m (SpecFloat.iter_pos shr_1 p (shr_1 mrs)))%Z)
      by (rewrite IH by done; apply Z.div_pos; lia).
    rewrite IH, IH, shr_1_m by done.
    rewrite !Z.div_div by lia. f_equal.
    replace (Z.pos p~1) with (1 + Z.pos p + Z.pos p)%Z by lia.
    rewrite !Z.pow_add_r by lia. ring.
  - assert (H2 : (0 <= shr_m (SpecFloat.iter_pos shr_1 p mrs))%Z)
      by (rewrite IH by done; apply Z.div_pos; lia).
    rewrite IH, IH by done.
    rewrite !Z.div_div by lia. f_equal.
    replace (Z.pos p~0) with (Z.pos p + Z.pos p)%Z by lia.
    rewrite !Z.pow_add_r by lia. ring.
  - by rewrite shr_1_m.
Qed.

Lemma shr_record_of_loc_m m l : shr_m (shr_record_of_loc m l) = m.
Proof. by destruct l as [|[]]. Qed.

Lemma shr_fexp_pos m e l :
  (0 < m)%Z -> (emin <= e)%Z ->
  (0 < shr_m (fst (shr_fexp prec emax m e l)))%Z /\
  (emin <= snd (shr_fexp prec emax m e l))%Z.
Proof.
  intros Hm He. unfold shr_fexp, shr.
  destruct m as [|m|m]; try lia. simpl Zdigits2.
  destruct (fexp prec emax (Z.pos (digits2_pos m) + e) - e)%Z as [|p|p] eqn:Hn;
    cbn [fst snd]; rewrite ?shr_record_of_loc_m; try lia.
  split; [|lia].
  rewrite iter_shr_1_m by (rewrite shr_record_of_loc_m; lia).
  rewrite shr_record_of_loc_m.
  pose proof (digits2_pos_le m) as Hd.
  assert (Hp : (Zpos p <= Zpos (digits2_pos m) - 1)%Z).
  { revert Hn He. unfold fexp, SpecFloat.emin, prec, emax. lia. }
  assert (2 ^ Zpos p <= 2 ^ (Zpos (digits2_pos m) - 1))%Z
    by (apply Z.pow_le_mono_r; lia).
  apply Z.div_str_pos. lia.
Qed.

Lemma round_nearest_even_le m l : (m <= round_nearest_even m l)%Z.
Proof. destruct l as [|[]]; simpl; try lia. destruct (Z.even m); lia. Qed.

Lemma binary_round_aux_nonzero sx m e l s :
  (0 < m)%Z -> (emin <= e)%Z ->
  binary_round_aux prec emax sx m e l <> S754_zero s /\
  binary_round_aux prec emax sx m e l <> S754_nan.
Proof.
  intros Hm He. unfold binary_round_aux.
  destruct (shr_fexp_pos m e l Hm He) as [H1 H2].
  destruct (shr_fexp prec emax m e l) as [mrs' e']. cbn [fst snd] in *.
  pose proof (round_nearest_even_le (shr_m mrs') (loc_of_shr_record mrs')) as Hr.
  destruct (shr_fexp_pos (round_nearest_even (shr_m mrs') (loc_of_shr_record mrs'))
              e' loc_Exact ltac:(lia) H2) as [H3 H4].
  destruct (shr_fexp prec emax _ e' loc_Exact) as [mrs'' e''].
  cbn [fst snd] in *.
  destruct (shr_m mrs'') as [|q|q]; try lia.
  by destruct (e'' <=? emax - prec)%Z.
Qed.

Lemma binary_normalize_zero m e sz s :
  (emin <= e)%Z ->
  binary_normalize prec emax m e sz = S754_zero s -> m = 0%Z.
Proof.
  intros He. unfold binary_normalize, binary_round, shl_align.
  destruct m as [|m|m]; [done|..]; intros Hz; exfalso.
  - destruct (fexp prec emax (Z.pos (digits2_pos m) + e) - e)%Z eqn:Hn;
      revert Hz; apply binary_round_aux_nonzero; try done.
    unfold fexp. lia.
  - destruct (fexp prec emax (Z.pos (digits2_pos m) + e) - e)%Z eqn:Hn;
      revert Hz; apply binary_round_aux_nonzero; try done.
    unfold fexp. lia.
Qed.

Lemma canonical_exponent m e :
  bounded prec emax m e = true ->
  e = Z.max (Zpos (digits2_pos m) + e - prec) (emin).
Proof.
  unfold bounded, canonical_mantissa, fexp, SpecFloat.emin.
  intros [H _]%andb_prop. apply Z.eqb_eq in H. lia.
Qed.

Lemma SFsub_zero x y s :
  valid_binary x = true -> valid_binary y = true ->
  SFabs (SF64sub x y) = S754_zero s ->
  SFeqb x y = true.
Proof.
  intros Hx Hy.
  destruct x as [sx|sx| |sx mx ex], y as [sy|sy| |sy my ey]; simpl;
    try done; try (by destruct sx, sy).
  intros Hz.
  apply canonical_exponent in Hx, Hy.
  assert (Hn : exists s', binary_normalize prec emax
            (cond_Zopp sx (Z.pos (fst (shl_align mx ex (Z.min ex ey))))
             - cond_Zopp sy (Z.pos (fst (shl_align my ey (Z.min ex ey)))))
            (Z.min ex ey) false = S754_zero s').
  { revert Hz. unfold SF64sub, SFsub.
    destruct (binary_normalize _ _ _ _ _); simpl; try done. by eexists. }
  destruct Hn as [s' Hn]. apply binary_normalize_zero in Hn; [|lia].
  unfold shl_align in Hn.
  assert (Hs : sx = sy) by (destruct sx, sy; simpl in Hn; try done; lia).
  subst sy.
  assert (He : ex = ey).
  { destruct (Z.min ex ey - ex)%Z as [|d|d] eqn:H1,
             (Z.min ex ey - ey)%Z as [|e|e] eqn:H2; try lia;
      cbn [fst] in Hn.
    - assert (Hm : mx = Pos.iter xO my e) by (destruct sx; simpl in Hn; lia).
      pose proof (digits2_pos_iter my e) as Hd. rewrite <- Hm in Hd. lia.
    - assert (Hm : my = Pos.iter xO mx d) by (destruct sx; simpl in Hn; lia).
      pose proof (digits2_pos_iter mx d) as Hd. rewrite <- Hm in Hd. lia. }
  subst ey. rewrite Z.min_id, Z.sub_diag in Hn. cbn [fst] in Hn.
  assert (mx = my) as -> by (destruct sx; simpl in Hn; lia).
  unfold SFeqb, SFcompare. rewrite Z.compare_refl.
  change (Pos.compare_cont Eq my my) with (Pos.compare my my).
  rewrite Pos.compare_refl. by destruct sx.
Qed.

Lemma SFsub_diag x y :
  SFeqb x y = true -> SFabs (SF64sub x y) <> S754_nan ->
  SFabs (SF64sub x y) = S754_zero false.
Proof.
  unfold SFeqb.
  destruct x as [sx|sx| |sx mx ex], y as [sy|sy| |sy my ey]; simpl;
    try done; try (by destruct sx, sy); try (by destruct sx); try (by destruct sy).
  intros Hc _.
  assert (sx = sy /\ ex = ey /\ mx = my) as (-> & -> & ->).
  { destruct sx, sy; try done;
      destruct (Z.compare_spec ex ey); try done;
      change (Pos.compare_cont Eq mx my) with (Pos.compare mx my) in Hc;
      destruct (Pos.compare_spec mx my); by subst. }
  unfold SF64sub, SFsub. rewrite Z.sub_diag. done.
Qed.

Lemma SFleb_abs_zero x s :
  SFleb (SFabs x) (S754_zero s) = true -> SFabs x = S754_zero false.
Proof. unfold SFleb. by destruct x as [?|?| |? ? ?]. Qed.

Lemma distance_bound_value x b v :
  bound_value b = Some v -> Image.distance x b = Ok (abs (x - v)).
Proof.
  destruct b as [|z|q]; simpl; try done.
  - destruct (float_of_int z); simpl; congruence.
  - congruence.
Qed.

(** X18: a bound that is the value of a coordinate snaps to that coordinate:
    if [v] is the float of a bound whose differences with the coordinates
    are numbers, the coordinate at [i] equals [v] and no coordinate before
    [i] does, then the pixel index computed for the bound is [i]. *)
Theorem exact_bound_snaps coords b v i x :
  bound_value b = Some v -> comparable coords b ->
  coords !! i = Some x -> (x =? v)%float = true ->
  (forall j y, j < i -> coords !! j = Some y -> (y =? v)%float = false) ->
  exists ds, Image.by_distance coords b = Ok ds /\
             Image.first_index ds = Ok (BInt (Z.of_nat i)).
Proof.
  intros Hb Hcmp Hi Hx Hfirst.
  destruct (first_index_snapped coords b) as (ds & r & Hds & Hr & Hsnap);
    [left; by intros ->|done|].
  exists ds. split; [done|]. rewrite Hr.
  assert (Hnn : is_nan (abs (x - v)) = false).
  { destruct Hcmp as [->|Hall]; [done|].
    rewrite Forall_forall in Hall.
    destruct (Hall x) as (d & Hd & Hn); [by eapply list_elem_of_lookup_2|].
    rewrite (distance_bound_value x b v Hb) in Hd. by injection Hd as <-. }
  assert (Hx0 : Prim2SF (abs (x - v)) = S754_zero false).
  { rewrite abs_spec, sub_spec. apply SFsub_diag.
    - by rewrite <- FloatAxioms.eqb_spec.
    - rewrite <- sub_spec, <- abs_spec. by apply is_nan_spec. }
  unfold snapped in Hsnap.
  assert (Hk : exists k, r = BInt (Z.of_nat k) /\ nearest coords b k)
    by (by destruct b).
  destruct Hk as (k & -> & xk & dk & Hk & Hdk & Hmin).
  destruct (Hmin i x _ Hi (distance_bound_value x b v Hb)) as [Hle Htie].
  rewrite (distance_bound_value xk b v Hb) in Hdk. injection Hdk as <-.
  assert (Hk0 : Prim2SF (abs (xk - v)) = S754_zero false).
  { rewrite FloatAxioms.leb_spec, Hx0, abs_spec in Hle.
    rewrite abs_spec. by apply SFleb_abs_zero in Hle. }
  assert (k <= i).
  { apply Htie. by rewrite FloatAxioms.eqb_spec, Hx0, Hk0. }
  destruct (decide (k < i)) as [Hlt|Hge].
  - exfalso. specialize (Hfirst k xk Hlt Hk).
    rewrite FloatAxioms.eqb_spec in Hfirst.
    rewrite abs_spec, sub_spec in Hk0.
    apply SFsub_zero in Hk0; [congruence|apply Prim2SF_valid..].
  - do 3 f_equal. lia.
Qed.

Lemma exact_bound_snaps_witness :
  exists ds, Image.by_distance [0; 1; 2]%float (BFloat 1) = Ok ds /\
             Image.first_index ds = Ok (BInt 1).
Proof.
  apply (exact_bound_snaps [0; 1; 2]%float (BFloat 1) 1%float 1 1%float).
  - reflexivity.
  - right. repeat constructor; eexists; (split; [reflexivity|reflexivity]).
  - reflexivity.
  - reflexivity.
  - intros j y Hj Hy. assert (j = 0) as -> by lia.
    injection Hy as <-. reflexivity.
Defined.

(** ** Layers are separate buffers *)

Lemma setitem_pixel_run (s : store) self img h w x y v :
  s !! self = Some img -> image_shape img h w ->
  (- Z.of_nat w <= x < Z.of_nat w)%Z -> (- Z.of_nat h <= y < Z.of_nat h)%Z ->
  length (Image.rgba v) = 4 ->
  Forall (fun c => (0 <= c < 256)%Z) (Image.rgba v) ->
  Image.__setitem__ self (ITuple [CInt x; CInt y]) v s
  = (Ok tt,
     <[self := mkImage
                 (Np.mkNd (Np.dtype (pixels img)) [h; w; 4]
                    (Np.strides (pixels img))
                    (Np.scatter (Np.flat (pixels img))
                       (map (cell w (axis_pos h y) (axis_pos w x)) [0; 1; 2; 3])
                       (Image.rgba v)))
                 (_domain img)]> s).
Proof.
  intros Hs Hsh Hx Hy Hv Hr.
  unfold Image.__setitem__, mbind, lift, load, save. simpl.
  rewrite Hs. simpl. by rewrite (setitem_pixel _ h w y x) by done.
Qed.

(** X19: the layers of [LayeredImage(w, h, n)] are separate buffers: a
    colour written at a pixel through the layer that indexing by [i]
    returns is read back through that layer, which is still what indexing
    by [i] returns, and every other layer stays transparent black. *)
Theorem layers_are_separate (s : store) w h n i j x y v :
  (0 <= w)%Z -> (0 <= h)%Z -> (0 <= i < n)%Z -> (0 <= j < n)%Z -> i <> j ->
  (0 <= x < w)%Z -> (0 <= y < h)%Z -> is_color v ->
  exists li (s' s'' : store) li_i li_j,
    LayeredImage.__init__ (Some w) (Some h) n None s = (Ok li, s') /\
    LayeredImage.__getitem__ li (KInt i) s' = (Ok (Layer li_i), s') /\
    LayeredImage.__getitem__ li (KInt j) s' = (Ok (Layer li_j), s') /\
    li_i <> li_j /\
    Image.__setitem__ li_i (ITuple [CInt x; CInt y]) v s' = (Ok tt, s'') /\
    LayeredImage.__getitem__ li (KInt i) s'' = (Ok (Layer li_i), s'') /\
    Image.__getitem__ li_i (ITuple [CInt x; CInt y]) s''
    = (Ok (VArray (Np.mkArr [4] (Image.rgba v))), s'') /\
    s'' !! li_j = Some (blank w h) /\
    Image.__getitem__ li_j (ITuple [CInt x; CInt y]) s''
    = (Ok (VArray (Np.mkArr [4] [0; 0; 0; 0]%Z)), s'').
Proof.
  intros Hw Hh Hi Hj Hij Hx Hy Hv.
  destruct (rgba_color v Hv) as (Hl & Hr & _).
  destruct (new_layers_fresh (Z.to_nat n) w h s Hw Hh)
    as (ls & s' & Hrun & Hlen & Hnd & Hnew & _).
  destruct (lookup_lt_is_Some_2 ls (Z.to_nat i)) as [li_i Hli]; [lia|].
  destruct (lookup_lt_is_Some_2 ls (Z.to_nat j)) as [li_j Hlj]; [lia|].
  assert (Hne : li_i <> li_j).
  { intros <-. pose proof (NoDup_lookup _ _ _ _ Hnd Hli Hlj). lia. }
  destruct (Hnew li_i) as [_ Hsi]; [by apply list_elem_of_lookup_2 in Hli|].
  destruct (Hnew li_j) as [_ Hsj]; [by apply list_elem_of_lookup_2 in Hlj|].
  set (li := mkLayered ls (Some w) (Some h)).
  assert (Hget : forall (t : store) k l, (0 <= k < n)%Z ->
            ls !! Z.to_nat k = Some l ->
            LayeredImage.__getitem__ li (KInt k) t = (Ok (Layer l), t)).
  { intros t k l Hk Hkl.
    unfold LayeredImage.__getitem__, mbind, lift, ret. simpl.
    destruct (int_index_in_range (length ls) k) as [-> _]; [lia|].
    rewrite axis_pos_nonneg by lia. by rewrite Hkl. }
  set (px := Np.mkArr [Z.to_nat h; Z.to_nat w; 4]
               (Np.scatter (Np.flat (pixels (blank w h)))
                  (map (cell (Z.to_nat w) (Z.to_nat y) (Z.to_nat x))
                       [0; 1; 2; 3])
                  (Image.rgba v))).
  set (s'' := <[li_i := mkImage px None]> s').
  exists li, s', s'', li_i, li_j.
  split; [unfold LayeredImage.__init__, mbind; by rewrite Hrun|].
  split; [by apply Hget|]. split; [by apply Hget|]. split; [done|].
  split.
  { rewrite (setitem_pixel_run s' li_i (blank w h) (Z.to_nat h) (Z.to_nat w))
      by (done || lia).
    by rewrite !axis_pos_nonneg by lia. }
  split; [by apply Hget|]. split.
  { rewrite (image_getitem_pixel s'' li_i (mkImage px None)
               (Z.to_nat h) (Z.to_nat w) x y);
      [|apply lookup_insert_eq|done|lia|lia].
    rewrite !axis_pos_nonneg by lia. unfold px. cbn [pixels].
    rewrite (pixel_at_scatter _ (Np.flat (pixels (blank w h)))
               (Z.to_nat h) (Z.to_nat w) _ _ (Image.rgba v));
      [by rewrite pixel_view_new|done| |lia|lia|done].
    unfold blank. cbn [pixels Np.flat].
    rewrite length_concat_replicate. simpl. lia. }
  assert (Hsj' : s'' !! li_j = Some (blank w h))
    by (unfold s''; by rewrite lookup_insert_ne).
  split; [done|]. by apply (blank_pixel s'' li_j w h x y).
Qed.

Lemma layers_are_separate_witness :
  exists li (s' s'' : store) li_i li_j,
    LayeredImage.__init__ (Some 2%Z) (Some 2%Z) 2 None ∅ = (Ok li, s') /\
    Image.__setitem__ li_i (ITuple [CInt 1; CInt 0]) [9; 8; 7]%Z s'
    = (Ok tt, s'') /\
    Image.__getitem__ li_i (ITuple [CInt 1; CInt 0]) s''
    = (Ok (VArray (Np.mkArr [4] [9; 8; 7; 255]%Z)), s'') /\
    Image.__getitem__ li_j (ITuple [CInt 1; CInt 0]) s''
    = (Ok (VArray (Np.mkArr [4] [0; 0; 0; 0]%Z)), s'').
Proof.
  destruct (layers_are_separate ∅ 2 2 2 0 1 1 0 [9; 8; 7]%Z)
    as (li & s' & s'' & li_i & li_j & Hinit & _ & _ & _ & Hset & _ & Hread
        & _ & Hother); try lia.
  - split; [left; reflexivity|]. repeat constructor; lia.
  - exists li, s', s'', li_i, li_j.
    split; [exact Hinit|]. split; [exact Hset|]. split; [exact Hread|].
    exact Hother.
Defined.

(** ** Instances of the properties of negation and of refused reads *)

Lemma neg_square_witness :
  let img := mkImage (Np.mkArr [1; 1; 4] [10; 20; 30; 40]%Z) None in
  let s : store := {[ 1%positive := img ]} in
  exists px,
    Image.__neg__ 1%positive s
    = (Ok (fresh (dom s)), <[fresh (dom s) := mkImage px None]> s) /\
    nth (cell 1 0 0 0) (Np.flat px) 0%Z = 245%Z /\
    nth (cell 1 0 0 3) (Np.flat px) 0%Z = 40%Z.
Proof.
  intros img s.
  destruct (neg_square s 1%positive img 1) as (px & Hrun & _ & _ & _ & _ & Hpx & _).
  - apply lookup_singleton_eq.
  - reflexivity.
  - repeat constructor; lia.
  - reflexivity.
  - exists px. split; [exact Hrun|]. split.
    + rewrite (Hpx 0 0 0) by lia. reflexivity.
    + rewrite (Hpx 0 0 3) by lia. reflexivity.
Defined.

Lemma neg_raises_unless_square_witness :
  let s : store := {[ 1%positive := blank 2 1 ]} in
  let part := mkImage (Np.mkNd Np.uint8 [2; 3; 4] [24; 4; 1]%Z
                         (replicate 24 0%Z)) None in
  let t : store := {[ 1%positive := part ]} in
  Image.__neg__ 1%positive s = (Raise ValueError, s) /\
  Image.__neg__ 1%positive t = (Raise AttributeError, t).
Proof.
  intros s part t. split.
  - apply (neg_raises_unless_square s 1%positive (blank 2 1) 1 2 8 4 1).
    + apply lookup_singleton_eq.
    + reflexivity.
    + reflexivity.
    + lia.
    + repeat constructor.
  - apply (neg_raises_unless_square t 1%positive part 2 3 24 4 1).
    + apply lookup_singleton_eq.
    + reflexivity.
    + reflexivity.
    + lia.
    + repeat constructor.
Defined.

Lemma getitem_runtime_error_iff_witness :
  let s : store := {[ 1%positive := blank 2 1 ]} in
  fst (Image.__getitem__ 1%positive (ITuple [CFloat 0.5; CInt 0]) s)
  = Raise RuntimeError.
Proof.
  intros s.
  apply (proj1 (getitem_runtime_error_iff s 1%positive (blank 2 1)
                  (ITuple [CFloat 0.5; CInt 0]) [CInt 0; CFloat 0.5]
                  (lookup_singleton_eq _ _) eq_refl eq_refl)).
  left. reflexivity.
Defined.

Lemma getitem_math_not_slices_witness :
  let d : domainfn := fun _ _ => Ok ([[0; 1]], [[0; 0]])%float in
  let img := mkImage (Np.mkArr [1; 2; 4] (replicate 8 0%Z)) (Some d) in
  let s : store := {[ 1%positive := img ]} in
  Image.__getitem__ 1%positive (ITuple [CFloat 0.5; CInt 0]) s
  = (Raise ValueError, s).
Proof.
  intros d img s.
  apply (getitem_math_not_slices s 1%positive img d
           (ITuple [CFloat 0.5; CInt 0]) (CInt 0) (CFloat 0.5) []).
  - apply lookup_singleton_eq.
  - reflexivity.
  - reflexivity.
  - reflexivity.
  - reflexivity.
Defined.

(** ** Drawing attaches the domain *)

Lemma getitem_with_domain_no_runtime_error (s : store) self img d index idx :
  s !! self = Some img -> _domain img = Some d ->
  Image._flip_index index = Ok idx -> Image._is_pixel_addr idx = false ->
  (forall w h, Image.width img = Ok w -> Image.height img = Ok h ->
               d w h <> Raise RuntimeError) ->
  fst (Image.__getitem__ self index s) <> Raise RuntimeError.
Proof.
  intros Hs Hd Hflip Hmath Hdom.
  unfold Image.__getitem__, mbind, lift, load.
  rewrite Hflip, Hmath, Hs. cbn [of_option]. rewrite Hd.
  destruct idx as [|[| |ystart ystop ystep|] [|[| |xstart xstop xstep|] rest]];
    try discriminate.
  destruct (Image.math_slices img d xstart xstop ystart ystop) as [sl|e] eqn:Hsl.
  - apply get_by_pixels_no_runtime_error.
  - simpl. intros [= ->].
    apply math_slices_runtime_error in Hsl as (w & h & Hw & Hh & Hr).
    by apply (Hdom w h).
Qed.

(** A call with [use_host_domain] false that returns has called the
    function of the drawable for the domain, which returned a grid, and has
    stored pixels of the shape of those it found. *)
Lemma call_returned (s s' : store) self img f overwrite_domain :
  s !! self = Some img ->
  Image.__call__ self f overwrite_domain false s = (Ok tt, s') ->
  exists px w h g,
    s' = <[self := mkImage px (if overwrite_domain then Some (domainfunc f)
                               else _domain img)]> s /\
    Np.shape px = Np.shape (pixels img) /\
    Image.width img = Ok w /\ Image.height img = Ok h /\
    domainfunc f w h = Ok g.
Proof.
  intros Hs. unfold Image.__call__.
  unfold mbind at 1. unfold load at 1. rewrite Hs. cbn [of_option andb].
  unfold mbind, lift.
  destruct (Image.width img) as [w|e] eqn:Hw; [|discriminate].
  destruct (Image.height img) as [h|e] eqn:Hh; [|discriminate].
  destruct (domainfunc f w h) as [g|e] eqn:Hg; [|discriminate].
  destruct (maskfunc f (fst g) (snd g)) as [mask|e]; [|discriminate].
  match goal with
  | |- context [match ?c with Ok _ => _ | Raise _ => _ end] =>
      destruct c as [col|e]
  end; [|discriminate].
  destruct (Np.setitem_mask (pixels img) mask col) as [px|e] eqn:Hpx;
    [|discriminate].
  apply setitem_mask_keeps_array in Hpx as [Hshape _].
  unfold save at 1. rewrite andb_true_r.
  intros Hr. exists px, w, h, g.
  split; [|done].
  destruct overwrite_domain.
  - rewrite load_saved in Hr. unfold save in Hr. cbn [pixels] in Hr.
    rewrite insert_insert_eq in Hr. congruence.
  - unfold ret in Hr. congruence.
Qed.

(** X24: drawing makes reads by mathematical points possible: on a buffer
    with no domain such a read raises [RuntimeError]; after a call of
    [__call__] that returns, with [use_host_domain] false, it still raises
    [RuntimeError] if [overwrite_domain] is false, and no longer does if
    [overwrite_domain] is true. *)
Theorem call_attaches_domain (s s' : store) self img f
    (overwrite_domain : bool) index idx :
  s !! self = Some img -> _domain img = None ->
  Image._flip_index index = Ok idx -> Image._is_pixel_addr idx = false ->
  Image.__call__ self f overwrite_domain false s = (Ok tt, s') ->
  fst (Image.__getitem__ self index s) = Raise RuntimeError /\
  (fst (Image.__getitem__ self index s') = Raise RuntimeError
   <-> overwrite_domain = false).
Proof.
  intros Hs Hd Hflip Hmath Hcall.
  split; [by rewrite (getitem_math_no_domain s self img index idx)|].
  destruct (call_returned s s' self img f overwrite_domain Hs Hcall)
    as (px & w & h & g & -> & Hshape & Hw & Hh & Hg).
  rewrite Hd. destruct overwrite_domain; simpl.
  - split; [|done]. intros Hr. exfalso. revert Hr.
    apply (getitem_with_domain_no_runtime_error _ self
             (mkImage px (Some (domainfunc f))) (domainfunc f) index idx);
      [apply lookup_insert_eq|done..|].
    unfold Image.width, Image.height. cbn [pixels]. rewrite Hshape.
    fold (Image.width img). fold (Image.height img).
    intros w' h' Hw' Hh'. congruence.
  - split; [done|]. intros _.
    by rewrite (getitem_math_no_domain _ self (mkImage px None) index idx)
      by (done || apply lookup_insert_eq).
Qed.

Lemma call_attaches_domain_witness :
  let f := mkDrawable (fun _ _ => Ok ([[0; 1]], [[0; 0]])%float)
                      (fun _ _ => Ok [[false; true]])
                      (ColorTuple [1; 2; 3; 4]%Z) in
  let s : store := {[ 1%positive := blank 2 1 ]} in
  let index := ITuple [CSlice (BFloat 0.5) BNone BNone; full_slice] in
  fst (Image.__getitem__ 1%positive index s) = Raise RuntimeError /\
  fst (Image.__getitem__ 1%positive index
         (snd (Image.__call__ 1%positive f true false s)))
  <> Raise RuntimeError.
Proof.
  intros f s index.
  destruct (call_attaches_domain s
              (snd (Image.__call__ 1%positive f true false s))
              1%positive (blank 2 1) f true index
              [full_slice; CSlice (BFloat 0.5) BNone BNone])
    as [H1 H2]; [reflexivity..|].
  split; [exact H1|]. intros Hr. apply H2 in Hr. discriminate.
Defined.

(** ** Grids with nothing to snap to *)

Lemma by_distance_nil b :
  Image.by_distance [] b
  = Ok (match b with BNone => [(None, None)] | _ => [] end).
Proof. by destruct b. Qed.

(** X25: on a buffer with a domain, a read by a mathematical index of two
    slices raises [ValueError] when the X grid of the domain has no row, and
    [IndexError] when its first row is empty while the x-slice has a start or
    a stop and the distances to the bounds of the y-slice are computed, none
    of them being an [int] too large for a float; nothing is changed. *)
Theorem getitem_math_empty_grid (s : store) self img h w d XS YS ys
    xstart xstop xstep ystart ystop ystep :
  s !! self = Some img -> image_shape img h w -> _domain img = Some d ->
  d w h = Ok (XS, YS) ->
  Image._is_pixel_addr
    [CSlice xstart xstop xstep; CSlice ystart ystop ystep] = false ->
  let index := ITuple [CSlice xstart xstop xstep; CSlice ystart ystop ystep] in
  (XS = [] -> Image.__getitem__ self index s = (Raise ValueError, s)) /\
  (head XS = Some [] ->
   mapM (fun it => of_option IndexError (head it)) YS = Ok ys ->
   (exists d0 d1, Image.by_distance ys ystart = Ok d0 /\
                  Image.by_distance ys ystop = Ok d1) ->
   xstart <> BNone \/ xstop <> BNone ->
   Image.__getitem__ self index s = (Raise IndexError, s)).
Proof.
  intros Hs Hsh Hd Hgrid Hmath index.
  assert (Hrun : Image.__getitem__ self index s
                 = match Image.math_slices img d xstart xstop ystart ystop with
                   | Ok sl => Image._get_by_pixels self [fst sl; snd sl] s
                   | Raise e => (Raise e, s)
                   end).
  { unfold index, Image.__getitem__. unfold mbind at 1. unfold lift at 1.
    cbn [Image._flip_index length Nat.eqb].
    rewrite (is_pixel_addr_flip
               [CSlice xstart xstop xstep; CSlice ystart ystop ystep])
      by reflexivity.
    rewrite Hmath. unfold mbind at 1. unfold load at 1. rewrite Hs.
    cbn [of_option]. rewrite Hd. unfold mbind, lift.
    by destruct (Image.math_slices img d xstart xstop ystart ystop). }
  rewrite Hrun. unfold Image.math_slices, Image.width, Image.height.
  rewrite Hsh. cbn [lookup list_lookup of_option bind]. rewrite Hgrid.
  cbn [of_option bind fst snd]. split.
  - intros ->. reflexivity.
  - intros Hxs Hys (d0 & d1 & Hd0 & Hd1) Hbound. rewrite Hxs.
    cbn [of_option bind]. rewrite Hys. cbn [bind].
    rewrite !by_distance_nil. cbn [bind]. rewrite Hd0, Hd1. cbn [bind].
    destruct xstart as [|z|q].
    + destruct xstop as [|z|q]; [by destruct Hbound|reflexivity..].
    + reflexivity.
    + reflexivity.
Qed.

Lemma getitem_math_empty_grid_witness :
  let d : domainfn := fun _ _ => Ok ([], []) in
  let img := mkImage (Np.mkArr [0; 2; 4] []) (Some d) in
  let s : store := {[ 1%positive := img ]} in
  Image.__getitem__ 1%positive
    (ITuple [CSlice (BFloat 0.5) BNone BNone; full_slice]) s
  = (Raise ValueError, s).
Proof.
  intros d img s.
  destruct (getitem_math_empty_grid s 1%positive img 0 2 d [] [] []
              (BFloat 0.5) BNone BNone BNone BNone BNone) as [H _];
    [reflexivity..|].
  by apply H.
Defined.

(** ** Arguments the constructors refuse *)



(** X27: [LayeredImage(width, height, n)] with [n] zero or negative returns
    a container with no layer and creates nothing, even when the width or
    the height is missing; with [n] positive and the width or the height
    missing it raises [ValueError] and creates nothing. *)
Theorem layered_init_edges (s : store) wd ht n :
  ((n <= 0)%Z ->
   LayeredImage.__init__ wd ht n None s = (Ok (mkLayered [] wd ht), s)) /\
  ((0 < n)%Z -> wd = None \/ ht = None ->
   LayeredImage.__init__ wd ht n None s = (Raise ValueError, s)).
Proof.
  split.
  - intros Hn. unfold LayeredImage.__init__.
    replace (Z.to_nat n) with 0 by lia. reflexivity.
  - intros Hn Hmiss. unfold LayeredImage.__init__.
    destruct (Z.to_nat n) as [|k] eqn:Hk; [lia|].
    cbn [LayeredImage.new_layers]. unfold mbind, Image.__init__, lift.
    destruct Hmiss as [-> | ->]; [done|by destruct wd].
Qed.

Lemma layered_init_edges_witness :
  LayeredImage.__init__ None None (-3) None ∅
  = (Ok (mkLayered [] None None), ∅) /\
  LayeredImage.__init__ None (Some 2%Z) 1 None ∅ = (Raise ValueError, ∅).
Proof.
  split.
  - apply (proj1 (layered_init_edges ∅ None None (-3))). lia.
  - apply (proj2 (layered_init_edges ∅ None (Some 2%Z) 1)); [lia|by left].
Defined.
